(** * reception: maps of radio reception reports

    A shallow embedding of [reception.go] (package [main]) and the
    properties of its loaders, its driver loop, its legend writer and its
    coordinate projector.

    Conventions of the embedding.
    - Go strings are byte strings: [string] of the Standard Library.
    - Go maps are finite maps of stdpp: [gmap string V].  Reading a key
      that is absent yields the zero value of [V], as in Go.
    - A [float64] is the rational it denotes, and its operations round to
      53 bits (module [F64]).
    - [log.Fatal*] ends the run with [Fatal]; a run-time panic (an index
      out of range, a method called on a nil interface) ends it with
      [Panic].
    - The images, the output map, the text layer, the cursor of the
      legend, the standard output and the files written are the fields of
      a [world] that the drawing functions pass on.
    - The package-level variable [cfg] and what the program calls in other
      packages (the UTM projection, the float parser, the font, the file
      system, the order of a [range] over a map) are the variables of the
      section [Program]. *)

From Stdlib Require Import ZArith QArith Qround Qabs Qpower Lia Lqa String Ascii List DecimalString.
From Stdlib Require Import Floats.
From stdpp Require Import gmap strings list fin_maps.

Local Open Scope string_scope.

(** ** Results of fallible code *)

Inductive result (A : Type) : Type :=
| Ok (a : A)
| Fatal (msg : string)
| Panic (msg : string).
Arguments Ok {A} a.
Arguments Fatal {A} msg.
Arguments Panic {A} msg.

Definition rbind {A B} (r : result A) (k : A -> result B) : result B :=
  match r with
  | Ok a => k a
  | Fatal m => Fatal m
  | Panic m => Panic m
  end.

#[global] Instance result_ret : MRet result := @Ok.
#[global] Instance result_bind : MBind result := fun A B k r => rbind r k.

(** [s[i]] on a slice: a run-time panic out of range. *)
Definition index {A} (s : list A) (i : nat) : result A :=
  match nth_error s i with
  | Some a => Ok a
  | None => Panic "index out of range"
  end.

(** ** Package [strings] *)

Module Strings.

(** [strings.ToUpper] on a byte: the letters [a]..[z] go to [A]..[Z].
    Call signs are ASCII; on ASCII input this is what [strings.ToUpper]
    computes, byte by byte. *)
Definition upper (c : ascii) : ascii :=
  let n := nat_of_ascii c in
  if Nat.leb 97 n && Nat.leb n 122 then ascii_of_nat (n - 32) else c.

Fixpoint ToUpper (s : string) : string :=
  match s with
  | EmptyString => EmptyString
  | String c s' => String (upper c) (ToUpper s')
  end.

(** [strings.ReplaceAll s old new] for a non-empty [old]: the
    non-overlapping occurrences of [old], from the left, become [new].
    [skip] counts the bytes of a matched occurrence still to be dropped. *)
Fixpoint replaceFrom (old new : string) (skip : nat) (s : string) : string :=
  match s with
  | EmptyString => EmptyString
  | String c s' =>
      match skip with
      | S k => replaceFrom old new k s'
      | O =>
          if Stdlib.Strings.String.prefix old s
          then new +:+ replaceFrom old new (Stdlib.Strings.String.length old - 1) s'
          else String c (replaceFrom old new 0 s')
      end
  end.

Definition ReplaceAll (s old new : string) : string := replaceFrom old new 0 s.

(** [strings.Split s sep] for a non-empty [sep]; [cur] is the piece
    being read, in reverse. *)
Fixpoint splitFrom (sep : string) (skip : nat) (cur : string) (s : string) : list string :=
  match s with
  | EmptyString => [String.rev cur]
  | String c s' =>
      match skip with
      | S k => splitFrom sep k cur s'
      | O =>
          if Stdlib.Strings.String.prefix sep s
          then String.rev cur :: splitFrom sep (Stdlib.Strings.String.length sep - 1) EmptyString s'
          else splitFrom sep 0 (String c cur) s'
      end
  end.

Definition Split (s sep : string) : list string := splitFrom sep 0 EmptyString s.

End Strings.

(** ** [float64]

    A finite [float64] is the rational it denotes.  Every operation
    rounds its exact result to the nearest rational with a significand of
    53 bits, ties to even, as IEEE 754 binary64 does.  The exponent is not
    bounded: overflow, underflow, infinities, NaN and the sign of zero are
    outside the model, and so is a division by zero (which Go evaluates to
    an infinity or a NaN); statements about a quotient assume a divisor
    that is not zero. *)

Module F64.
Local Open Scope Q_scope.

Definition pow2 (k : Z) : Q := 2 ^ k.

(** Nearest integer of a non-negative rational, ties to even. *)
Definition RNE (x : Q) : Z :=
  let f := Qfloor x in
  match Qcompare (x - inject_Z f) (1 # 2) with
  | Lt => f
  | Gt => (f + 1)%Z
  | Eq => if Z.even f then f else (f + 1)%Z
  end.

(** For [0 < q], the exponent [e] with [2^e <= q < 2^(e+1)]. *)
Definition binade (q : Q) : Z :=
  let e0 := (Z.log2 (Qnum q) - Z.log2 (Zpos (Qden q)))%Z in
  if Qle_bool (pow2 e0) q then e0 else (e0 - 1)%Z.

Definition round_pos (q : Q) : Q :=
  let k := (binade q - 52)%Z in
  inject_Z (RNE (q / pow2 k)) * pow2 k.

Definition round (q : Q) : Q :=
  match Qcompare q 0 with
  | Eq => 0
  | Gt => round_pos q
  | Lt => - round_pos (- q)
  end.

Definition add (x y : Q) : Q := round (x + y).
Definition sub (x y : Q) : Q := round (x - y).
Definition mul (x y : Q) : Q := round (x * y).
Definition div (x y : Q) : Q := round (x / y).

(** [float64(n)] for an [int]. *)
Definition of_int (n : Z) : Q := round (inject_Z n).

(** [int(x)] for a [float64]: the fraction is discarded.  (What Go makes
    of a value beyond the range of [int] depends on the machine and is
    outside the model.) *)
Definition to_int (x : Q) : Z := if Qle_bool 0 x then Qfloor x else Qceiling x.

(** [x != y]. *)
Definition neq (x y : Q) : bool := negb (Qeq_bool x y).

(** The unit roundoff: half the distance from 1 to the next value. *)
Definition u53 : Q := pow2 (-53).

End F64.

(** ** The kernel's binary64, to test the model of [float64] against

    [toQ] is the rational a finite primitive float denotes; [agree] tells
    whether an operation of the model, on the rationals of two floats,
    gives the rational of the float the hardware operation gives. *)

Module Binary64.

Definition toQ (f : float) : Q :=
  match Prim2SF f with
  | S754_finite s m e => ((if s then -1 else 1) * inject_Z (Zpos m) * F64.pow2 e)%Q
  | _ => 0%Q
  end.

Definition ofZ (z : Z) : float :=
  if (z <? 0)%Z
  then PrimFloat.opp (PrimFloat.of_uint63 (Uint63.of_Z (- z)))
  else PrimFloat.of_uint63 (Uint63.of_Z z).

Definition agree (hardware : float -> float -> float) (model : Q -> Q -> Q)
    (p : float * float) : bool :=
  Qeq_bool (toQ (hardware (fst p) (snd p))) (model (toQ (fst p)) (toQ (snd p))).

(** Eastings, northings, degrees and a few awkward values. *)
Definition samples : list (float * float) :=
  [ (ofZ 1, ofZ 10);
    (ofZ 572000123, ofZ 1000);
    (ofZ (-37416600), ofZ 1000003);
    (PrimFloat.div (ofZ 1) (ofZ 3), PrimFloat.div (ofZ 2) (ofZ 7));
    (PrimFloat.div (ofZ 4141234567) (ofZ 1000), PrimFloat.div (ofZ (-122115580)) (ofZ 1000000));
    (ofZ 9007199254740993, ofZ 3);
    (PrimFloat.div (ofZ 1) (ofZ 1024), ofZ 1048577) ].

End Binary64.

(** ** Package [fmt]: the verbs [%.0f] and [%.1f] *)

Definition digits (n : Z) : string :=
  DecimalString.NilZero.string_of_uint (N.to_uint (Z.to_N n)).

(** [fmt.Sprintf("%.<prec>f", x)] for a finite [x]: the exact value is
    rounded to [prec] decimals, ties to even. *)
Definition Sprintf_f (prec : nat) (x : Q) : string :=
  let scale := (10 ^ Z.of_nat prec)%Z in
  let n := F64.RNE (Qabs x * inject_Z scale)%Q in
  let sign := if Qle_bool 0 x then "" else "-" in
  let whole := digits (n / scale)%Z in
  match prec with
  | O => sign +:+ whole
  | S _ => sign +:+ whole +:+ "." +:+ substring 1 prec (digits (scale + n mod scale)%Z)
  end.

(** ** Machine integers

    [int] is 64 bits wide and [fixed.Int26_6] is an [int32]; sums and
    differences wrap around. *)

Definition wrap (bits : Z) (z : Z) : Z :=
  ((z + 2 ^ (bits - 1)) mod 2 ^ bits - 2 ^ (bits - 1))%Z.

Definition int (z : Z) : Z := wrap 64 z.
Definition int32 (z : Z) : Z := wrap 32 z.
Definition uint32 (z : Z) : Z := (z mod 2 ^ 32)%Z.
Definition uint8 (z : Z) : Z := (z mod 2 ^ 8)%Z.

(** ** Package [image] *)

Record Point := { X : Z; Y : Z }.

Record Rectangle := { Min : Point; Max : Point }.

Definition Dx (r : Rectangle) : Z := int (X (Max r) - X (Min r)).
Definition Dy (r : Rectangle) : Z := int (Y (Max r) - Y (Min r)).

(** [p.In(r)] *)
Definition inRect (x y : Z) (r : Rectangle) : bool :=
  (X (Min r) <=? x)%Z && (x <? X (Max r))%Z && (Y (Min r) <=? y)%Z && (y <? Y (Max r))%Z.

(** [r.Add(p)] *)
Definition RectAdd (r : Rectangle) (p : Point) : Rectangle :=
  {| Min := {| X := int (X (Min r) + X p); Y := int (Y (Min r) + Y p) |};
     Max := {| X := int (X (Max r) + X p); Y := int (Y (Max r) + Y p) |} |}.

(** What [Color.RGBA()] returns: four alpha-premultiplied 16-bit channels. *)
Record Color := { cR : Z; cG : Z; cB : Z; cA : Z }.

Definition channel (c : Color) (i : Z) : Z :=
  if (i =? 0)%Z then cR c else if (i =? 1)%Z then cG c else if (i =? 2)%Z then cB c else cA c.

(** The interface [image.Image] (its color model is not used). *)
Record Image := { Bounds : Rectangle; At : Z -> Z -> Color }.

(** [*image.RGBA]: [Pix] holds the 8-bit channels R, G, B, A of each pixel,
    row after row; [Stride] is the distance between two rows. *)
Record RGBA := { Pix : list Z; Stride : Z; Rect : Rectangle }.

(** [image.NewRGBA(r)] *)
Definition NewRGBA (r : Rectangle) : RGBA :=
  {| Pix := repeat 0%Z (Z.to_nat (4 * Dx r * Dy r)); Stride := (4 * Dx r)%Z; Rect := r |}.

(** [p.PixOffset(x, y)]: where in [Pix] the pixel at [(x, y)] starts. *)
Definition PixOffset (img : RGBA) (x y : Z) : Z :=
  ((y - Y (Min (Rect img))) * Stride img + (x - X (Min (Rect img))) * 4)%Z.

(** The byte of channel [ch] of the pixel at [(x, y)]. *)
Definition byteAt (img : RGBA) (x y ch : Z) : Z :=
  default 0%Z (Pix img !! Z.to_nat (PixOffset img x y + ch)).

(** An [*image.RGBA] seen through [image.Image]: [color.RGBA.RGBA()]
    widens a channel [c] to [c | c << 8]; outside [Rect] the color is
    the zero color. *)
Definition RGBAAt (img : RGBA) (x y : Z) : Color :=
  if inRect x y (Rect img)
  then {| cR := byteAt img x y 0 * 257; cG := byteAt img x y 1 * 257;
          cB := byteAt img x y 2 * 257; cA := byteAt img x y 3 * 257 |}
  else {| cR := 0; cG := 0; cB := 0; cA := 0 |}.

Definition asImage (img : RGBA) : Image := {| Bounds := Rect img; At := RGBAAt img |}.

(** [image.Transparent], a uniform image without bounds to speak of. *)
Definition Transparent : Image :=
  {| Bounds := {| Min := {| X := -1000000000; Y := -1000000000 |};
                  Max := {| X := 1000000000; Y := 1000000000 |} |};
     At := fun _ _ => {| cR := 0; cG := 0; cB := 0; cA := 0 |} |}.

(** ** Package [image/draw] *)

Inductive Op := Over | Src.

(** One channel of one pixel of [draw.Draw] into an [*image.RGBA] without
    a mask, in the [uint32] arithmetic of the package: [d] is the
    destination byte, [s] the source channel and [sa] the source alpha,
    both 16 bits wide; [m] is [1<<16 - 1].  (The package has shorter paths
    for some types of source; they store the same bytes.) *)
Definition blend (op : Op) (d s sa : Z) : Z :=
  let m := 65535%Z in
  match op with
  | Over =>
      let a := uint32 ((m - sa) * 257) in
      uint8 (Z.shiftr (uint32 (uint32 (d * a) + uint32 (s * m)) / m) 8)
  | Src => uint8 (Z.shiftr (uint32 (s * m) / m) 8)
  end.

(** [draw.Draw(dst, r, src, sp, op)] for [dst] an [*image.RGBA].  The
    rectangle is clipped to [dst] and to [src] moved to where [sp] falls
    on [r.Min]; the pixel at [p] of what is left takes the source pixel at
    [sp + (p - r.Min)].  Byte [j] of [Pix] is channel [j mod 4] of the
    pixel [j / 4 mod (Stride / 4)] of row [j / Stride]. *)
Definition Draw (dst : RGBA) (r : Rectangle) (src : Image) (sp : Point) (op : Op) : RGBA :=
  let put (j : nat) (d : Z) : Z :=
    let j := Z.of_nat j in
    let x := (X (Min (Rect dst)) + j mod Stride dst / 4)%Z in
    let y := (Y (Min (Rect dst)) + j / Stride dst)%Z in
    let sx := (X sp + (x - X (Min r)))%Z in
    let sy := (Y sp + (y - Y (Min r)))%Z in
    if inRect x y r && inRect x y (Rect dst) && inRect sx sy (Bounds src)
    then let c := At src sx sy in blend op d (channel c (j mod 4)) (cA c)
    else d in
  {| Pix := imap put (Pix dst); Stride := Stride dst; Rect := Rect dst |}.

(** [freetype.Pt(x, y)], a [fixed.Point26_6]: [x << 6] as an [int32]. *)
Definition Pt (x y : Z) : Point := {| X := int32 (x * 64); Y := int32 (y * 64) |}.

(** ** Configuration ([config], the fields the embedded code reads) *)

Record config := {
  OutputDirectory : string;
  CallSigns : string;
  RcvMapFlag : bool;
  TransIcon : string;
  MapNWCorner : list Q;
  MapSECorner : list Q;
  FontDPI : Q;
  FontSize : Q;
  FontLineSpacing : Q
}.

(** ** Data of the program *)

(** Latitude-longitude coordinates *)
Record gpsCoord := { lat : Q; long : Q }.

(** Station data for one operator *)
Record operatorData := {
  callsign : string;
  gps : gpsCoord;
  pixel : Point;
  xmitPwr : Q;
  antType : string;
  antGain : Q;
  antHeight : Q
}.

(** The zero value of [operatorData], which reading [operators] at an
    unknown call sign yields. *)
Definition zeroOperator : operatorData :=
  {| callsign := ""; gps := {| lat := 0; long := 0 |}; pixel := {| X := 0; Y := 0 |};
     xmitPwr := 0; antType := ""; antGain := 0; antHeight := 0 |}.

(** [operators[call]] *)
Definition operatorOf (operators : gmap string operatorData) (call : string) : operatorData :=
  default zeroOperator (operators !! call).

(** A map of maps read at two keys: a missing outer key is a nil map, and
    reading a nil map gives the zero value. *)
Definition lookup2 (reports : gmap string (gmap string string)) (t r : string) : string :=
  default "" (default ∅ (reports !! t) !! r).

(** The value of [m[k]] for a [map[string]bool]. *)
Definition member (m : gmap string bool) (k : string) : bool := default false (m !! k).

(** The three maps [loadReports] returns. *)
Record reportData := {
  reports : gmap string (gmap string string);
  receivers : gmap string bool;
  transmitters : gmap string bool
}.

Definition noReports : reportData :=
  {| reports := ∅; receivers := ∅; transmitters := ∅ |}.

(** [a == b] on strings. *)
Definition streq (a b : string) : bool := Stdlib.Strings.String.eqb a b.

(** A loop over a slice whose body may end the run. *)
Fixpoint forEach {A S : Type} (body : S -> A -> result S) (l : list A) (s : S) : result S :=
  match l with
  | [] => Ok s
  | a :: rest => s' ← body s a; forEach body rest s'
  end.

(** [log.Fatalln(msg, err)] when [err != nil]. *)
Definition orFatal {A} (msg : string) (o : option A) : result A :=
  match o with
  | Some a => Ok a
  | None => Fatal msg
  end.

(** ** What the program draws on and writes to

    [outputMap] is [outputMapPtr]; [textMap] is [mapTextImagePtr], which
    is also the destination of the freetype context; [cursorX] and
    [cursorY] are the variables the closure [drawLegend] holds; [drawn]
    lists the calls of [DrawString] so far; [stdout] what was printed
    (the progress bar is left out); [files] the PNG files written. *)
Record world := {
  outputMap : RGBA;
  textMap : RGBA;
  cursorX : Z;
  cursorY : Z;
  drawn : list (string * Point);
  stdout : list string;
  files : list (string * RGBA)
}.

Definition setOutputMap (img : RGBA) (w : world) : world :=
  {| outputMap := img; textMap := textMap w; cursorX := cursorX w; cursorY := cursorY w;
     drawn := drawn w; stdout := stdout w; files := files w |}.

Definition setTextMap (img : RGBA) (w : world) : world :=
  {| outputMap := outputMap w; textMap := img; cursorX := cursorX w; cursorY := cursorY w;
     drawn := drawn w; stdout := stdout w; files := files w |}.

Definition setCursor (x y : Z) (w : world) : world :=
  {| outputMap := outputMap w; textMap := textMap w; cursorX := x; cursorY := y;
     drawn := drawn w; stdout := stdout w; files := files w |}.

Definition Println (line : string) (w : world) : world :=
  {| outputMap := outputMap w; textMap := textMap w; cursorX := cursorX w; cursorY := cursorY w;
     drawn := drawn w; stdout := stdout w ++ [line]; files := files w |}.

Definition writeFile (name : string) (img : RGBA) (w : world) : world :=
  {| outputMap := outputMap w; textMap := textMap w; cursorX := cursorX w; cursorY := cursorY w;
     drawn := drawn w; stdout := stdout w; files := files w ++ [(name, img)] |}.

(** ** The program *)

Section Program.

(** What the program calls outside itself.
    - [FromLatLon lat long northern]: [UTM.FromLatLon], returning the
      easting, the northing, the zone number and the zone letter, or
      [None] for an error.
    - [ParseFloat s]: [strconv.ParseFloat(s, 64)], [None] for an error.
    - [DrawGlyphs dst s pt]: what [DrawString(s, pt)] of the freetype
      context leaves in its destination [dst], [None] for an error.
    - [Create name]: whether [os.Create(name)] succeeds.
    - [transmitterOrder] and [receiverOrder t]: the order in which the
      [range] loops of [main] visit the keys of a map, the latter in the
      iteration for the transmitter [t]; Go leaves it unspecified. *)
Variable FromLatLon : Q -> Q -> bool -> option (Q * Q * Z * string).
Variable ParseFloat : string -> option Q.
Variable DrawGlyphs : RGBA -> string -> Point -> option RGBA.
Variable Create : string -> bool.
Variable transmitterOrder : gmap string bool -> list string.
Variable receiverOrder : string -> gmap string bool -> list string.

(** The package-level variable [cfg]. *)
Variable cfg : config.

(** *** [newGpsToPixel] *)

Definition newGpsToPixel (mapImage : Image) : result (gpsCoord -> result Point) :=
  nwLat ← index (MapNWCorner cfg) 0;
  nwLong ← index (MapNWCorner cfg) 1;
  nw ← orFatal "MapNWCorner can't be converted to UTM" (FromLatLon nwLat nwLong false);
  let '(eastingNW, northingNW, _, _) := nw in
  seLat ← index (MapSECorner cfg) 0;
  seLong ← index (MapSECorner cfg) 1;
  se ← orFatal "MapSECorner can't be converted to UTM" (FromLatLon seLat seLong false);
  let '(eastingSE, northingSE, _, _) := se in
  let xMetersPerPixel := F64.div (F64.sub eastingSE eastingNW) (F64.of_int (Dx (Bounds mapImage))) in
  let yMetersPerPixel := F64.div (F64.sub northingNW northingSE) (F64.of_int (Dy (Bounds mapImage))) in
  Ok (fun gps : gpsCoord =>
        en ← orFatal "Can't convert GPS coordinate to UTM" (FromLatLon (lat gps) (long gps) false);
        let '(easting, northing, _, _) := en in
        Ok {| X := F64.to_int (F64.add (F64.div (F64.sub easting eastingNW) xMetersPerPixel) (1 # 2));
              Y := F64.to_int (F64.add (F64.div (F64.sub northingNW northing) yMetersPerPixel) (1 # 2)) |}).

(** *** [newDrawing]: the text layer (the font is loaded elsewhere) *)

Definition newDrawing (baseMap : Image) : RGBA :=
  let mapTextImage := NewRGBA (Bounds baseMap) in
  Draw mapTextImage (Rect mapTextImage) Transparent {| X := 0; Y := 0 |} Src.

(** *** [loadOperators] *)

Definition loadOperator (gpsToPixel : gpsCoord -> result Point)
    (operators : gmap string operatorData) (record : list string)
    : result (gmap string operatorData) :=
  c0 ← index record 0;
  let callsign := Strings.ReplaceAll (Strings.ToUpper c0) " " "" in
  c1 ← index record 1;
  lat ← orFatal "Can't parse latitude in operator CSV" (ParseFloat c1);
  c2 ← index record 2;
  long ← orFatal "Can't parse longitude in operator CSV" (ParseFloat c2);
  let gps := {| lat := lat; long := long |} in
  c3 ← index record 3;
  xmitPwr ← orFatal "Can't parse transmitter power in operator CSV" (ParseFloat c3);
  antType ← index record 4;
  c5 ← index record 5;
  antGain ← orFatal "Can't parse antenna gain in operator CSV" (ParseFloat c5);
  c6 ← index record 6;
  antHeight ← orFatal "Can't parse antenna height in operator CSV" (ParseFloat c6);
  pixel ← gpsToPixel gps;
  Ok (<[callsign := {| callsign := callsign; gps := gps; pixel := pixel; xmitPwr := xmitPwr;
                       antType := antType; antGain := antGain; antHeight := antHeight |}]> operators).

(** [loadOperators], given the records the CSV reader returns. *)
Definition loadOperators (gpsToPixel : gpsCoord -> result Point) (records : list (list string))
    : result (gmap string operatorData) :=
  forEach (loadOperator gpsToPixel) records ∅.

(** *** [loadReports] *)

(** The body of the read loop of [loadReports] for one CSV record. *)
Definition loadReport (acc : reportData) (record : list string) : result reportData :=
  tr ← (if RcvMapFlag cfg
        then c0 ← index record 0; c1 ← index record 1;
             Ok (Strings.ToUpper c0, Strings.ToUpper c1)
        else c1 ← index record 1; c0 ← index record 0;
             Ok (Strings.ToUpper c1, Strings.ToUpper c0));
  let '(transmitter, receiver) := tr in
  report ← index record 2;
  let inner := default ∅ (reports acc !! transmitter) in
  Ok {| reports := <[transmitter := <[receiver := report]> inner]> (reports acc);
        receivers := <[receiver := true]> (receivers acc);
        transmitters := <[transmitter := true]> (transmitters acc) |}.

(** [loadReports], given the records the CSV reader returns. *)
Definition loadReports (records : list (list string)) : result reportData :=
  forEach loadReport records noReports.

(** *** [plotIcon] *)

(** [contextPtr.DrawString(s, pt)]: the context draws into [textMap]. *)
Definition DrawString (s : string) (pt : Point) (w : world) : option world :=
  match DrawGlyphs (textMap w) s pt with
  | Some img =>
      Some {| outputMap := outputMap w; textMap := img; cursorX := cursorX w; cursorY := cursorY w;
              drawn := drawn w ++ [(s, pt)]; stdout := stdout w; files := files w |}
  | None => None
  end.

(** [icon] is an interface value: [None] is nil, and asking nil for
    its bounds is a run-time panic. *)
Definition plotIcon (icon : option Image) (operator : operatorData) (w : world) : result world :=
  if streq (callsign operator) ""
  then Ok (Println "Skipping icon for missing operator" w)
  else
    match icon with
    | None => Panic "invalid memory address or nil pointer dereference"
    | Some icon =>
        let offset :=
          {| X := int (X (pixel operator) - Z.quot (X (Max (Bounds icon))) 2);
             Y := int (Y (pixel operator) - Z.quot (Y (Max (Bounds icon))) 2) |} in
        let w := setOutputMap
                   (Draw (outputMap w) (RectAdd (Bounds icon) offset) icon {| X := 0; Y := 0 |} Over) w in
        let pt :=
          Pt (int (X (pixel operator)
                   + Z.quot (int (X (Max (Bounds icon)) + F64.to_int (FontSize cfg))) 2))
             (int (Y (pixel operator)
                   + F64.to_int (F64.add (F64.div (F64.div (F64.mul (FontSize cfg) (FontDPI cfg)) 72) 2)
                                         (1 # 2)))) in
        orFatal "Can't plot icon label" (DrawString (callsign operator) pt w)
    end.

(** *** [newDrawLegend] and the closure it returns *)

Definition newDrawLegend (w : world) : world :=
  let spacing := F64.mul (F64.mul (FontSize cfg) (FontLineSpacing cfg)) (FontDPI cfg) in
  setCursor
    (F64.to_int (F64.add (F64.mul (FontSize cfg) 5) (1 # 2)))
    (int (Y (Max (Rect (textMap w)))
          - F64.to_int (F64.add (F64.mul (F64.div spacing 72) 8) (1 # 2))))
    w.

Definition drawLegendItem (w : world) (legend : string) : result world :=
  w ← orFatal "Can't plot legend string" (DrawString legend (Pt (cursorX w) (cursorY w)) w);
  let spacing := F64.mul (F64.mul (FontSize cfg) (FontLineSpacing cfg)) (FontDPI cfg) in
  Ok (setCursor (cursorX w)
                (int (cursorY w + F64.to_int (F64.add (F64.div spacing 72) (1 # 2)))) w).

Definition drawLegend (legendItems : list string) (w : world) : result world :=
  forEach drawLegendItem legendItems w.

(** *** [plotLegend] *)

Definition plotLegend (transmitter : string) (opData : operatorData) (w : world) : result world :=
  w ← (if RcvMapFlag cfg
       then drawLegend ["Receive Map (who can I hear) for " +:+ transmitter] w
       else drawLegend ["Transmission Map (who can hear me) for " +:+ transmitter] w);
  w ← drawLegend ["Frequency: 146.535 MHz Simplex"] w;
  let pwr := xmitPwr opData in
  w ← (if F64.neq pwr (-100)
       then drawLegend ["Transmitter Power: " +:+ Sprintf_f 0 pwr +:+ " Watts"] w
       else Ok w);
  let ant := antType opData in
  w ← (if negb (streq ant "")
       then drawLegend ["Antenna Type: " +:+ ant] w
       else Ok w);
  let height := antHeight opData in
  w ← (if F64.neq height (-100)
       then drawLegend ["Antenna Height: " +:+ Sprintf_f 0 height +:+ " feet"] w
       else Ok w);
  let gain := antGain opData in
  if F64.neq gain (-100)
  then drawLegend ["Antenna Est. Gain: " +:+ Sprintf_f 1 gain +:+ " dBi"] w
  else Ok w.

(** *** [main]

    The steps of [main] are named after what they do; each is the part
    of [main] its comment quotes. *)

(** "If the user said they only want a subset of receivers, update the
    transmitter map to match them" *)
Definition selectTransmitters (transmitters : gmap string bool) : gmap string bool :=
  if negb (streq (CallSigns cfg) "ALL")
  then
    let calls := Strings.Split (Strings.ReplaceAll (Strings.ToUpper (CallSigns cfg)) " " "") "," in
    foldl (fun newTransmitters call =>
             if member transmitters call
             then <[call := true]> newTransmitters
             else newTransmitters)
          ∅ calls
  else transmitters.

(** "Reset the map and legends to their base images" *)
Definition resetMaps (baseMap : Image) (w : world) : world :=
  let w := setOutputMap (Draw (outputMap w) (Bounds baseMap) baseMap {| X := 0; Y := 0 |} Src) w in
  let w := setTextMap (Draw (textMap w) (Rect (textMap w)) Transparent {| X := 0; Y := 0 |} Src) w in
  newDrawLegend w.

(** "Add icons and call signs for each receiver": the body of the loop *)
Definition plotReceiver (icons : gmap string Image) (operators : gmap string operatorData)
    (reports : gmap string (gmap string string)) (transmitter : string)
    (w : world) (receiver : string) : result world :=
  if streq transmitter receiver
  then Ok w
  else
    let report := lookup2 reports transmitter receiver in
    let icon := icons !! report in
    let present := bool_decide (is_Some icon) in
    if streq report "" || negb present
    then Ok w
    else plotIcon icon (operatorOf operators receiver) w.

(** "Merge the text layer onto the main map" *)
Definition mergeText (w : world) : world :=
  setOutputMap (Draw (outputMap w) (Rect (textMap w)) (asImage (textMap w)) {| X := 0; Y := 0 |} Over) w.

Definition outputFile (transmitter : string) : string :=
  if RcvMapFlag cfg
  then OutputDirectory cfg +:+ "/" +:+ transmitter +:+ "-rcvr-map" +:+ ".png"
  else OutputDirectory cfg +:+ "/" +:+ transmitter +:+ "-xmit-map" +:+ ".png".

(** "Finish up: save the map into a png file" *)
Definition saveMap (transmitter : string) (w : world) : result world :=
  if Create (outputFile transmitter)
  then Ok (writeFile (outputFile transmitter) (outputMap w) w)
  else Fatal "Failed to create".

(** The body of the loop "Create maps for each transmitter" *)
Definition generateMap (icons : gmap string Image) (baseMap : Image)
    (operators : gmap string operatorData) (rd : reportData)
    (w : world) (transmitter : string) : result world :=
  let w := resetMaps baseMap w in
  w ← forEach (plotReceiver icons operators (reports rd) transmitter)
              (receiverOrder transmitter (receivers rd)) w;
  w ← plotIcon (icons !! TransIcon cfg) (operatorOf operators transmitter) w;
  w ← plotLegend transmitter (operatorOf operators transmitter) w;
  let w := mergeText w in
  saveMap transmitter w.

(** [main], given the icons and the base map that [loadIcons] and
    [loadBaseMap] decoded and the records of the two CSV files. *)
Definition main (icons : gmap string Image) (baseMap : Image)
    (operatorRecords reportRecords : list (list string)) : result world :=
  gpsToPixel ← newGpsToPixel baseMap;
  let mapTextImage := newDrawing baseMap in
  operators ← loadOperators gpsToPixel operatorRecords;
  rd ← loadReports reportRecords;
  let rd := {| reports := reports rd; receivers := receivers rd;
               transmitters := selectTransmitters (transmitters rd) |} in
  let w := {| outputMap := NewRGBA (Bounds baseMap); textMap := mapTextImage;
              cursorX := 0; cursorY := 0; drawn := [];
              stdout := ["Beginning map generation..."]; files := [] |} in
  w ← forEach (generateMap icons baseMap operators rd) (transmitterOrder (transmitters rd)) w;
  Ok (Println "
Map generation completed!" w).

End Program.

(** ** Well-formed images

    The layout that [image.NewRGBA(r)] gives an image, and a color whose
    channels are 16 bits wide, as [Color.RGBA()] promises. *)

Definition shapedBy (r : Rectangle) (img : RGBA) : Prop :=
  Rect img = r /\ Stride img = (4 * Dx r)%Z /\ length (Pix img) = Z.to_nat (4 * Dx r * Dy r).

Definition validColor (c : Color) : Prop :=
  (0 <= cR c <= 65535 /\ 0 <= cG c <= 65535 /\ 0 <= cB c <= 65535 /\ 0 <= cA c <= 65535)%Z.

(** ** The receivers of a map, in the words of the specification

    The entry of the report matrix for a pair, and the test of the loop
    over the receivers for a pair that is drawn: the receiver is not the
    transmitter, a category is reported (the empty category is what an
    absent entry reads as), and the icon catalog has that category. *)

Definition reportOf (reports : gmap string (gmap string string)) (t r : string) : option string :=
  reports !! t ≫= (fun m => m !! r).

Definition plotted (icons : gmap string Image) (reports : gmap string (gmap string string))
    (t r : string) : bool :=
  negb (streq t r)
  && negb (streq (lookup2 reports t r) "")
  && bool_decide (is_Some (icons !! lookup2 reports t r)).

(** ** A small run

    Concrete stand-ins for what lies outside the program, and small
    inputs, on which the definitions above are evaluated. *)

Module Sample.

(** A flat projection in the place of [UTM.FromLatLon]: metres east and
    north of the origin, in proportion to the degrees. *)
Definition flatUTM (lat long : Q) (northern : bool) : option (Q * Q * Z * string) :=
  Some (F64.mul long 88000, F64.mul lat 111000, 10%Z, "S").

Fixpoint digitsValue (acc : Z) (s : string) : option Z :=
  match s with
  | EmptyString => Some acc
  | String c s' =>
      let n := Z.of_nat (nat_of_ascii c) in
      if (48 <=? n)%Z && (n <=? 57)%Z then digitsValue (10 * acc + (n - 48)) s' else None
  end.

(** [strconv.ParseFloat] on whole numbers with an optional minus sign. *)
Definition parseWhole (s : string) : option Q :=
  match s with
  | EmptyString => None
  | String "-" s' => option_map (fun n => inject_Z (- n)) (digitsValue 0 s')
  | _ => option_map inject_Z (digitsValue 0 s)
  end.

(** A font without ink: drawing a string succeeds and leaves no mark. *)
Definition blankFont (dst : RGBA) (s : string) (pt : Point) : option RGBA := Some dst.

Definition anyFile (name : string) : bool := true.

(** The keys of a map in the order of [map_to_list]. *)
Definition keys (m : gmap string bool) : list string := (map_to_list m).*1.

Definition settings (receive : bool) (calls : string) : config :=
  {| OutputDirectory := "output"; CallSigns := calls; RcvMapFlag := receive; TransIcon := "Trans";
     MapNWCorner := [2; 0]%Q; MapSECorner := [0; 2]%Q;
     FontDPI := 168; FontSize := 8; FontLineSpacing := 3 # 2 |}.

Definition solid (w h : Z) (c : Color) : Image :=
  {| Bounds := {| Min := {| X := 0; Y := 0 |}; Max := {| X := w; Y := h |} |};
     At := fun _ _ => c |}.

Definition grey : Color := {| cR := 32896; cG := 32896; cB := 32896; cA := 65535 |}.
Definition red : Color := {| cR := 65535; cG := 0; cB := 0; cA := 65535 |}.

Definition baseMap : Image := solid 4 4 grey.

Definition icons : gmap string Image := <["Trans" := solid 1 1 red]> (<["good" := solid 1 1 red]> ∅).

(** An icon directory that lacks the transmitter icon. *)
Definition iconsNoTrans : gmap string Image := <["good" := solid 1 1 red]> ∅.

(** An icon directory that lacks the reported category. *)
Definition iconsNoGood : gmap string Image := <["Trans" := solid 1 1 red]> ∅.

(** The world as [main] sets it up before its loop. *)
Definition blank : world :=
  {| outputMap := NewRGBA (Bounds baseMap); textMap := newDrawing baseMap;
     cursorX := 0; cursorY := 0; drawn := []; stdout := []; files := [] |}.

(** An operator whose antenna gain is not known. *)
Definition alfa : operatorData :=
  {| callsign := "ALFA"; gps := {| lat := 1; long := 1 |}; pixel := {| X := 2; Y := 2 |};
     xmitPwr := 5; antType := "Yagi"; antGain := -100; antHeight := 30 |}.

Definition operatorRecords : list (list string) :=
  [ ["alfa"; "1"; "1"; "5"; "Yagi"; "-100"; "30"];
    ["bravo"; "1"; "2"; "-100"; ""; "3"; "-100"] ].

Definition reportRecords : list (list string) := [ ["alfa"; "bravo"; "good"] ].

Definition run (cfg : config) (icons : gmap string Image)
    (operatorRecords reportRecords : list (list string)) : result world :=
  main flatUTM parseWhole blankFont anyFile keys (fun _ => keys) cfg
       icons baseMap operatorRecords reportRecords.

End Sample.

(** * More of the program *)

(** ** Invariants of the loaders *)

(** The three maps of [loadReports] agree: a report is filed only between
    a known transmitter and a known receiver, and every transmitter and
    every receiver has a report. *)
Definition consistent (rd : reportData) : Prop :=
  (forall t r c, reportOf (reports rd) t r = Some c ->
                 member (receivers rd) r = true /\ member (transmitters rd) t = true) /\
  (forall t, member (transmitters rd) t = true -> exists r c, reportOf (reports rd) t r = Some c) /\
  (forall r, member (receivers rd) r = true -> exists t c, reportOf (reports rd) t r = Some c).


(** What the loop of [loadReports] does with a report [report] of
    [receiver] on [transmitter]: its three assignments. *)
Definition fileReport (transmitter receiver report : string) (rd : reportData) : reportData :=
  {| reports := <[transmitter := <[receiver := report]> (default ∅ (reports rd !! transmitter))]>
                  (reports rd);
     receivers := <[receiver := true]> (receivers rd);
     transmitters := <[transmitter := true]> (transmitters rd) |}.

(** Two results of [loadReports] with the roles of transmitter and
    receiver exchanged. *)
Definition transposed (a b : reportData) : Prop :=
  receivers a = transmitters b /\ transmitters a = receivers b /\
  forall t r, reportOf (reports a) t r = reportOf (reports b) r t.

(** ** The call-sign filter of the later draft

    The same step of [main] in the draft that carries the license header:
    it also prints a notice for each call sign asked for that has no
    reports.  The result is the new transmitter map and the lines printed
    ([fmt.Printf] with a final newline: one line each). *)
Definition selectTransmittersNotice (cfg : config) (transmitters : gmap string bool)
    : gmap string bool * list string :=
  if negb (streq (CallSigns cfg) "ALL")
  then
    let calls := Strings.Split (Strings.ReplaceAll (Strings.ToUpper (CallSigns cfg)) " " "") "," in
    foldl (fun (acc : gmap string bool * list string) call =>
             if member transmitters call
             then (<[call := true]> (fst acc), snd acc)
             else (fst acc, (snd acc ++ ["Skipping " +:+ call +:+ ": no reports"])%list))
          (∅, []) calls
  else (transmitters, []).

(** ** The text of a map

    The strings of a legend in the order [plotLegend] draws them, and the
    labels of the receivers of a map in the order of the loop: the call
    signs of the receivers that pass the test of the loop and are known
    operators. *)

Definition legendLines (cfg : config) (transmitter : string) (opData : operatorData) : list string :=
  ([(if RcvMapFlag cfg
     then "Receive Map (who can I hear) for "
     else "Transmission Map (who can hear me) for ") +:+ transmitter;
    "Frequency: 146.535 MHz Simplex"]
   ++ (if Qeq_dec (xmitPwr opData) (-100) then []
       else ["Transmitter Power: " +:+ Sprintf_f 0 (xmitPwr opData) +:+ " Watts"])
   ++ (if decide (antType opData = "") then []
       else ["Antenna Type: " +:+ antType opData])
   ++ (if Qeq_dec (antHeight opData) (-100) then []
       else ["Antenna Height: " +:+ Sprintf_f 0 (antHeight opData) +:+ " feet"])
   ++ (if Qeq_dec (antGain opData) (-100) then []
       else ["Antenna Est. Gain: " +:+ Sprintf_f 1 (antGain opData) +:+ " dBi"]))%list.

Definition receiverLabels (icons : gmap string Image) (operators : gmap string operatorData)
    (reports : gmap string (gmap string string)) (transmitter : string) (keys : list string)
    : list string :=
  List.map (fun receiver => callsign (operatorOf operators receiver))
    (List.filter
       (fun receiver => plotted icons reports transmitter receiver
                        && negb (streq (callsign (operatorOf operators receiver)) ""))
       keys).

(** A [range] over a map visits each of its keys once. *)
Definition visitsKeys (order : gmap string bool -> list string) : Prop :=
  forall m, NoDup (order m) /\ forall k, k ∈ order m <-> is_Some (m !! k).

(** Two states of the program with the same two layers and the same
    legend cursor: they may differ in what was printed, drawn and written
    before. *)
Definition sameCanvas (w w' : world) : Prop :=
  outputMap w = outputMap w' /\ textMap w = textMap w' /\
  cursorX w = cursorX w' /\ cursorY w = cursorY w'.

(** The height of a line of the legend in pixels, as the closure that
    [newDrawLegend] returns computes it for each line. *)
Definition lineHeight (cfg : config) : Z :=
  F64.to_int (F64.add (F64.div (F64.mul (F64.mul (FontSize cfg) (FontLineSpacing cfg)) (FontDPI cfg)) 72)
                      (1 # 2)).

(** ** [strings.HasSuffix] and [strings.TrimSuffix] *)

Definition HasSuffix (s suffix : string) : bool :=
  (Stdlib.Strings.String.length suffix <=? Stdlib.Strings.String.length s)%nat
  && streq (substring (Stdlib.Strings.String.length s - Stdlib.Strings.String.length suffix)
                      (Stdlib.Strings.String.length suffix) s)
           suffix.

Definition TrimSuffix (s suffix : string) : string :=
  if HasSuffix s suffix
  then substring 0 (Stdlib.Strings.String.length s - Stdlib.Strings.String.length suffix) s
  else s.

(** ** [loadIcons]

    [ReadDir] gives the names of the entries of a directory, [Open] the
    file of a path and [Decode] the picture of a file, each [None] where
    the call of the source returns an error; [Resize w h icon] is
    [resize.Resize(w, h, icon, resize.Bilinear)] and [IconSize] the field
    [cfg.IconSize]. *)

Section Assets.

Variable File : Type.
Variable ReadDir : string -> option (list string).
Variable Open : string -> option File.
Variable Decode : File -> option Image.
Variable Resize : Z -> Z -> Image -> Image.
Variable IconSize : Z.

(** The body of the loop of [loadIcons] for one entry of the directory. *)
Definition loadIcon (dir : string) (icons : gmap string Image) (name : string)
    : result (gmap string Image) :=
  r ← orFatal ("Can't open " +:+ name) (Open (dir +:+ "/" +:+ name));
  icon ← orFatal ("Can't decode " +:+ name) (Decode r);
  let iconName := TrimSuffix name ".png" in
  Ok (<[iconName := Resize IconSize 0%Z icon]> icons).

Definition loadIcons (dir : string) : result (gmap string Image) :=
  fileInfos ← orFatal "Can't read directory" (ReadDir dir);
  forEach (loadIcon dir) fileInfos ∅.

End Assets.

(** * Properties *)

Local Open Scope list_scope.

(** ** Rounding *)

Module F64Facts.
Import F64.
Local Open Scope Q_scope.

Lemma pow2_pos k : 0 < pow2 k.
Proof. apply Qpower_0_lt. reflexivity. Qed.

Lemma pow2_add a b : pow2 (a + b) == pow2 a * pow2 b.
Proof. apply Qpower_plus. discriminate. Qed.

Lemma pow2_succ a : pow2 (a + 1) == 2 * pow2 a.
Proof. rewrite pow2_add. unfold pow2 at 2. simpl. ring. Qed.

Lemma pow2_le a b : (a <= b)%Z -> pow2 a <= pow2 b.
Proof. intros H. apply Qpower_le_compat_l; [exact H | discriminate]. Qed.

Lemma pow2_lt a b : (a < b)%Z -> pow2 a < pow2 b.
Proof. intros H. apply Qpower_lt_compat_l; [exact H | reflexivity]. Qed.

Lemma pow2_lt_inv a b : pow2 a < pow2 b -> (a < b)%Z.
Proof.
  intros H. destruct (Z_lt_le_dec a b) as [|Hle]; [assumption|].
  apply pow2_le in Hle. lra.
Qed.

Lemma pow2_Z a : (0 <= a)%Z -> pow2 a == inject_Z (2 ^ a).
Proof. intros H. unfold pow2. rewrite Zpower_Qpower by exact H. reflexivity. Qed.

Lemma Q_as_fraction (q : Q) : q * inject_Z (Zpos (Qden q)) == inject_Z (Qnum q).
Proof.
  destruct q as [n d]. unfold Qeq, Qmult, inject_Z. simpl. nia.
Qed.

Lemma log2_bounds (n : Z) :
  (0 < n)%Z -> pow2 (Z.log2 n) <= inject_Z n /\ inject_Z n < 2 * pow2 (Z.log2 n).
Proof.
  intros Hn. destruct (Z.log2_spec n Hn) as [H1 H2].
  pose proof (Z.log2_nonneg n) as H0.
  rewrite <- pow2_succ, !pow2_Z by lia.
  rewrite <- Zle_Qle, <- Zlt_Qlt. split; [exact H1 | exact H2].
Qed.

Lemma binade_rough (q : Q) :
  0 < q ->
  let e0 := (Z.log2 (Qnum q) - Z.log2 (Zpos (Qden q)))%Z in
  pow2 (e0 - 1) < q /\ q < pow2 (e0 + 1).
Proof.
  intros Hq e0.
  assert (Hn : (0 < Qnum q)%Z) by (destruct q as [n d]; unfold Qlt in Hq; simpl in *; lia).
  destruct (log2_bounds (Qnum q) Hn) as [Ha1 Ha2].
  destruct (log2_bounds (Zpos (Qden q)) eq_refl) as [Hb1 Hb2].
  pose proof (Q_as_fraction q) as Hf.
  set (A := pow2 (Z.log2 (Qnum q))) in *.
  set (B := pow2 (Z.log2 (Zpos (Qden q)))) in *.
  assert (HA : 0 < A) by apply pow2_pos.
  assert (HB : 0 < B) by apply pow2_pos.
  assert (E1 : pow2 (e0 - 1) * (2 * B) == A).
  { pose proof (pow2_add (e0 - 1) (Z.log2 (Zpos (Qden q)) + 1)) as E.
    rewrite pow2_succ in E. fold B in E.
    replace (e0 - 1 + (Z.log2 (Zpos (Qden q)) + 1))%Z with (Z.log2 (Qnum q)) in E by (subst e0; lia).
    fold A in E. rewrite E. reflexivity. }
  assert (E2 : pow2 (e0 + 1) * B == 2 * A).
  { pose proof (pow2_add (e0 + 1) (Z.log2 (Zpos (Qden q)))) as E.
    fold B in E.
    replace (e0 + 1 + Z.log2 (Zpos (Qden q)))%Z with (Z.log2 (Qnum q) + 1)%Z in E by (subst e0; lia).
    rewrite pow2_succ in E. fold A in E. rewrite E. reflexivity. }
  set (D := inject_Z (Zpos (Qden q))) in *.
  set (N := inject_Z (Qnum q)) in *.
  set (P1 := pow2 (e0 - 1)) in *. set (P2 := pow2 (e0 + 1)) in *.
  split.
  - apply Qnot_le_lt. intros Hc.
    assert (q * D <= P1 * (2 * B)) by nra. nra.
  - apply Qnot_le_lt. intros Hc.
    assert (P2 * B <= q * D) by nra. nra.
Qed.

Lemma binade_spec (q : Q) :
  0 < q -> pow2 (binade q) <= q /\ q < pow2 (binade q + 1).
Proof.
  intros Hq. destruct (binade_rough q Hq) as [H1 H2]. unfold binade.
  set (e0 := (Z.log2 (Qnum q) - Z.log2 (Zpos (Qden q)))%Z) in *.
  destruct (Qle_bool (pow2 e0) q) eqn:E.
  - apply Qle_bool_iff in E. split; assumption.
  - split; [apply Qlt_le_weak; exact H1|].
    replace (e0 - 1 + 1)%Z with e0 by lia.
    apply Qnot_le_lt. intros Hc. apply Qle_bool_iff in Hc. congruence.
Qed.

Lemma binade_unique (q : Q) (e : Z) :
  pow2 e <= q -> q < pow2 (e + 1) -> binade q = e.
Proof.
  intros H1 H2.
  assert (Hq : 0 < q) by (pose proof (pow2_pos e); lra).
  destruct (binade_spec q Hq) as [B1 B2].
  assert (e < binade q + 1)%Z by (apply pow2_lt_inv; lra).
  assert (binade q < e + 1)%Z by (apply pow2_lt_inv; lra).
  lia.
Qed.

Lemma binade_comp (q q' : Q) : 0 < q -> q == q' -> binade q = binade q'.
Proof.
  intros Hq E. symmetry. destruct (binade_spec q Hq).
  apply binade_unique; rewrite <- E; assumption.
Qed.

Lemma binade_mono (q q' : Q) : 0 < q -> q <= q' -> (binade q <= binade q')%Z.
Proof.
  intros Hq Hle.
  destruct (binade_spec q Hq) as [A1 A2].
  destruct (binade_spec q') as [B1 B2]; [lra|].
  assert (binade q < binade q' + 1)%Z by (apply pow2_lt_inv; lra). lia.
Qed.

Lemma RNE_cases (x : Q) :
  let f := Qfloor x in
  (x - inject_Z f < 1 # 2 /\ RNE x = f) \/
  (1 # 2 < x - inject_Z f /\ RNE x = (f + 1)%Z) \/
  (x - inject_Z f == 1 # 2 /\ (RNE x = f \/ RNE x = (f + 1)%Z)).
Proof.
  intros f. unfold RNE. fold f.
  destruct (Qcompare_spec (x - inject_Z f) (1 # 2)) as [E|E|E].
  - right. right. split; [exact E|]. destruct (Z.even f); auto.
  - left. auto.
  - right. left. auto.
Qed.

Lemma floor_bounds (x : Q) : inject_Z (Qfloor x) <= x /\ x < inject_Z (Qfloor x) + 1.
Proof.
  split; [apply Qfloor_le|].
  pose proof (Qlt_floor x) as H. rewrite inject_Z_plus in H. exact H.
Qed.

Lemma RNE_err (x : Q) : Qabs (inject_Z (RNE x) - x) <= 1 # 2.
Proof.
  destruct (floor_bounds x) as [F1 F2].
  apply Qabs_Qle_condition.
  destruct (RNE_cases x) as [[H E]|[[H E]|[H [E|E]]]]; rewrite E;
    rewrite ?inject_Z_plus; change (inject_Z 1) with 1; split; lra.
Qed.

Lemma RNE_comp (x y : Q) : x == y -> RNE x = RNE y.
Proof.
  intros E. unfold RNE. rewrite (Qfloor_comp _ _ E).
  assert (E' : x - inject_Z (Qfloor y) == y - inject_Z (Qfloor y)) by (rewrite E; reflexivity).
  rewrite (Qcompare_comp _ _ E' _ _ (Qeq_refl (1 # 2))). reflexivity.
Qed.

Lemma RNE_Z (n : Z) : RNE (inject_Z n) = n.
Proof.
  unfold RNE. rewrite Qfloor_Z.
  assert (E : inject_Z n - inject_Z n == 0) by ring.
  rewrite (Qcompare_comp _ _ E _ _ (Qeq_refl (1 # 2))). reflexivity.
Qed.

Lemma RNE_mono (x y : Q) : x <= y -> (RNE x <= RNE y)%Z.
Proof.
  intros Hxy.
  pose proof (Qfloor_resp_le _ _ Hxy) as Hf.
  destruct (floor_bounds x) as [X1 X2]. destruct (floor_bounds y) as [Y1 Y2].
  destruct (Z.eq_dec (Qfloor x) (Qfloor y)) as [Ef|Nf].
  - unfold RNE. rewrite <- Ef.
    destruct (Qcompare_spec (x - inject_Z (Qfloor x)) (1 # 2)) as [E|E|E];
    destruct (Qcompare_spec (y - inject_Z (Qfloor x)) (1 # 2)) as [E'|E'|E'];
      try lia; try lra; destruct (Z.even (Qfloor x)); lia.
  - assert (RNE x <= Qfloor x + 1)%Z
      by (destruct (RNE_cases x) as [[_ E]|[[_ E]|[_ [E|E]]]]; rewrite E; lia).
    assert (Qfloor y <= RNE y)%Z
      by (destruct (RNE_cases y) as [[_ E]|[[_ E]|[_ [E|E]]]]; rewrite E; lia).
    lia.
Qed.

(** The scaled significand of a positive rational lies in [2^52, 2^53). *)
Lemma significand_bounds (q : Q) :
  0 < q ->
  let x := q / pow2 (binade q - 52) in
  pow2 52 <= x /\ x < pow2 53.
Proof.
  intros Hq x. destruct (binade_spec q Hq) as [B1 B2].
  pose proof (pow2_pos (binade q - 52)) as Hk.
  assert (E1 : pow2 (binade q) == pow2 52 * pow2 (binade q - 52))
    by (rewrite <- pow2_add; replace (52 + (binade q - 52))%Z with (binade q) by lia; reflexivity).
  assert (E2 : pow2 (binade q + 1) == pow2 53 * pow2 (binade q - 52))
    by (rewrite <- pow2_add; replace (53 + (binade q - 52))%Z with (binade q + 1)%Z by lia; reflexivity).
  assert (Ex : x * pow2 (binade q - 52) == q) by (subst x; field; lra).
  set (K := pow2 (binade q - 52)) in *.
  split; apply Qnot_lt_le || apply Qnot_le_lt; intros Hc; nra.
Qed.

Lemma pow2_52 : pow2 52 == inject_Z (2 ^ 52).
Proof. reflexivity. Qed.
Lemma pow2_53 : pow2 53 == inject_Z (2 ^ 53).
Proof. reflexivity. Qed.

Lemma RNE_significand (q : Q) :
  0 < q ->
  (2 ^ 52 <= RNE (q / pow2 (binade q - 52)) <= 2 ^ 53)%Z.
Proof.
  intros Hq. destruct (significand_bounds q Hq) as [S1 S2].
  split.
  - rewrite <- (RNE_Z (2 ^ 52)). apply RNE_mono. rewrite <- pow2_52. exact S1.
  - rewrite <- (RNE_Z (2 ^ 53)). apply RNE_mono. rewrite <- pow2_53. lra.
Qed.

Lemma round_pos_comp (q q' : Q) : 0 < q -> q == q' -> round_pos q == round_pos q'.
Proof.
  intros Hq E. unfold round_pos. rewrite <- (binade_comp q q' Hq E).
  rewrite (RNE_comp (q / pow2 (binade q - 52)) (q' / pow2 (binade q - 52))); [reflexivity|].
  apply Qdiv_comp; [exact E | reflexivity].
Qed.

Lemma round_pos_bounds (q : Q) :
  0 < q -> pow2 (binade q) <= round_pos q /\ round_pos q <= pow2 (binade q + 1).
Proof.
  intros Hq. destruct (RNE_significand q Hq) as [R1 R2]. unfold round_pos.
  pose proof (pow2_pos (binade q - 52)) as Hk.
  assert (E1 : pow2 (binade q) == pow2 52 * pow2 (binade q - 52))
    by (rewrite <- pow2_add; replace (52 + (binade q - 52))%Z with (binade q) by lia; reflexivity).
  assert (E2 : pow2 (binade q + 1) == pow2 53 * pow2 (binade q - 52))
    by (rewrite <- pow2_add; replace (53 + (binade q - 52))%Z with (binade q + 1)%Z by lia; reflexivity).
  rewrite E1, E2, pow2_52, pow2_53.
  rewrite Zle_Qle in R1, R2.
  split; apply Qmult_le_compat_r; lra.
Qed.

Lemma round_pos_pos (q : Q) : 0 < q -> 0 < round_pos q.
Proof.
  intros Hq. destruct (round_pos_bounds q Hq) as [H _].
  pose proof (pow2_pos (binade q)). lra.
Qed.

Lemma round_pos_mono (q q' : Q) : 0 < q -> q <= q' -> round_pos q <= round_pos q'.
Proof.
  intros Hq Hle. assert (Hq' : 0 < q') by lra.
  pose proof (binade_mono q q' Hq Hle) as Hb.
  destruct (Z.eq_dec (binade q) (binade q')) as [E|N].
  - unfold round_pos. rewrite <- E.
    pose proof (pow2_pos (binade q - 52)) as Hk.
    apply Qmult_le_compat_r; [|lra].
    rewrite <- Zle_Qle. apply RNE_mono.
    apply Qmult_le_compat_r; [exact Hle|].
    apply Qlt_le_weak, Qinv_lt_0_compat, Hk.
  - destruct (round_pos_bounds q Hq) as [_ U]. destruct (round_pos_bounds q' Hq') as [L _].
    assert (pow2 (binade q + 1) <= pow2 (binade q')) by (apply pow2_le; lia). lra.
Qed.

(** Relative error of rounding: half a unit in the last place. *)
Lemma round_pos_err (q : Q) : 0 < q -> Qabs (round_pos q - q) <= pow2 (-53) * q.
Proof.
  intros Hq. unfold round_pos.
  destruct (binade_spec q Hq) as [B1 _].
  pose proof (pow2_pos (binade q - 52)) as Hk.
  pose proof (RNE_err (q / pow2 (binade q - 52))) as He.
  apply Qabs_Qle_condition in He. destruct He as [He1 He2].
  assert (Ex : q / pow2 (binade q - 52) * pow2 (binade q - 52) == q) by (field; lra).
  assert (E1 : pow2 (binade q) * pow2 (-53) == (1 # 2) * pow2 (binade q - 52)).
  { rewrite <- pow2_add. replace (binade q + -53)%Z with (-1 + (binade q - 52))%Z by lia.
    rewrite pow2_add. reflexivity. }
  set (K := pow2 (binade q - 52)) in *. set (x := q / K) in *.
  set (m := inject_Z (RNE x)) in *. set (P := pow2 (binade q)) in *.
  set (u := pow2 (-53)) in *.
  assert (Hu : 0 < u) by apply pow2_pos.
  apply Qabs_Qle_condition. split; nra.
Qed.

Lemma round_comp (q q' : Q) : q == q' -> round q == round q'.
Proof.
  intros E. unfold round.
  rewrite <- (Qcompare_comp _ _ E _ _ (Qeq_refl 0)).
  destruct (Qcompare_spec q 0) as [H|H|H]; [reflexivity| |].
  - apply Qopp_comp, round_pos_comp; [lra | rewrite E; reflexivity].
  - apply round_pos_comp; assumption.
Qed.

Lemma round_0 : round 0 == 0.
Proof. reflexivity. Qed.

Lemma round_sign (q : Q) : (0 <= q -> 0 <= round q) /\ (q <= 0 -> round q <= 0).
Proof.
  unfold round. destruct (Qcompare_spec q 0) as [H|H|H].
  - split; intros _; apply Qle_refl.
  - pose proof (round_pos_pos (- q)). split; intros; lra.
  - pose proof (round_pos_pos q H). split; intros; lra.
Qed.

Lemma round_mono (q q' : Q) : q <= q' -> round q <= round q'.
Proof.
  intros Hle.
  destruct (Qlt_le_dec 0 q) as [Hq|Hq].
  - unfold round.
    destruct (Qcompare_spec q 0) as [H|H|H]; try lra.
    destruct (Qcompare_spec q' 0) as [H'|H'|H']; try lra.
    apply round_pos_mono; assumption.
  - destruct (Qlt_le_dec q' 0) as [Hq'|Hq'].
    + unfold round.
      destruct (Qcompare_spec q 0) as [H|H|H]; try lra.
      destruct (Qcompare_spec q' 0) as [H'|H'|H']; try lra.
      apply Qopp_le_compat. apply round_pos_mono; lra.
    + destruct (round_sign q) as [_ A]. destruct (round_sign q') as [B _].
      specialize (A Hq). specialize (B Hq'). lra.
Qed.

Lemma round_err (q : Q) : Qabs (round q - q) <= pow2 (-53) * Qabs q.
Proof.
  unfold round. destruct (Qcompare_spec q 0) as [H|H|H].
  - rewrite H. vm_compute. discriminate.
  - assert (Hq : 0 < - q) by lra.
    pose proof (round_pos_err (- q) Hq) as He.
    rewrite (Qabs_neg q) by lra.
    assert (E : - round_pos (- q) - q == - (round_pos (- q) - - q)) by ring.
    rewrite E, Qabs_opp. exact He.
  - rewrite (Qabs_pos q) by lra. apply round_pos_err, H.
Qed.

(** Rounding of a non-negative value, as a two-sided bound. *)
Lemma round_rel (q : Q) : 0 <= q -> (1 - u53) * q <= round q /\ round q <= (1 + u53) * q.
Proof.
  intros Hq. pose proof (round_err q) as H. rewrite (Qabs_pos q) in H by exact Hq.
  apply Qabs_Qle_condition in H. fold u53 in H. destruct H. split; lra.
Qed.

Lemma round_pos_lt (q : Q) : 0 < q -> 0 < round q.
Proof.
  intros Hq. destruct (round_rel q) as [H _]; [lra|].
  assert (0 < (1 - u53) * q); [|lra].
  apply Qmult_lt_0_compat; [reflexivity | exact Hq].
Qed.

Lemma to_int_comp (x y : Q) : x == y -> to_int x = to_int y.
Proof.
  intros E. unfold to_int.
  assert (Eb : Qle_bool 0 x = Qle_bool 0 y).
  { destruct (Qle_bool 0 x) eqn:Hx, (Qle_bool 0 y) eqn:Hy; try reflexivity.
    - apply Qle_bool_iff in Hx. rewrite E in Hx. apply Qle_bool_iff in Hx. congruence.
    - apply Qle_bool_iff in Hy. rewrite <- E in Hy. apply Qle_bool_iff in Hy. congruence. }
  rewrite Eb. unfold Qceiling. rewrite (Qfloor_comp _ _ E).
  assert (E' : - x == - y) by (rewrite E; reflexivity).
  rewrite (Qfloor_comp _ _ E'). reflexivity.
Qed.

Lemma to_int_between (x : Q) (n : Z) :
  (0 <= n)%Z -> inject_Z n <= x -> x < inject_Z n + 1 -> to_int x = n.
Proof.
  intros Hn H1 H2. unfold to_int.
  assert (H0 : 0 <= x) by (rewrite Zle_Qle in Hn; change (inject_Z 0) with 0 in Hn; lra).
  apply Qle_bool_iff in H0. rewrite H0.
  destruct (floor_bounds x) as [F1 F2].
  assert (n < Qfloor x + 1)%Z.
  { rewrite Zlt_Qlt, inject_Z_plus. change (inject_Z 1) with 1. lra. }
  assert (Qfloor x < n + 1)%Z.
  { rewrite Zlt_Qlt, inject_Z_plus. change (inject_Z 1) with 1. lra. }
  lia.
Qed.

Lemma to_int_mono (x y : Q) : x <= y -> (to_int x <= to_int y)%Z.
Proof.
  intros Hxy. unfold to_int.
  destruct (Qle_bool 0 x) eqn:Hx, (Qle_bool 0 y) eqn:Hy.
  - apply Qfloor_resp_le, Hxy.
  - apply Qle_bool_iff in Hx.
    assert (~ 0 <= y) by (intros Hc; apply Qle_bool_iff in Hc; congruence). lra.
  - apply Qle_bool_iff in Hy.
    assert (Hn : ~ 0 <= x) by (intros Hc; apply Qle_bool_iff in Hc; congruence).
    assert (Qceiling x <= 0)%Z.
    { change 0%Z with (Qceiling 0). apply Qceiling_resp_le. lra. }
    assert (0 <= Qfloor y)%Z.
    { change 0%Z with (Qfloor 0). apply Qfloor_resp_le. exact Hy. }
    lia.
  - apply Qceiling_resp_le, Hxy.
Qed.

(** Dividing a positive [a] by its own quotient by [w] gives [w] back, up
    to three roundings. *)
Lemma div_div_bounds (a w : Q) :
  0 < a -> 0 < w ->
  (1 - 3 * u53) * w <= div a (div a w) /\ div a (div a w) <= (1 + 3 * u53) * w.
Proof.
  intros Ha Hw. unfold div.
  assert (Ht : 0 < a / w) by (apply Qlt_shift_div_l; lra).
  destruct (round_rel (a / w)) as [X1 X2]; [lra|].
  pose proof (round_pos_lt (a / w) Ht) as Hx.
  set (x := round (a / w)) in *.
  assert (Hy : 0 < a / x) by (apply Qlt_shift_div_l; lra).
  destruct (round_rel (a / x)) as [Q1 Q2]; [lra|].
  assert (Et : a / w * w == a) by (field; lra).
  assert (Ey : a / x * x == a) by (field; lra).
  set (t := a / w) in *. set (y := a / x) in *. set (q := round y) in *.
  assert (Hu : 0 < u53) by apply pow2_pos.
  assert (Hu' : u53 <= 1 # 1000) by (vm_compute; discriminate).
  (* y (1 - u) <= w and w <= y (1 + u) *)
  assert (Y1 : w <= (1 + u53) * y).
  { apply Qnot_lt_le. intros Hc. 
    assert (t * ((1 + u53) * y) < t * w) by (apply Qmult_lt_l; assumption).
    nra. }
  assert (Y2 : (1 - u53) * y <= w).
  { apply Qnot_lt_le. intros Hc.
    assert (t * w < t * ((1 - u53) * y)) by (apply Qmult_lt_l; assumption).
    nra. }
  split.
  - (* q >= (1-u) y >= (1-u)/(1+u) w >= (1-3u) w *)
    apply Qnot_lt_le. intros Hc. nra.
  - apply Qnot_lt_le. intros Hc. nra.
Qed.

Lemma of_int_bounds (n : Z) :
  (0 < n)%Z -> (1 - u53) * inject_Z n <= of_int n /\ of_int n <= (1 + u53) * inject_Z n.
Proof.
  intros Hn. apply round_rel. rewrite Zlt_Qlt in Hn. change (inject_Z 0) with 0 in Hn. lra.
Qed.

(** The pixel of the far corner: [n] pixels of [a / n] metres each. *)
Lemma far_corner_pixel (a : Q) (n : Z) :
  0 < a -> (0 < n <= 2 ^ 31)%Z ->
  to_int (add (div a (div a (of_int n))) (1 # 2)) = n.
Proof.
  intros Ha [Hn Hn'].
  destruct (of_int_bounds n Hn) as [W1 W2].
  assert (HN : 0 < inject_Z n) by (rewrite Zlt_Qlt in Hn; exact Hn).
  assert (HN' : inject_Z n <= inject_Z (2 ^ 31)) by (rewrite <- Zle_Qle; exact Hn').
  change (inject_Z (2 ^ 31)) with 2147483648 in HN'.
  assert (Eu : u53 == 1 # 9007199254740992) by reflexivity.
  set (N := inject_Z n) in *. set (w := of_int n) in *.
  assert (Hw : 0 < w) by nra.
  destruct (div_div_bounds a w Ha Hw) as [D1 D2].
  set (q := div a (div a w)) in *.
  assert (Q1 : N - (1 # 1000) <= q) by nra.
  assert (Q2 : q <= N + (1 # 1000)) by nra.
  destruct (round_rel (q + (1 # 2))) as [R1 R2]; [lra|].
  apply to_int_between; [lia| |]; unfold add; fold N; nra.
Qed.

Lemma near_corner_pixel (e m : Q) :
  to_int (add (div (sub e e) m) (1 # 2)) = 0%Z.
Proof.
  assert (E1 : sub e e == 0) by (unfold sub; rewrite (round_comp (e - e) 0) by ring; reflexivity).
  assert (E2 : div (sub e e) m == 0).
  { unfold div. rewrite (round_comp (sub e e / m) 0); [reflexivity|].
    rewrite E1. unfold Qdiv. ring. }
  assert (E3 : add (div (sub e e) m) (1 # 2) == 1 # 2).
  { unfold add. rewrite (round_comp (div (sub e e) m + (1 # 2)) (1 # 2)); [reflexivity|].
    rewrite E2. ring. }
  rewrite (to_int_comp _ _ E3). reflexivity.
Qed.

Lemma pixel_mono (e e' o m : Q) :
  0 < m -> e <= e' ->
  (to_int (add (div (sub e o) m) (1 # 2)) <= to_int (add (div (sub e' o) m) (1 # 2)))%Z.
Proof.
  intros Hm He. apply to_int_mono. unfold add. apply round_mono.
  apply Qplus_le_l. unfold div. apply round_mono.
  apply Qmult_le_compat_r; [|apply Qlt_le_weak, Qinv_lt_0_compat, Hm].
  unfold sub. apply round_mono. lra.
Qed.

Lemma pixel_antimono (n n' o m : Q) :
  0 < m -> n <= n' ->
  (to_int (add (div (sub o n') m) (1 # 2)) <= to_int (add (div (sub o n) m) (1 # 2)))%Z.
Proof.
  intros Hm He. apply to_int_mono. unfold add. apply round_mono.
  apply Qplus_le_l. unfold div. apply round_mono.
  apply Qmult_le_compat_r; [|apply Qlt_le_weak, Qinv_lt_0_compat, Hm].
  unfold sub. apply round_mono. lra.
Qed.

Lemma scale_pos (a b : Q) (n : Z) : b < a -> (0 < n)%Z -> 0 < div (sub a b) (of_int n).
Proof.
  intros Hab Hn. unfold div. apply round_pos_lt.
  apply Qlt_shift_div_l.
  - destruct (of_int_bounds n Hn) as [W1 _].
    assert (HN : 0 < inject_Z n) by (rewrite Zlt_Qlt in Hn; exact Hn).
    assert (Eu : u53 == 1 # 9007199254740992) by reflexivity. nra.
  - unfold sub. assert (0 < round (a - b)) by (apply round_pos_lt; lra). lra.
Qed.

End F64Facts.

(** On the samples the four operations of the model give what the
    kernel's IEEE 754 binary64 operations give. *)
Lemma model_agrees_with_binary64 :
  forallb (fun p => Binary64.agree PrimFloat.add F64.add p
                    && Binary64.agree PrimFloat.sub F64.sub p
                    && Binary64.agree PrimFloat.mul F64.mul p
                    && Binary64.agree PrimFloat.div F64.div p)
          Binary64.samples = true.
Proof. vm_compute. reflexivity. Qed.

Lemma bind_Ok {A B : Type} (a : A) (k : A -> result B) : (Ok a ≫= k) = k a.
Proof. reflexivity. Qed.

Lemma forEach_cons {A S : Type} (body : S -> A -> result S) (a : A) (l : list A) (s : S) :
  forEach body (a :: l) s = body s a ≫= forEach body l.
Proof. reflexivity. Qed.

(** ** Loading the reports *)

Lemma index_cons {A} (a : A) (l : list A) (i : nat) : index (a :: l) (S i) = index l i.
Proof. reflexivity. Qed.


(** C1, on the code: in transmit-map mode (flag false) the record
    (A, B, good) is stored under [reports["B"]["A"]]: the second column is
    the transmitter key and the first the receiver key, and nothing is
    stored under [reports["A"]["B"]].  The comment of [loadReports] names
    the first column the transmitter. *)
Theorem loadReports_transmit_mode_keys :
  exists rd,
    loadReports (Sample.settings false "ALL") [["A"; "B"; "good"]] = Ok rd /\
    lookup2 (reports rd) "A" "B" = "" /\
    lookup2 (reports rd) "B" "A" = "good" /\
    member (transmitters rd) "A" = false /\
    member (transmitters rd) "B" = true.
Proof. eexists. split; [reflexivity|]. vm_compute. repeat split. Qed.

(** In receive-map mode (flag true) the first column is the transmitter. *)
Lemma loadReports_receive_mode_keys :
  exists rd,
    loadReports (Sample.settings true "ALL") [["A"; "B"; "good"]] = Ok rd /\
    lookup2 (reports rd) "A" "B" = "good" /\
    lookup2 (reports rd) "B" "A" = "".
Proof. eexists. split; [reflexivity|]. vm_compute. repeat split. Qed.

(** ** The call-sign filter *)

Lemma selectTransmitters_ALL (cfg : config) (transmitters : gmap string bool) :
  CallSigns cfg = "ALL" -> selectTransmitters cfg transmitters = transmitters.
Proof. intros E. unfold selectTransmitters. rewrite E. reflexivity. Qed.

Lemma select_fold_lookup (transmitters : gmap string bool) (calls : list string)
    (acc : gmap string bool) (c : string) :
  foldl (fun newTransmitters call =>
           if member transmitters call then <[call := true]> newTransmitters else newTransmitters)
        acc calls !! c
  = if bool_decide (c ∈ calls) && member transmitters c then Some true else acc !! c.
Proof.
  revert acc. induction calls as [|call calls IH]; intros acc; simpl.
  - reflexivity.
  - rewrite IH. destruct (decide (c = call)) as [->|Hne].
    + rewrite (bool_decide_eq_true_2 (call ∈ call :: calls)) by (left).
      destruct (member transmitters call) eqn:Hm.
      * rewrite lookup_insert_eq. destruct (bool_decide (call ∈ calls)); reflexivity.
      * rewrite andb_false_r. reflexivity.
    + assert (Hd : bool_decide (c ∈ call :: calls) = bool_decide (c ∈ calls)).
      { apply bool_decide_ext. rewrite elem_of_cons. intuition congruence. }
      rewrite Hd. destruct (member transmitters call).
      * rewrite lookup_insert_ne by congruence. reflexivity.
      * reflexivity.
Qed.

(** With an explicit list, the transmitters kept are the listed call
    signs, in upper case and without spaces, that have reports. *)
Lemma selectTransmitters_list (cfg : config) (transmitters : gmap string bool) (c : string) :
  CallSigns cfg <> "ALL" ->
  member (selectTransmitters cfg transmitters) c = true <->
  c ∈ Strings.Split (Strings.ReplaceAll (Strings.ToUpper (CallSigns cfg)) " " "") ","
  /\ member transmitters c = true.
Proof.
  intros Hne. unfold selectTransmitters.
  assert (E : streq (CallSigns cfg) "ALL" = false).
  { unfold streq. apply String.eqb_neq, Hne. }
  rewrite E. simpl. unfold member at 1. rewrite select_fold_lookup, lookup_empty.
  destruct (decide (c ∈ Strings.Split (Strings.ReplaceAll (Strings.ToUpper (CallSigns cfg)) " " "") ","))
    as [Hin|Hnin].
  - rewrite (bool_decide_eq_true_2 _ Hin). simpl.
    destruct (member transmitters c); simpl; intuition congruence.
  - rewrite (bool_decide_eq_false_2 _ Hnin). simpl. intuition congruence.
Qed.

(** C2, on the code: with the filter "all" (lower case, as the
    configuration file and the flag's help text spell it) the comparison
    with "ALL" fails, the filter is read as the one call sign ALL, and no
    map is written although the report file names a transmitter; with the
    filter "ALL" that transmitter gets its one map. *)
Theorem filter_all_in_lower_case :
  selectTransmitters (Sample.settings false "all") {["BRAVO" := true]} = ∅ /\
  (exists w, Sample.run (Sample.settings false "all") Sample.icons
               Sample.operatorRecords Sample.reportRecords = Ok w /\ files w = []) /\
  (exists w, Sample.run (Sample.settings false "ALL") Sample.icons
               Sample.operatorRecords Sample.reportRecords = Ok w /\
             (files w).*1 = ["output/BRAVO-xmit-map.png"]).
Proof.
  split; [|split].
  - vm_compute. reflexivity.
  - eexists. split; [vm_compute; reflexivity|]. reflexivity.
  - eexists. split; [vm_compute; reflexivity|]. reflexivity.
Qed.

(** ** Call signs *)

(** The key under which [loadOperators] files a record. *)
Lemma loadOperator_key (ParseFloat : string -> option Q) (gpsToPixel : gpsCoord -> result Point)
    (operators operators' : gmap string operatorData) (record : list string) (c0 : string) :
  index record 0 = Ok c0 ->
  loadOperator ParseFloat gpsToPixel operators record = Ok operators' ->
  is_Some (operators' !! Strings.ReplaceAll (Strings.ToUpper c0) " " "").
Proof.
  intros E H. unfold loadOperator in H. rewrite E in H. simpl in H.
  repeat match type of H with
         | context [mbind _ ?r] => destruct r; simpl in H; try discriminate
         end.
  injection H as <-. rewrite lookup_insert_eq. eauto.
Qed.

(** C9, on the code: [loadOperators] files the operator "kk6 ekn" under
    KK6EKN, [loadReports] keeps the space and names the receiver
    "KK6 EKN"; the two do not match, so the receiver is looked up as a
    missing operator and its icon and label are skipped. *)
Theorem callsign_space_mismatch :
  let cfg := Sample.settings false "ALL" in
  exists gpsToPixel operators rd w,
    newGpsToPixel Sample.flatUTM cfg Sample.baseMap = Ok gpsToPixel /\
    loadOperators Sample.parseWhole gpsToPixel
      [["kk6 ekn"; "1"; "1"; "5"; "Yagi"; "6"; "30"]; ["w1aw"; "1"; "2"; "5"; "Yagi"; "6"; "30"]]
      = Ok operators /\
    loadReports cfg [["kk6 ekn"; "w1aw"; "good"]] = Ok rd /\
    is_Some (operators !! "KK6EKN") /\ operators !! "KK6 EKN" = None /\
    receivers rd !! "KK6 EKN" = Some true /\ receivers rd !! "KK6EKN" = None /\
    callsign (operatorOf operators "KK6 EKN") = "" /\
    Sample.run cfg Sample.icons
      [["kk6 ekn"; "1"; "1"; "5"; "Yagi"; "6"; "30"]; ["w1aw"; "1"; "2"; "5"; "Yagi"; "6"; "30"]]
      [["kk6 ekn"; "w1aw"; "good"]] = Ok w /\
    "Skipping icon for missing operator" ∈ stdout w /\
    (forall pt, ("KK6EKN", pt) ∉ drawn w) /\ (forall pt, ("KK6 EKN", pt) ∉ drawn w).
Proof.
  intros cfg. eexists _, _, _, _.
  split; [reflexivity|].
  split; [vm_compute; reflexivity|].
  split; [vm_compute; reflexivity|].
  split; [vm_compute; eauto|].
  split; [vm_compute; reflexivity|].
  split; [vm_compute; reflexivity|].
  split; [vm_compute; reflexivity|].
  split; [vm_compute; reflexivity|].
  split; [vm_compute; reflexivity|].
  split; [|split].
  - apply list_elem_of_In. simpl. auto.
  - intros pt H. apply list_elem_of_In in H. simpl in H.
    repeat (destruct H as [H|H]; [discriminate H|]). exact H.
  - intros pt H. apply list_elem_of_In in H. simpl in H.
    repeat (destruct H as [H|H]; [discriminate H|]). exact H.
Qed.

(** ** The legend *)

Section Legend.

Variable DrawGlyphs : RGBA -> string -> Point -> option RGBA.
Variable cfg : config.

(** The font renders every string. *)
Hypothesis glyphs_ok : forall dst s pt, is_Some (DrawGlyphs dst s pt).

Lemma DrawString_ok (s : string) (pt : Point) (w : world) :
  exists w', DrawString DrawGlyphs s pt w = Some w' /\
             drawn w' = drawn w ++ [(s, pt)] /\
             outputMap w' = outputMap w /\ stdout w' = stdout w /\ files w' = files w.
Proof.
  unfold DrawString. destruct (glyphs_ok (textMap w) s pt) as [img ->].
  eexists. split; [reflexivity|]. simpl. auto.
Qed.

(** One call of the closure [drawLegend] with one line. *)
Lemma drawLegend_line (s : string) (w : world) :
  exists w', drawLegend DrawGlyphs cfg [s] w = Ok w' /\
             (drawn w').*1 = (drawn w).*1 ++ [s] /\
             outputMap w' = outputMap w /\ stdout w' = stdout w /\ files w' = files w.
Proof.
  unfold drawLegend. simpl. unfold drawLegendItem.
  destruct (DrawString_ok s (Pt (cursorX w) (cursorY w)) w) as (w1 & -> & Hd & Ho & Hs & Hf).
  simpl. eexists. split; [reflexivity|]. simpl.
  rewrite Hd, fmap_app. auto.
Qed.

(** A line that is drawn only when [b] holds. *)
Lemma drawLegend_optional (b : bool) (s : string) (w : world) :
  exists w', (if b then drawLegend DrawGlyphs cfg [s] w else Ok w) = Ok w' /\
             (drawn w').*1 = (drawn w).*1 ++ (if b then [s] else []) /\
             outputMap w' = outputMap w /\ stdout w' = stdout w /\ files w' = files w.
Proof.
  destruct b.
  - apply drawLegend_line.
  - exists w. rewrite app_nil_r. auto.
Qed.

Lemma neq_sentinel (x : Q) :
  F64.neq x (-100) = if Qeq_dec x (-100) then false else true.
Proof.
  unfold F64.neq. destruct (Qeq_dec x (-100)) as [E|N].
  - apply Qeq_bool_iff in E. rewrite E. reflexivity.
  - destruct (Qeq_bool x (-100)) eqn:E; [|reflexivity].
    apply Qeq_bool_iff in E. contradiction.
Qed.

(** The lines [plotLegend] draws, in order. *)
Lemma plotLegend_draws (transmitter : string) (opData : operatorData) (w : world) :
  exists w',
    plotLegend DrawGlyphs cfg transmitter opData w = Ok w' /\
    (drawn w').*1 =
      (drawn w).*1
      ++ [(if RcvMapFlag cfg
           then "Receive Map (who can I hear) for "
           else "Transmission Map (who can hear me) for ") +:+ transmitter;
          "Frequency: 146.535 MHz Simplex"]
      ++ (if Qeq_dec (xmitPwr opData) (-100) then []
          else ["Transmitter Power: " +:+ Sprintf_f 0 (xmitPwr opData) +:+ " Watts"])
      ++ (if decide (antType opData = "") then []
          else ["Antenna Type: " +:+ antType opData])
      ++ (if Qeq_dec (antHeight opData) (-100) then []
          else ["Antenna Height: " +:+ Sprintf_f 0 (antHeight opData) +:+ " feet"])
      ++ (if Qeq_dec (antGain opData) (-100) then []
          else ["Antenna Est. Gain: " +:+ Sprintf_f 1 (antGain opData) +:+ " dBi"]) /\
    outputMap w' = outputMap w /\ stdout w' = stdout w /\ files w' = files w.
Proof.
  unfold plotLegend.
  set (title := (if RcvMapFlag cfg
                 then "Receive Map (who can I hear) for "
                 else "Transmission Map (who can hear me) for ") +:+ transmitter).
  assert (Ht : exists w1, (if RcvMapFlag cfg
                 then drawLegend DrawGlyphs cfg ["Receive Map (who can I hear) for " +:+ transmitter] w
                 else drawLegend DrawGlyphs cfg ["Transmission Map (who can hear me) for " +:+ transmitter] w)
                = Ok w1 /\ (drawn w1).*1 = (drawn w).*1 ++ [title] /\
                outputMap w1 = outputMap w /\ stdout w1 = stdout w /\ files w1 = files w).
  { subst title. destruct (RcvMapFlag cfg); apply drawLegend_line. }
  destruct Ht as (w1 & -> & D1 & O1 & S1 & F1). rewrite bind_Ok.
  destruct (drawLegend_line "Frequency: 146.535 MHz Simplex" w1) as (w2 & -> & D2 & O2 & S2 & F2).
  rewrite bind_Ok. cbv zeta.
  destruct (drawLegend_optional (F64.neq (xmitPwr opData) (-100))
              ("Transmitter Power: " +:+ Sprintf_f 0 (xmitPwr opData) +:+ " Watts") w2)
    as (w3 & -> & D3 & O3 & S3 & F3). rewrite bind_Ok.
  destruct (drawLegend_optional (negb (streq (antType opData) ""))
              ("Antenna Type: " +:+ antType opData) w3)
    as (w4 & -> & D4 & O4 & S4 & F4). rewrite bind_Ok.
  destruct (drawLegend_optional (F64.neq (antHeight opData) (-100))
              ("Antenna Height: " +:+ Sprintf_f 0 (antHeight opData) +:+ " feet") w4)
    as (w5 & -> & D5 & O5 & S5 & F5). rewrite bind_Ok.
  destruct (drawLegend_optional (F64.neq (antGain opData) (-100))
              ("Antenna Est. Gain: " +:+ Sprintf_f 1 (antGain opData) +:+ " dBi") w5)
    as (w6 & -> & D6 & O6 & S6 & F6).
  exists w6. split; [reflexivity|]. split; [|repeat split; congruence].
  rewrite D6, D5, D4, D3, D2, D1, !neq_sentinel.
  assert (Ea : negb (streq (antType opData) "") = if decide (antType opData = "") then false else true).
  { unfold streq. destruct (decide (antType opData = "")) as [->|N]; [reflexivity|].
    apply String.eqb_neq in N. rewrite N. reflexivity. }
  rewrite Ea.
  destruct (Qeq_dec (xmitPwr opData) (-100)), (decide (antType opData = "")),
           (Qeq_dec (antHeight opData) (-100)), (Qeq_dec (antGain opData) (-100));
    simpl; rewrite <- ?app_assoc; reflexivity.
Qed.

End Legend.

(** ** Icons and the loop over the receivers *)


Lemma streq_refl (s : string) : streq s s = true.
Proof. unfold streq. apply String.eqb_refl. Qed.

Lemma streq_neq (a b : string) : a <> b -> streq a b = false.
Proof. unfold streq. apply String.eqb_neq. Qed.

Section Driver.

Variable DrawGlyphs : RGBA -> string -> Point -> option RGBA.
Variable Create : string -> bool.
Variable receiverOrder : string -> gmap string bool -> list string.
Variable cfg : config.
Variable icons : gmap string Image.
Variable operators : gmap string operatorData.
Variable reports : gmap string (gmap string string).

Lemma plotIcon_missing_operator (icon : option Image) (operator : operatorData) (w : world) :
  callsign operator = "" ->
  plotIcon DrawGlyphs cfg icon operator w = Ok (Println "Skipping icon for missing operator" w).
Proof. intros E. unfold plotIcon. rewrite E. reflexivity. Qed.

(** A nil icon and an operator that is known: a run-time panic. *)
Lemma plotIcon_nil_icon (operator : operatorData) (w : world) :
  callsign operator <> "" ->
  plotIcon DrawGlyphs cfg None operator w = Panic "invalid memory address or nil pointer dereference".
Proof. intros N. unfold plotIcon. rewrite (streq_neq _ _ N). reflexivity. Qed.


Lemma plotReceiver_plotted (transmitter receiver : string) (w : world) :
  plotReceiver DrawGlyphs cfg icons operators reports transmitter w receiver =
  if plotted icons reports transmitter receiver
  then plotIcon DrawGlyphs cfg (icons !! lookup2 reports transmitter receiver)
         (operatorOf operators receiver) w
  else Ok w.
Proof.
  unfold plotReceiver, plotted.
  destruct (streq transmitter receiver); [reflexivity|].
  destruct (streq (lookup2 reports transmitter receiver) ""); [reflexivity|].
  destruct (bool_decide (is_Some (icons !! lookup2 reports transmitter receiver))); reflexivity.
Qed.



End Driver.

(** ** One map *)

Section OneMap.

Variable DrawGlyphs : RGBA -> string -> Point -> option RGBA.
Variable Create : string -> bool.
Variable receiverOrder : string -> gmap string bool -> list string.
Variable cfg : config.
Variable icons : gmap string Image.
Variable baseMap : Image.
Variable operators : gmap string operatorData.
Variable rd : reportData.

(** The font renders every string. *)
Hypothesis glyphs_ok : forall dst s pt, is_Some (DrawGlyphs dst s pt).

(** An icon that is there and an operator that is known: the icon is
    composed onto the output map, centred on the operator's pixel, and the
    call sign is drawn as its label. *)
Lemma plotIcon_draws (icon : Image) (operator : operatorData) (w : world) :
  callsign operator <> "" ->
  exists w',
    plotIcon DrawGlyphs cfg (Some icon) operator w = Ok w' /\
    outputMap w' =
      Draw (outputMap w)
           (RectAdd (Bounds icon)
              {| X := int (X (pixel operator) - Z.quot (X (Max (Bounds icon))) 2);
                 Y := int (Y (pixel operator) - Z.quot (Y (Max (Bounds icon))) 2) |})
           icon {| X := 0; Y := 0 |} Over /\
    (drawn w').*1 = (drawn w).*1 ++ [callsign operator] /\
    stdout w' = stdout w /\ files w' = files w.
Proof.
  intros N. unfold plotIcon. rewrite (streq_neq _ _ N).
  match goal with
  | |- context [DrawString DrawGlyphs ?s ?pt ?w0] =>
      destruct (DrawString_ok DrawGlyphs glyphs_ok s pt w0) as (w1 & -> & Hd & Ho & Hs & Hf)
  end.
  exists w1. split; [reflexivity|]. rewrite Ho, Hd, Hs, Hf, fmap_app. simpl. auto.
Qed.

(** With such a font [plotIcon] fails only on a nil icon. *)
Lemma plotIcon_ok (icon : Image) (operator : operatorData) (w : world) :
  exists w' labels,
    plotIcon DrawGlyphs cfg (Some icon) operator w = Ok w' /\
    (drawn w').*1 = (drawn w).*1 ++ labels /\ files w' = files w.
Proof.
  destruct (decide (callsign operator = "")) as [E|N].
  - rewrite plotIcon_missing_operator by exact E.
    exists (Println "Skipping icon for missing operator" w), []. rewrite app_nil_r. auto.
  - destruct (plotIcon_draws icon operator w N) as (w' & H & _ & Hd & _ & Hf).
    exists w', [callsign operator]. auto.
Qed.

(** The loop over the receivers never ends the run. *)
Lemma plotReceivers_ok (transmitter : string) (keys : list string) (w : world) :
  exists w' labels,
    forEach (plotReceiver DrawGlyphs cfg icons operators (reports rd) transmitter) keys w = Ok w' /\
    (drawn w').*1 = (drawn w).*1 ++ labels /\ files w' = files w.
Proof.
  revert w. induction keys as [|r keys IH]; intros w.
  - exists w, []. rewrite app_nil_r. auto.
  - rewrite forEach_cons, plotReceiver_plotted. unfold plotted.
    destruct (negb (streq transmitter r) && negb (streq (lookup2 (reports rd) transmitter r) ""));
      cbn [andb].
    + destruct (icons !! lookup2 (reports rd) transmitter r) as [icon|] eqn:Ei.
      * rewrite bool_decide_eq_true_2 by eauto.
        destruct (plotIcon_ok icon (operatorOf operators r) w) as (w1 & l1 & -> & Hd1 & Hf1).
        rewrite bind_Ok. destruct (IH w1) as (w2 & l2 & -> & Hd2 & Hf2).
        exists w2, (l1 ++ l2). rewrite Hd2, Hd1, Hf2, Hf1, app_assoc. auto.
      * rewrite bool_decide_eq_false_2 by (intros [? ?]; discriminate).
        rewrite bind_Ok. apply IH.
    + rewrite bind_Ok. apply IH.
Qed.

Lemma resetMaps_keeps (w : world) :
  drawn (resetMaps cfg baseMap w) = drawn w /\ files (resetMaps cfg baseMap w) = files w.
Proof. split; reflexivity. Qed.

(** A transmitter without a record in the operator file: its map is
    written, with the legend of the zero operator. *)
Lemma generateMap_unknown_transmitter (transmitter : string) (w : world) :
  operators !! transmitter = None ->
  Create (outputFile cfg transmitter) = true ->
  exists w' labels,
    generateMap DrawGlyphs Create receiverOrder cfg icons baseMap operators rd w transmitter = Ok w' /\
    (files w').*1 = (files w).*1 ++ [outputFile cfg transmitter] /\
    (drawn w').*1 =
      (drawn w).*1 ++ labels
      ++ [(if RcvMapFlag cfg
           then "Receive Map (who can I hear) for "
           else "Transmission Map (who can hear me) for ") +:+ transmitter;
          "Frequency: 146.535 MHz Simplex";
          "Transmitter Power: 0 Watts";
          "Antenna Height: 0 feet";
          "Antenna Est. Gain: 0.0 dBi"].
Proof.
  intros Hop Hc. unfold generateMap.
  destruct (plotReceivers_ok transmitter (receiverOrder transmitter (receivers rd))
              (resetMaps cfg baseMap w)) as (w1 & labels & -> & Hd1 & Hf1).
  rewrite bind_Ok.
  assert (Ez : operatorOf operators transmitter = zeroOperator)
    by (unfold operatorOf; rewrite Hop; reflexivity).
  rewrite Ez. rewrite plotIcon_missing_operator by reflexivity. rewrite bind_Ok.
  destruct (plotLegend_draws DrawGlyphs cfg glyphs_ok transmitter zeroOperator
              (Println "Skipping icon for missing operator" w1))
    as (w2 & -> & Hd2 & _ & _ & Hf2).
  rewrite bind_Ok. unfold saveMap. rewrite Hc.
  eexists _, labels. split; [reflexivity|]. split.
  - simpl. rewrite Hf2. simpl. rewrite Hf1, fmap_app. reflexivity.
  - simpl. rewrite Hd2. simpl. rewrite Hd1. simpl. rewrite <- app_assoc. reflexivity.
Qed.

(** A transmitter with a record, and no icon of the configured
    transmitter category: the map is not written, the run panics. *)
Lemma generateMap_nil_transmitter_icon (transmitter : string) (w : world) :
  icons !! TransIcon cfg = None ->
  callsign (operatorOf operators transmitter) <> "" ->
  generateMap DrawGlyphs Create receiverOrder cfg icons baseMap operators rd w transmitter
  = Panic "invalid memory address or nil pointer dereference".
Proof.
  intros Hi Hc. unfold generateMap.
  destruct (plotReceivers_ok transmitter (receiverOrder transmitter (receivers rd))
              (resetMaps cfg baseMap w)) as (w1 & labels & -> & _ & _).
  rewrite bind_Ok, Hi. rewrite plotIcon_nil_icon by exact Hc. reflexivity.
Qed.

End OneMap.

(** ** The claims about the legend and about missing icons *)

(** C4: When the font renders its strings, [plotLegend] draws the title
    and the frequency and then, in this order, the lines of the
    transmitter power, the antenna type, the antenna height and the
    antenna gain, leaving out exactly the numeric ones whose value is
    -100 and the antenna type when it is the empty string. *)
Theorem legend_omits_unknown_attributes
    (DrawGlyphs : RGBA -> string -> Point -> option RGBA) (cfg : config)
    (transmitter : string) (opData : operatorData) (w : world) :
  (forall dst s pt, is_Some (DrawGlyphs dst s pt)) ->
  exists w',
    plotLegend DrawGlyphs cfg transmitter opData w = Ok w' /\
    (drawn w').*1 =
      (drawn w).*1
      ++ [(if RcvMapFlag cfg
           then "Receive Map (who can I hear) for "
           else "Transmission Map (who can hear me) for ") +:+ transmitter;
          "Frequency: 146.535 MHz Simplex"]
      ++ (if Qeq_dec (xmitPwr opData) (-100) then []
          else ["Transmitter Power: " +:+ Sprintf_f 0 (xmitPwr opData) +:+ " Watts"])
      ++ (if decide (antType opData = "") then []
          else ["Antenna Type: " +:+ antType opData])
      ++ (if Qeq_dec (antHeight opData) (-100) then []
          else ["Antenna Height: " +:+ Sprintf_f 0 (antHeight opData) +:+ " feet"])
      ++ (if Qeq_dec (antGain opData) (-100) then []
          else ["Antenna Est. Gain: " +:+ Sprintf_f 1 (antGain opData) +:+ " dBi"]).
Proof.
  intros Hg.
  destruct (plotLegend_draws DrawGlyphs cfg Hg transmitter opData w) as (w' & H & Hd & _).
  exists w'. auto.
Qed.

Lemma legend_omits_unknown_attributes_witness :
  exists w',
    plotLegend Sample.blankFont (Sample.settings false "ALL") "ALFA" Sample.alfa Sample.blank = Ok w' /\
    (drawn w').*1 =
      ["Transmission Map (who can hear me) for ALFA"; "Frequency: 146.535 MHz Simplex";
       "Transmitter Power: 5 Watts"; "Antenna Type: Yagi"; "Antenna Height: 30 feet"].
Proof.
  apply (legend_omits_unknown_attributes Sample.blankFont (Sample.settings false "ALL")
           "ALFA" Sample.alfa Sample.blank).
  intros dst s pt. exists dst. reflexivity.
Defined.

(** C10: A transmitter of the report file without a record in the
    operator file still gets its map: when the font renders its strings
    and the file can be created, the map is written, and after the labels
    of the receivers its legend is the title, the frequency and the three
    numeric lines of the zero operator, 0 Watts, 0 feet and 0.0 dBi; there
    is no line for the antenna type. *)
Theorem unknown_transmitter_gets_zero_legend
    (DrawGlyphs : RGBA -> string -> Point -> option RGBA) (Create : string -> bool)
    (receiverOrder : string -> gmap string bool -> list string) (cfg : config)
    (icons : gmap string Image) (baseMap : Image) (operators : gmap string operatorData)
    (rd : reportData) (transmitter : string) (w : world) :
  (forall dst s pt, is_Some (DrawGlyphs dst s pt)) ->
  Create (outputFile cfg transmitter) = true ->
  member (transmitters rd) transmitter = true ->
  operators !! transmitter = None ->
  exists w' labels,
    generateMap DrawGlyphs Create receiverOrder cfg icons baseMap operators rd w transmitter = Ok w' /\
    (files w').*1 = (files w).*1 ++ [outputFile cfg transmitter] /\
    (drawn w').*1 =
      (drawn w).*1 ++ labels
      ++ [(if RcvMapFlag cfg
           then "Receive Map (who can I hear) for "
           else "Transmission Map (who can hear me) for ") +:+ transmitter;
          "Frequency: 146.535 MHz Simplex";
          "Transmitter Power: 0 Watts";
          "Antenna Height: 0 feet";
          "Antenna Est. Gain: 0.0 dBi"].
Proof.
  intros Hg Hc _ Hop.
  apply generateMap_unknown_transmitter; assumption.
Qed.

Lemma unknown_transmitter_gets_zero_legend_witness :
  exists w' labels,
    generateMap Sample.blankFont Sample.anyFile (fun _ => Sample.keys) (Sample.settings false "ALL")
      Sample.icons Sample.baseMap ∅
      {| reports := {["BRAVO" := {["ALFA" := "good"]}]};
         receivers := {["ALFA" := true]}; transmitters := {["BRAVO" := true]} |}
      Sample.blank "BRAVO" = Ok w' /\
    (files w').*1 = ["output/BRAVO-xmit-map.png"] /\
    (drawn w').*1 =
      labels ++ ["Transmission Map (who can hear me) for BRAVO"; "Frequency: 146.535 MHz Simplex";
                 "Transmitter Power: 0 Watts"; "Antenna Height: 0 feet"; "Antenna Est. Gain: 0.0 dBi"].
Proof.
  apply (unknown_transmitter_gets_zero_legend Sample.blankFont Sample.anyFile (fun _ => Sample.keys)
           (Sample.settings false "ALL") Sample.icons Sample.baseMap ∅
           {| reports := {["BRAVO" := {["ALFA" := "good"]}]};
              receivers := {["ALFA" := true]}; transmitters := {["BRAVO" := true]} |}
           "BRAVO" Sample.blank).
  - intros dst s pt. exists dst. reflexivity.
  - reflexivity.
  - reflexivity.
  - reflexivity.
Defined.

(** C5, on the code: a reported category without an icon is skipped in
    silence (the map is written, and the receiver ALFA gets no label), but
    when the icon catalog lacks the configured transmitter category the
    nil icon reaches [plotIcon], which asks it for its bounds: the run
    panics and no map is written. *)
Theorem missing_transmitter_icon_panics :
  (exists w,
     Sample.run (Sample.settings false "ALL") Sample.iconsNoGood
       Sample.operatorRecords Sample.reportRecords = Ok w /\
     (files w).*1 = ["output/BRAVO-xmit-map.png"] /\
     (drawn w).*1 = ["BRAVO"; "Transmission Map (who can hear me) for BRAVO";
                     "Frequency: 146.535 MHz Simplex"; "Antenna Est. Gain: 3.0 dBi"] /\
     stdout w = ["Beginning map generation..."; "
Map generation completed!"]) /\
  Sample.run (Sample.settings false "ALL") Sample.iconsNoTrans
    Sample.operatorRecords Sample.reportRecords
  = Panic "invalid memory address or nil pointer dereference".
Proof.
  split.
  - eexists. split; [vm_compute; reflexivity|]. repeat split.
  - vm_compute. reflexivity.
Qed.

(** ** The canvas *)

Lemma blend_Src_byte (d s sa : Z) : (0 <= s <= 65535)%Z -> blend Src d s sa = Z.shiftr s 8.
Proof.
  intros Hs. unfold blend, uint8, uint32.
  rewrite (Z.mod_small (s * 65535)) by lia.
  rewrite Z.div_mul by lia.
  rewrite Z.shiftr_div_pow2 by lia.
  apply Z.mod_small. change (2 ^ 8)%Z with 256%Z.
  split; [apply Z.div_pos; lia | apply Z.div_lt_upper_bound; lia].
Qed.

Lemma blend_Src_range (d s sa : Z) : (0 <= blend Src d s sa < 256)%Z.
Proof. unfold blend, uint8. apply Z.mod_pos_bound. reflexivity. Qed.

(** A transparent source pixel leaves the destination byte as it is. *)
Lemma blend_Over_transparent (d : Z) : (0 <= d < 256)%Z -> blend Over d 0 0 = d.
Proof.
  intros Hd. unfold blend, uint8, uint32. simpl.
  rewrite (Z.mod_small (d * 16842495)) by lia.
  rewrite Z.add_0_r, (Z.mod_small (d * 16842495)) by lia.
  replace (d * 16842495)%Z with (d * 257 * 65535)%Z by lia.
  rewrite Z.div_mul by lia.
  rewrite Z.shiftr_div_pow2 by lia. change (2 ^ 8)%Z with 256%Z.
  replace (d * 257)%Z with (d + d * 256)%Z by lia.
  rewrite Z.div_add by lia. rewrite (Z.div_small d 256) by lia.
  apply Z.mod_small. lia.
Qed.

Lemma RGBA_eq (a b : RGBA) : Pix a = Pix b -> Stride a = Stride b -> Rect a = Rect b -> a = b.
Proof. destruct a, b. simpl. intros -> -> ->. reflexivity. Qed.

Lemma Draw_Rect dst r src sp op : Rect (Draw dst r src sp op) = Rect dst.
Proof. reflexivity. Qed.

Lemma Draw_Stride dst r src sp op : Stride (Draw dst r src sp op) = Stride dst.
Proof. reflexivity. Qed.

Lemma Draw_length dst r src sp op : length (Pix (Draw dst r src sp op)) = length (Pix dst).
Proof. unfold Draw. simpl. apply length_imap. Qed.

Lemma Draw_shapedBy b dst r src sp op : shapedBy b dst -> shapedBy b (Draw dst r src sp op).
Proof.
  intros (H1 & H2 & H3). unfold shapedBy.
  rewrite Draw_Rect, Draw_Stride, Draw_length. auto.
Qed.

Lemma int_small (z : Z) : (- 2 ^ 63 <= z < 2 ^ 63)%Z -> int z = z.
Proof.
  intros H. unfold int, wrap. change (2 ^ (64 - 1))%Z with (2 ^ 63)%Z.
  rewrite Z.mod_small by lia. lia.
Qed.

(** The pixel and the channel that byte [j] of a [w] pixels wide image
    belongs to. *)
Lemma byte_coordinates (w h j : Z) :
  (0 < w)%Z -> (0 <= j < 4 * w * h)%Z ->
  (0 <= j mod (4 * w) / 4 < w /\ 0 <= j / (4 * w) < h /\ 0 <= j mod 4 < 4 /\
   j = j / (4 * w) * (4 * w) + j mod (4 * w) / 4 * 4 + j mod 4)%Z.
Proof.
  intros Hw Hj.
  assert (Ex : (j mod (4 * w) / 4 = (j / 4) mod w)%Z).
  { rewrite Z.rem_mul_r by lia.
    rewrite (Z.mul_comm 4 ((j / 4) mod w)), Z.div_add by lia.
    rewrite (Z.div_small (j mod 4) 4) by (apply Z.mod_pos_bound; lia). lia. }
  assert (Ey : (j / (4 * w) = j / 4 / w)%Z) by (rewrite Z.div_div by lia; reflexivity).
  rewrite Ex, Ey.
  pose proof (Z.div_mod j 4 ltac:(lia)) as E1.
  pose proof (Z.mod_pos_bound j 4 ltac:(lia)) as B1.
  pose proof (Z.div_mod (j / 4) w ltac:(lia)) as E2.
  pose proof (Z.mod_pos_bound (j / 4) w ltac:(lia)) as B2.
  assert (0 <= j / 4)%Z by (apply Z.div_pos; lia).
  assert (0 <= j / 4 / w)%Z by (apply Z.div_pos; lia).
  assert (j / 4 / w < h)%Z by (apply Z.div_lt_upper_bound; [lia|]; apply Z.div_lt_upper_bound; lia).
  repeat split; try lia.
Qed.


Lemma channel_zero (i : Z) : channel {| cR := 0; cG := 0; cB := 0; cA := 0 |} i = 0%Z.
Proof. unfold channel. repeat destruct (_ =? _)%Z; reflexivity. Qed.

Lemma channel_valid (c : Color) (i : Z) : validColor c -> (0 <= channel c i <= 65535)%Z.
Proof.
  intros (H1 & H2 & H3 & H4). unfold channel. repeat destruct (_ =? _)%Z; assumption.
Qed.

(** An image all of whose bytes are zero is transparent everywhere. *)
Lemma RGBAAt_clear (img : RGBA) (x y : Z) :
  (forall j d, Pix img !! j = Some d -> d = 0%Z) ->
  RGBAAt img x y = {| cR := 0; cG := 0; cB := 0; cA := 0 |}.
Proof.
  intros Hz. unfold RGBAAt.
  assert (Hb : forall ch, byteAt img x y ch = 0%Z).
  { intros ch. unfold byteAt.
    destruct (Pix img !! Z.to_nat (PixOffset img x y + ch)) as [d|] eqn:E; simpl.
    - apply (Hz _ _ E).
    - reflexivity. }
  destruct (inRect x y (Rect img)); [|reflexivity].
  rewrite !Hb. reflexivity.
Qed.

Section Canvas.

Variable cfg : config.
Variable baseMap : Image.
Variables W H : Z.

Hypothesis bounds_baseMap :
  Bounds baseMap = {| Min := {| X := 0; Y := 0 |}; Max := {| X := W; Y := H |} |}.
Hypothesis width_range : (0 <= W <= 1000000000)%Z.
Hypothesis height_range : (0 <= H <= 1000000000)%Z.
Hypothesis colors_baseMap : forall x y, validColor (At baseMap x y).

Local Abbreviation b := {| Min := {| X := 0; Y := 0 |}; Max := {| X := W; Y := H |} |} (only parsing).

Lemma Dx_b : Dx b = W.
Proof. unfold Dx. simpl. rewrite Z.sub_0_r. apply int_small. lia. Qed.

Lemma Dy_b : Dy b = H.
Proof. unfold Dy. simpl. rewrite Z.sub_0_r. apply int_small. lia. Qed.

Lemma shaped_index (img : RGBA) (j : nat) (d : Z) :
  shapedBy b img -> Pix img !! j = Some d ->
  (0 < W /\ 0 <= Z.of_nat j < 4 * W * H)%Z.
Proof.
  intros (_ & _ & Hl) Hj. apply lookup_lt_Some in Hj.
  rewrite Hl, Dx_b, Dy_b in Hj.
  destruct (Z.eq_dec W 0%Z) as [E0|]; [rewrite E0 in Hj; simpl in Hj; lia|].
  split; [lia|]. lia.
Qed.

(** What [draw.Draw] leaves in byte [j] when the pixel of that byte lies
    in the rectangle and its source pixel [(sx, sy)] in the source. *)
Lemma Draw_inside (dst : RGBA) (r : Rectangle) (src : Image) (op : Op) (j : nat) (d sx sy : Z) :
  shapedBy b dst -> Pix dst !! j = Some d ->
  let x := (Z.of_nat j mod (4 * W) / 4)%Z in
  let y := (Z.of_nat j / (4 * W))%Z in
  sx = (x - X (Min r))%Z -> sy = (y - Y (Min r))%Z ->
  inRect x y r = true -> inRect sx sy (Bounds src) = true ->
  Pix (Draw dst r src {| X := 0; Y := 0 |} op) !! j
  = Some (blend op d (channel (At src sx sy) (Z.of_nat j mod 4)) (cA (At src sx sy))).
Proof.
  intros Hs Hj x y -> -> Hr Hsrc.
  destruct (shaped_index dst j d Hs Hj) as [HW Hrange].
  destruct (byte_coordinates W H (Z.of_nat j) HW Hrange) as (Bx & By & Bc & _).
  destruct Hs as (HR & HS & _). rewrite Dx_b in HS.
  unfold Draw. simpl. rewrite list_lookup_imap, Hj. simpl.
  rewrite HR, HS. simpl. rewrite !Z.add_0_l. fold x y.
  assert (Hin : inRect x y b = true).
  { unfold inRect. simpl. subst x y.
    repeat (apply andb_true_intro; split); lia. }
  rewrite Hr, Hin, Hsrc. reflexivity.
Qed.

(** Whatever the rectangle, a byte is replaced by a blend or kept. *)
Lemma Draw_any (dst : RGBA) (r : Rectangle) (src : Image) (sp : Point) (op : Op) (j : nat) (d : Z) :
  Pix dst !! j = Some d ->
  Pix (Draw dst r src sp op) !! j = Some d \/
  exists sx sy,
    Pix (Draw dst r src sp op) !! j
    = Some (blend op d (channel (At src sx sy) (Z.of_nat j mod 4)) (cA (At src sx sy))).
Proof.
  intros Hj. unfold Draw. simpl. rewrite list_lookup_imap, Hj. simpl.
  match goal with |- context [if ?c then _ else _] => destruct c end; eauto.
Qed.

Lemma resetMaps_textMap (w : world) :
  textMap (resetMaps cfg baseMap w)
  = Draw (textMap w) (Rect (textMap w)) Transparent {| X := 0; Y := 0 |} Src.
Proof. reflexivity. Qed.

Lemma resetMaps_outputMap (w : world) :
  outputMap (resetMaps cfg baseMap w)
  = Draw (outputMap w) (Bounds baseMap) baseMap {| X := 0; Y := 0 |} Src.
Proof. reflexivity. Qed.

(** After the reset the text layer is clear. *)
Lemma resetMaps_clears_text (w : world) (j : nat) (d : Z) :
  shapedBy b (textMap w) ->
  Pix (textMap (resetMaps cfg baseMap w)) !! j = Some d -> d = 0%Z.
Proof.
  intros Hs Hj. rewrite resetMaps_textMap in Hj.
  destruct (Pix (textMap w) !! j) as [d0|] eqn:E.
  2:{ apply lookup_lt_Some in Hj. rewrite Draw_length in Hj.
      apply lookup_ge_None in E. lia. }
  destruct (shaped_index _ j d0 Hs E) as [HW Hrange].
  destruct (byte_coordinates W H (Z.of_nat j) HW Hrange) as (Bx & By & Bc & _).
  assert (HR : Rect (textMap w) = b) by apply Hs.
  rewrite (Draw_inside (textMap w) (Rect (textMap w)) Transparent Src j d0
             (Z.of_nat j mod (4 * W) / 4) (Z.of_nat j / (4 * W)) Hs E) in Hj.
  - apply (inj Some) in Hj. rewrite <- Hj.
    change (At Transparent _ _) with {| cR := 0; cG := 0; cB := 0; cA := 0 |}.
    rewrite channel_zero. apply blend_Src_byte. lia.
  - rewrite HR. simpl. lia.
  - rewrite HR. simpl. lia.
  - rewrite HR. unfold inRect. simpl. repeat (apply andb_true_intro; split); lia.
  - unfold inRect. simpl. repeat (apply andb_true_intro; split); lia.
Qed.

(** After the reset the output map holds the base map: byte by byte, the
    high byte of each channel. *)
Lemma resetMaps_copies_baseMap (w : world) (j : nat) (d : Z) :
  shapedBy b (outputMap w) ->
  Pix (outputMap (resetMaps cfg baseMap w)) !! j = Some d ->
  d = Z.shiftr (channel (At baseMap (Z.of_nat j mod (4 * W) / 4) (Z.of_nat j / (4 * W)))
                        (Z.of_nat j mod 4)) 8.
Proof.
  intros Hs Hj. rewrite resetMaps_outputMap in Hj.
  destruct (Pix (outputMap w) !! j) as [d0|] eqn:E.
  2:{ apply lookup_lt_Some in Hj. rewrite Draw_length in Hj.
      apply lookup_ge_None in E. lia. }
  destruct (shaped_index _ j d0 Hs E) as [HW Hrange].
  destruct (byte_coordinates W H (Z.of_nat j) HW Hrange) as (Bx & By & Bc & _).
  rewrite (Draw_inside (outputMap w) (Bounds baseMap) baseMap Src j d0
             (Z.of_nat j mod (4 * W) / 4) (Z.of_nat j / (4 * W)) Hs E) in Hj.
  - apply (inj Some) in Hj. rewrite <- Hj.
    apply blend_Src_byte, channel_valid, colors_baseMap.
  - rewrite bounds_baseMap. simpl. lia.
  - rewrite bounds_baseMap. simpl. lia.
  - rewrite bounds_baseMap. unfold inRect. simpl. repeat (apply andb_true_intro; split); lia.
  - rewrite bounds_baseMap. unfold inRect. simpl. repeat (apply andb_true_intro; split); lia.
Qed.

Lemma reset_byte_range (w : world) (j : nat) (d : Z) :
  shapedBy b (outputMap w) ->
  Pix (outputMap (resetMaps cfg baseMap w)) !! j = Some d -> (0 <= d < 256)%Z.
Proof.
  intros Hs Hj. rewrite (resetMaps_copies_baseMap w j d Hs Hj).
  pose proof (channel_valid (At baseMap (Z.of_nat j mod (4 * W) / 4) (Z.of_nat j / (4 * W)))
                (Z.of_nat j mod 4) (colors_baseMap _ _)) as Hc.
  rewrite Z.shiftr_div_pow2 by lia. change (2 ^ 8)%Z with 256%Z.
  split; [apply Z.div_pos; lia | apply Z.div_lt_upper_bound; lia].
Qed.

(** Merging the clear text layer changes no byte of the output map. *)
Lemma merge_after_reset (w : world) :
  shapedBy b (outputMap w) -> shapedBy b (textMap w) ->
  outputMap (mergeText (resetMaps cfg baseMap w)) = outputMap (resetMaps cfg baseMap w).
Proof.
  intros Ho Ht.
  set (w1 := resetMaps cfg baseMap w).
  assert (Hclear : forall x y, RGBAAt (textMap w1) x y = {| cR := 0; cG := 0; cB := 0; cA := 0 |}).
  { intros x y. apply RGBAAt_clear. intros j d. apply resetMaps_clears_text, Ht. }
  change (outputMap (mergeText w1))
    with (Draw (outputMap w1) (Rect (textMap w1)) (asImage (textMap w1)) {| X := 0; Y := 0 |} Over).
  assert (E : Pix (Draw (outputMap w1) (Rect (textMap w1)) (asImage (textMap w1))
                        {| X := 0; Y := 0 |} Over) = Pix (outputMap w1)).
  { apply list_eq. intros j.
    destruct (Pix (outputMap w1) !! j) as [d|] eqn:E.
    - destruct (Draw_any (outputMap w1) (Rect (textMap w1)) (asImage (textMap w1))
                  {| X := 0; Y := 0 |} Over j d E) as [H1|(sx & sy & H1)]; [exact H1|].
      rewrite H1. unfold asImage. cbn [At]. rewrite Hclear, channel_zero. cbn [cA].
      rewrite blend_Over_transparent; [reflexivity|].
      apply (reset_byte_range w j d Ho E).
    - apply lookup_ge_None. rewrite Draw_length. apply lookup_ge_None, E. }
  apply RGBA_eq; [exact E | reflexivity | reflexivity].
Qed.

End Canvas.



(** When the base map is itself an [*image.RGBA], the output map is that
    raster, byte for byte. *)
Lemma reset_then_merge_RGBA_base (cfg : config) (img : RGBA) (W H : Z) (w : world) :
  let b := {| Min := {| X := 0; Y := 0 |}; Max := {| X := W; Y := H |} |} in
  (0 <= W <= 1000000000)%Z -> (0 <= H <= 1000000000)%Z ->
  shapedBy b img ->
  (forall j d, Pix img !! j = Some d -> (0 <= d < 256)%Z) ->
  shapedBy b (outputMap w) -> shapedBy b (textMap w) ->
  outputMap (mergeText (resetMaps cfg (asImage img) w)) = img.
Proof.
  intros b HW HH Hi Hbytes Ho Ht.
  pose proof (Dx_b W H HW) as EDx. fold b in EDx.
  assert (Hb : Bounds (asImage img) = b) by apply Hi.
  assert (Hc : forall x y, validColor (At (asImage img) x y)).
  { intros x y. unfold asImage, validColor, RGBAAt. cbn [At].
    assert (Hbyte : forall ch, (0 <= byteAt img x y ch * 257 <= 65535)%Z).
    { intros ch. unfold byteAt.
      destruct (Pix img !! Z.to_nat (PixOffset img x y + ch)) as [d|] eqn:E; simpl.
      - specialize (Hbytes _ _ E). lia.
      - lia. }
    destruct (inRect x y (Rect img)); simpl; [|lia].
    repeat split; apply Hbyte. }
  rewrite (merge_after_reset cfg (asImage img) W H Hb HW HH Hc w Ho Ht).
  destruct Hi as (HR & HS & HL). pose proof Ho as (HRo & HSo & HLo).
  apply RGBA_eq.
  - apply list_eq. intros j.
    destruct (Pix img !! j) as [d|] eqn:E.
    + destruct (Pix (outputMap (resetMaps cfg (asImage img) w)) !! j) as [d'|] eqn:E'.
      2:{ apply lookup_ge_None in E'. rewrite resetMaps_outputMap, Draw_length, HLo, <- HL in E'.
          apply lookup_lt_Some in E. lia. }
      rewrite (resetMaps_copies_baseMap cfg (asImage img) W H Hb HW HH Hc w j d' Ho E').
      f_equal.
      destruct (shaped_index W H HW HH img j d (conj HR (conj HS HL)) E) as [HW0 Hrange].
      destruct (byte_coordinates W H (Z.of_nat j) HW0 Hrange) as (Bx & By & Bc & Ej).
      unfold asImage. cbn [At]. unfold RGBAAt. rewrite HR.
      assert (Hin : inRect (Z.of_nat j mod (4 * W) / 4) (Z.of_nat j / (4 * W)) b = true).
      { unfold inRect, b. simpl. repeat (apply andb_true_intro; split); lia. }
      rewrite Hin.
      assert (Hbyte : byteAt img (Z.of_nat j mod (4 * W) / 4) (Z.of_nat j / (4 * W))
                             (Z.of_nat j mod 4) = d).
      { unfold byteAt, PixOffset. rewrite HR, HS, EDx. cbn [b Min X Y].
        rewrite !Z.sub_0_r, <- Ej, Nat2Z.id, E. reflexivity. }
      assert (Hd : (0 <= d < 256)%Z) by apply (Hbytes _ _ E).
      assert (Hsh : Z.shiftr (d * 257) 8 = d).
      { rewrite Z.shiftr_div_pow2 by lia. change (2 ^ 8)%Z with 256%Z.
        replace (d * 257)%Z with (d + d * 256)%Z by lia.
        rewrite Z.div_add by lia. rewrite Z.div_small by lia. lia. }
      unfold channel.
      destruct (Z.of_nat j mod 4 =? 0)%Z eqn:C0;
        [apply Z.eqb_eq in C0; rewrite C0 in Hbyte; cbn [cR]; rewrite Hbyte; exact Hsh|].
      destruct (Z.of_nat j mod 4 =? 1)%Z eqn:C1;
        [apply Z.eqb_eq in C1; rewrite C1 in Hbyte; cbn [cG]; rewrite Hbyte; exact Hsh|].
      destruct (Z.of_nat j mod 4 =? 2)%Z eqn:C2;
        [apply Z.eqb_eq in C2; rewrite C2 in Hbyte; cbn [cB]; rewrite Hbyte; exact Hsh|].
      apply Z.eqb_neq in C0, C1, C2.
      assert (C3 : (Z.of_nat j mod 4 = 3)%Z) by lia.
      rewrite C3 in Hbyte. cbn [cA]. rewrite Hbyte. exact Hsh.
    + apply lookup_ge_None. apply lookup_ge_None in E.
      rewrite resetMaps_outputMap, Draw_length, HLo, <- HL. exact E.
  - rewrite resetMaps_outputMap, Draw_Stride, HSo, HS. reflexivity.
  - rewrite resetMaps_outputMap, Draw_Rect, HRo, HR. reflexivity.
Qed.

(** ** The projector *)

Section Projector.

Variable FromLatLon : Q -> Q -> bool -> option (Q * Q * Z * string).
Variable cfg : config.
Variable baseMap : Image.

(** The corners of the map and what [UTM.FromLatLon] makes of them. *)
Variables latN longW latS longE : Q.
Variables restNW restSE : list Q.
Variables eastingNW northingNW eastingSE northingSE : Q.
Variables zoneNW zoneSE : Z.
Variables letterNW letterSE : string.

Hypothesis cfg_NW : MapNWCorner cfg = latN :: longW :: restNW.
Hypothesis cfg_SE : MapSECorner cfg = latS :: longE :: restSE.
Hypothesis utm_NW : FromLatLon latN longW false = Some (eastingNW, northingNW, zoneNW, letterNW).
Hypothesis utm_SE : FromLatLon latS longE false = Some (eastingSE, northingSE, zoneSE, letterSE).

Local Abbreviation xMetersPerPixel :=
  (F64.div (F64.sub eastingSE eastingNW) (F64.of_int (Dx (Bounds baseMap)))) (only parsing).
Local Abbreviation yMetersPerPixel :=
  (F64.div (F64.sub northingNW northingSE) (F64.of_int (Dy (Bounds baseMap)))) (only parsing).

(** The closure [newGpsToPixel] returns, with the variables it holds. *)
Lemma newGpsToPixel_closure :
  newGpsToPixel FromLatLon cfg baseMap =
  Ok (fun gps : gpsCoord =>
        en ← orFatal "Can't convert GPS coordinate to UTM" (FromLatLon (lat gps) (long gps) false);
        let '(easting, northing, _, _) := en in
        Ok {| X := F64.to_int (F64.add (F64.div (F64.sub easting eastingNW) xMetersPerPixel) (1 # 2));
              Y := F64.to_int (F64.add (F64.div (F64.sub northingNW northing) yMetersPerPixel) (1 # 2)) |}).
Proof.
  unfold newGpsToPixel. rewrite cfg_NW, cfg_SE. simpl. rewrite utm_NW. simpl.
  rewrite utm_SE. reflexivity.
Qed.

Lemma gpsToPixel_at (proj : gpsCoord -> result Point) (gps : gpsCoord)
    (easting northing : Q) (zone : Z) (letter : string) :
  newGpsToPixel FromLatLon cfg baseMap = Ok proj ->
  FromLatLon (lat gps) (long gps) false = Some (easting, northing, zone, letter) ->
  proj gps =
  Ok {| X := F64.to_int (F64.add (F64.div (F64.sub easting eastingNW) xMetersPerPixel) (1 # 2));
        Y := F64.to_int (F64.add (F64.div (F64.sub northingNW northing) yMetersPerPixel) (1 # 2)) |}.
Proof.
  intros Hp Hu. rewrite newGpsToPixel_closure in Hp. injection Hp as <-.
  rewrite Hu. reflexivity.
Qed.

(** The two corners land on the corners of the image. *)
Lemma corner_pixels :
  (eastingNW < eastingSE)%Q -> (northingSE < northingNW)%Q ->
  (0 < Dx (Bounds baseMap) <= 2 ^ 31)%Z -> (0 < Dy (Bounds baseMap) <= 2 ^ 31)%Z ->
  exists proj,
    newGpsToPixel FromLatLon cfg baseMap = Ok proj /\
    proj {| lat := latN; long := longW |} = Ok {| X := 0; Y := 0 |} /\
    proj {| lat := latS; long := longE |}
    = Ok {| X := Dx (Bounds baseMap); Y := Dy (Bounds baseMap) |}.
Proof.
  intros He Hn Hx Hy. eexists. split; [apply newGpsToPixel_closure|]. split.
  - simpl. rewrite utm_NW. simpl.
    rewrite !F64Facts.near_corner_pixel. reflexivity.
  - simpl. rewrite utm_SE. simpl.
    rewrite !F64Facts.far_corner_pixel; try assumption; [reflexivity| |].
    + unfold F64.sub. apply F64Facts.round_pos_lt. lra.
    + unfold F64.sub. apply F64Facts.round_pos_lt. lra.
Qed.

(** The projection does not move a point south when its latitude grows,
    nor west when its longitude grows. *)
Hypothesis northing_mono :
  forall lat1 lat2 long e1 n1 z1 l1 e2 n2 z2 l2,
    FromLatLon lat1 long false = Some (e1, n1, z1, l1) ->
    FromLatLon lat2 long false = Some (e2, n2, z2, l2) ->
    (lat1 <= lat2)%Q -> (n1 <= n2)%Q.
Hypothesis easting_mono :
  forall lat long1 long2 e1 n1 z1 l1 e2 n2 z2 l2,
    FromLatLon lat long1 false = Some (e1, n1, z1, l1) ->
    FromLatLon lat long2 false = Some (e2, n2, z2, l2) ->
    (long1 <= long2)%Q -> (e1 <= e2)%Q.


End Projector.

(** C3: With corners that the projection places apart (the south-east
    corner east and south of the north-west one) and a base image at most
    2^31 pixels wide and high, the projector exists, it sends the
    north-west corner to the pixel (0, 0) and the south-east corner to
    (imageWidth, imageHeight), each coordinate within one pixel. *)
Theorem corners_project_within_one_pixel
    (FromLatLon : Q -> Q -> bool -> option (Q * Q * Z * string)) (cfg : config) (baseMap : Image)
    (latN longW latS longE : Q) (restNW restSE : list Q)
    (eastingNW northingNW eastingSE northingSE : Q) (zoneNW zoneSE : Z)
    (letterNW letterSE : string) :
  MapNWCorner cfg = latN :: longW :: restNW ->
  MapSECorner cfg = latS :: longE :: restSE ->
  FromLatLon latN longW false = Some (eastingNW, northingNW, zoneNW, letterNW) ->
  FromLatLon latS longE false = Some (eastingSE, northingSE, zoneSE, letterSE) ->
  (eastingNW < eastingSE)%Q -> (northingSE < northingNW)%Q ->
  (0 < Dx (Bounds baseMap) <= 2 ^ 31)%Z -> (0 < Dy (Bounds baseMap) <= 2 ^ 31)%Z ->
  exists proj pNW pSE,
    newGpsToPixel FromLatLon cfg baseMap = Ok proj /\
    proj {| lat := latN; long := longW |} = Ok pNW /\
    proj {| lat := latS; long := longE |} = Ok pSE /\
    (Z.abs (X pNW - 0) <= 1 /\ Z.abs (Y pNW - 0) <= 1)%Z /\
    (Z.abs (X pSE - Dx (Bounds baseMap)) <= 1 /\ Z.abs (Y pSE - Dy (Bounds baseMap)) <= 1)%Z.
Proof.
  intros HcNW HcSE HuNW HuSE He Hn Hx Hy.
  destruct (corner_pixels FromLatLon cfg baseMap latN longW latS longE restNW restSE
              eastingNW northingNW eastingSE northingSE zoneNW zoneSE letterNW letterSE
              HcNW HcSE HuNW HuSE He Hn Hx Hy) as (proj & Hp & HNW & HSE).
  exists proj, {| X := 0; Y := 0 |}, {| X := Dx (Bounds baseMap); Y := Dy (Bounds baseMap) |}.
  repeat split; try assumption; simpl; lia.
Qed.

Lemma corners_project_within_one_pixel_witness :
  exists proj pNW pSE,
    newGpsToPixel Sample.flatUTM (Sample.settings false "ALL") Sample.baseMap = Ok proj /\
    proj {| lat := 2; long := 0 |} = Ok pNW /\
    proj {| lat := 0; long := 2 |} = Ok pSE /\
    (Z.abs (X pNW - 0) <= 1 /\ Z.abs (Y pNW - 0) <= 1)%Z /\
    (Z.abs (X pSE - Dx (Bounds Sample.baseMap)) <= 1
     /\ Z.abs (Y pSE - Dy (Bounds Sample.baseMap)) <= 1)%Z.
Proof.
  apply (corners_project_within_one_pixel Sample.flatUTM (Sample.settings false "ALL") Sample.baseMap
           2 0 0 2 [] []
           (F64.mul 0 88000) (F64.mul 2 111000) (F64.mul 2 88000) (F64.mul 0 111000)
           10 10 "S" "S").
  - reflexivity.
  - reflexivity.
  - reflexivity.
  - reflexivity.
  - vm_compute. reflexivity.
  - vm_compute. reflexivity.
  - vm_compute. split; [reflexivity | discriminate].
  - vm_compute. split; [reflexivity | discriminate].
Defined.

(** No function from the rationals to the integers falls strictly along
    a whole interval: the pixels are too few. *)
Lemma no_strict_descent (f : Q -> Z) (a b : Q) :
  (a < b)%Q -> ~ (forall x y, (a <= x)%Q -> (x < y)%Q -> (y <= b)%Q -> (f y < f x)%Z).
Proof.
  intros Hab Hf.
  set (n := Z.to_nat (f a - f b)).
  set (step := ((b - a) / inject_Z (Z.of_nat n + 2))%Q).
  assert (Hn2 : (0 < inject_Z (Z.of_nat n + 2))%Q).
  { change 0%Q with (inject_Z 0). rewrite <- Zlt_Qlt. lia. }
  assert (Hstep : (0 < step)%Q) by (apply Qlt_shift_div_l; lra).
  assert (Hsum : (step * inject_Z (Z.of_nat n + 2) == b - a)%Q) by (unfold step; field; lra).
  assert (Hchain : forall i, (i <= n)%nat ->
            (f (a + inject_Z (Z.of_nat (S i)) * step)%Q <= f a - Z.of_nat (S i))%Z).
  { induction i as [|i IH]; intros Hi.
    - assert (f (a + inject_Z (Z.of_nat 1) * step)%Q < f a)%Z; [|lia].
      assert (Hle : (inject_Z 1 <= inject_Z (Z.of_nat n + 2))%Q) by (rewrite <- Zle_Qle; lia).
      change (inject_Z 1) with 1%Q in Hle.
      apply Hf; change (inject_Z (Z.of_nat 1)) with 1%Q; nra.
    - specialize (IH ltac:(lia)).
      assert (f (a + inject_Z (Z.of_nat (S (S i))) * step)%Q
              < f (a + inject_Z (Z.of_nat (S i)) * step)%Q)%Z; [|lia].
      assert (E : (inject_Z (Z.of_nat (S (S i))) == inject_Z (Z.of_nat (S i)) + 1)%Q).
      { rewrite (Nat2Z.inj_succ (S i)). unfold Z.succ. rewrite inject_Z_plus. reflexivity. }
      assert (Hpos : (0 <= inject_Z (Z.of_nat (S i)))%Q).
      { change 0%Q with (inject_Z 0). rewrite <- Zle_Qle. lia. }
      assert (Hle : (inject_Z (Z.of_nat (S (S i))) <= inject_Z (Z.of_nat n + 2))%Q).
      { rewrite <- Zle_Qle. lia. }
      apply Hf; nra. }
  specialize (Hchain n (le_n n)).
  assert (Hlast : (f b < f (a + inject_Z (Z.of_nat (S n)) * step)%Q)%Z).
  { assert (E : (inject_Z (Z.of_nat n + 2) == inject_Z (Z.of_nat (S n)) + 1)%Q).
    { rewrite (Nat2Z.inj_succ n). unfold Z.succ.
      replace (Z.of_nat n + 2)%Z with (Z.of_nat n + 1 + 1)%Z by lia.
      rewrite (inject_Z_plus (Z.of_nat n + 1) 1). reflexivity. }
    assert (Hpos : (0 <= inject_Z (Z.of_nat (S n)))%Q).
    { change 0%Q with (inject_Z 0). rewrite <- Zle_Qle. lia. }
    apply Hf; nra. }
  subst n. lia.
Qed.

(** So no projector, whatever the projection under it, moves every
    point of a meridian segment up by at least a pixel when its latitude
    grows. *)
Lemma projector_never_strictly_monotone (proj : gpsCoord -> result Point) (lat1 lat2 long : Q) :
  (lat1 < lat2)%Q ->
  (forall l, exists p, proj {| lat := l; long := long |} = Ok p) ->
  ~ (forall l l' p p',
       (lat1 <= l)%Q -> (l < l')%Q -> (l' <= lat2)%Q ->
       proj {| lat := l; long := long |} = Ok p ->
       proj {| lat := l'; long := long |} = Ok p' ->
       (Y p' < Y p)%Z).
Proof.
  intros Hlt Htotal Hstrict.
  apply (no_strict_descent
           (fun l => match proj {| lat := l; long := long |} with Ok p => Y p | _ => 0%Z end)
           lat1 lat2 Hlt).
  intros x y Hx Hxy Hy.
  destruct (Htotal x) as [p Hp]. destruct (Htotal y) as [p' Hp'].
  rewrite Hp, Hp'. apply (Hstrict x y p p'); assumption.
Qed.






(** * More properties *)

(** ** More on the reports *)

Lemma forEach_app {A S : Type} (body : S -> A -> result S) (l1 l2 : list A) (s : S) :
  forEach body (l1 ++ l2) s = forEach body l1 s ≫= forEach body l2.
Proof.
  revert s. induction l1 as [|a l1 IH]; intros s; [reflexivity|].
  rewrite <- app_comm_cons, !forEach_cons.
  destruct (body s a) as [s'| |]; [|reflexivity|reflexivity].
  rewrite !bind_Ok. apply IH.
Qed.


Lemma loadReport_short (cfg : config) (acc : reportData) (record : list string) :
  length record < 3 -> loadReport cfg acc record = Panic "index out of range".
Proof.
  intros H. unfold loadReport.
  destruct record as [|c0 [|c1 [|c2 rest]]]; simpl in H; try lia;
    destruct (RcvMapFlag cfg); reflexivity.
Qed.



Lemma loadReport_step (cfg : config) (acc : reportData) (c0 c1 report : string) (rest : list string) :
  loadReport cfg acc (c0 :: c1 :: report :: rest)
  = Ok (fileReport (Strings.ToUpper (if RcvMapFlag cfg then c0 else c1))
                   (Strings.ToUpper (if RcvMapFlag cfg then c1 else c0)) report acc).
Proof. unfold loadReport. destruct (RcvMapFlag cfg); reflexivity. Qed.

Lemma reportOf_fileReport (t r report : string) (rd : reportData) (t' r' : string) :
  reportOf (reports (fileReport t r report rd)) t' r'
  = if decide (t' = t /\ r' = r) then Some report else reportOf (reports rd) t' r'.
Proof.
  unfold reportOf, fileReport. simpl.
  destruct (decide (t' = t)) as [->|Ht].
  - rewrite lookup_insert_eq. simpl.
    destruct (decide (r' = r)) as [->|Hr].
    + rewrite lookup_insert_eq. rewrite decide_True by auto. reflexivity.
    + rewrite lookup_insert_ne by congruence. rewrite decide_False by (intros [_ ?]; congruence).
      destruct (reports rd !! t); simpl; [reflexivity|]. apply lookup_empty.
  - rewrite lookup_insert_ne by congruence. rewrite decide_False by (intros [? _]; congruence).
    reflexivity.
Qed.

Lemma member_insert_true (m : gmap string bool) (k k' : string) :
  member (<[k := true]> m) k' = if decide (k' = k) then true else member m k'.
Proof.
  unfold member. destruct (decide (k' = k)) as [->|N].
  - rewrite lookup_insert_eq. reflexivity.
  - rewrite lookup_insert_ne by congruence. reflexivity.
Qed.

Lemma consistent_noReports : consistent noReports.
Proof.
  unfold consistent, noReports, reportOf, member. simpl. repeat split.
  - rewrite lookup_empty in H. discriminate.
  - rewrite lookup_empty in H. discriminate.
  - intros t H. rewrite lookup_empty in H. discriminate.
  - intros r H. rewrite lookup_empty in H. discriminate.
Qed.

Lemma consistent_fileReport (t r report : string) (rd : reportData) :
  consistent rd -> consistent (fileReport t r report rd).
Proof.
  intros (H1 & H2 & H3). unfold consistent.
  change (receivers (fileReport t r report rd)) with (<[r := true]> (receivers rd)).
  change (transmitters (fileReport t r report rd)) with (<[t := true]> (transmitters rd)).
  split; [|split].
  - intros t' r' c. rewrite reportOf_fileReport, !member_insert_true.
    destruct (decide (t' = t /\ r' = r)) as [[-> ->]|N].
    + intros _. rewrite !decide_True by reflexivity. auto.
    + intros H. destruct (H1 _ _ _ H) as [Hr Ht]. rewrite Hr, Ht.
      split; [destruct (decide (r' = r))|destruct (decide (t' = t))]; reflexivity.
  - intros t'. rewrite member_insert_true.
    destruct (decide (t' = t)) as [->|N].
    + intros _. exists r, report. rewrite reportOf_fileReport, decide_True by auto. reflexivity.
    + intros H. destruct (H2 _ H) as (r' & c & E). exists r', c.
      rewrite reportOf_fileReport, decide_False by (intros [? _]; congruence). exact E.
  - intros r'. rewrite member_insert_true.
    destruct (decide (r' = r)) as [->|N].
    + intros _. exists t, report. rewrite reportOf_fileReport, decide_True by auto. reflexivity.
    + intros H. destruct (H3 _ H) as (t' & c & E). exists t', c.
      rewrite reportOf_fileReport, decide_False by (intros [_ ?]; congruence). exact E.
Qed.

(** An invariant of the accumulator is an invariant of the result. *)
Lemma loadRecords_invariant (P : reportData -> Prop) (cfg : config) :
  (forall t r report rd, P rd -> P (fileReport (Strings.ToUpper t) (Strings.ToUpper r) report rd)) ->
  forall records acc rd,
    P acc -> forEach (loadReport cfg) records acc = Ok rd -> P rd.
Proof.
  intros Hstep. induction records as [|record records IH]; intros acc rd Hacc H.
  - injection H as <-. exact Hacc.
  - rewrite forEach_cons in H.
    destruct record as [|c0 [|c1 [|c2 rest]]];
      try (rewrite loadReport_short in H by (simpl; lia); discriminate).
    rewrite loadReport_step, bind_Ok in H.
    eapply IH; [|exact H]. apply Hstep, Hacc.
Qed.

(** X2: The maps [loadReports] returns agree with one another: a report
    is filed only between a transmitter and a receiver that are in the two
    key maps, and each key of these has at least one report. *)
Theorem loadReports_consistent (cfg : config) (records : list (list string)) (rd : reportData) :
  loadReports cfg records = Ok rd ->
  (forall t r c, reportOf (reports rd) t r = Some c ->
                 member (receivers rd) r = true /\ member (transmitters rd) t = true) /\
  (forall t, member (transmitters rd) t = true -> exists r c, reportOf (reports rd) t r = Some c) /\
  (forall r, member (receivers rd) r = true -> exists t c, reportOf (reports rd) t r = Some c).
Proof.
  apply (loadRecords_invariant consistent cfg).
  - intros t r report rd'. apply consistent_fileReport.
  - apply consistent_noReports.
Qed.

Lemma loadReports_consistent_witness :
  exists rd,
    loadReports (Sample.settings false "ALL") [["alfa"; "bravo"; "good"]; ["alfa"; "delta"; "weak"]]
    = Ok rd /\
    (forall t r c, reportOf (reports rd) t r = Some c ->
                   member (receivers rd) r = true /\ member (transmitters rd) t = true) /\
    (forall t, member (transmitters rd) t = true -> exists r c, reportOf (reports rd) t r = Some c) /\
    (forall r, member (receivers rd) r = true -> exists t c, reportOf (reports rd) t r = Some c).
Proof.
  eexists. split; [reflexivity|].
  apply (loadReports_consistent (Sample.settings false "ALL")
           [["alfa"; "bravo"; "good"]; ["alfa"; "delta"; "weak"]]).
  reflexivity.
Defined.







Lemma transposed_fileReport (t r report : string) (a b : reportData) :
  transposed a b -> transposed (fileReport t r report a) (fileReport r t report b).
Proof.
  intros (H1 & H2 & H3). unfold transposed. split; [|split].
  - unfold fileReport. simpl. rewrite H1. reflexivity.
  - unfold fileReport. simpl. rewrite H2. reflexivity.
  - intros t' r'. rewrite !reportOf_fileReport, H3.
    destruct (decide (t' = t /\ r' = r)) as [[-> ->]|N].
    + rewrite decide_True by auto. reflexivity.
    + rewrite decide_False by (intros [? ?]; apply N; auto). reflexivity.
Qed.

Lemma loadRecords_transposed (cfg1 cfg2 : config) (records : list (list string)) (a b : reportData) :
  RcvMapFlag cfg1 = true -> RcvMapFlag cfg2 = false -> transposed a b ->
  match forEach (loadReport cfg1) records a, forEach (loadReport cfg2) records b with
  | Ok a', Ok b' => transposed a' b'
  | Panic m, Panic m' => m = m'
  | _, _ => False
  end.
Proof.
  intros F1 F2. revert a b. induction records as [|record records IH]; intros a b Hab.
  - exact Hab.
  - rewrite !forEach_cons.
    destruct record as [|c0 [|c1 [|c2 rest]]];
      try (rewrite !loadReport_short by (simpl; lia); reflexivity).
    rewrite !loadReport_step, !bind_Ok, F1, F2.
    apply IH, transposed_fileReport, Hab.
Qed.

(** X5: The two map modes read the same file as transposes of one
    another: what receive-map mode files under (t, r), transmit-map mode
    files under (r, t), the key maps change places, and the one mode fails
    where the other does. *)
Theorem modes_are_transposes (cfg1 cfg2 : config) (records : list (list string)) :
  RcvMapFlag cfg1 = true -> RcvMapFlag cfg2 = false ->
  match loadReports cfg1 records, loadReports cfg2 records with
  | Ok a, Ok b =>
      receivers a = transmitters b /\ transmitters a = receivers b /\
      forall t r, reportOf (reports a) t r = reportOf (reports b) r t
  | Panic m, Panic m' => m = m'
  | _, _ => False
  end.
Proof.
  intros F1 F2. apply loadRecords_transposed; [exact F1|exact F2|].
  repeat split.
Qed.

Lemma modes_are_transposes_witness :
  receivers (fileReport "ALFA" "BRAVO" "good" noReports)
  = transmitters (fileReport "BRAVO" "ALFA" "good" noReports) /\
  transmitters (fileReport "ALFA" "BRAVO" "good" noReports)
  = receivers (fileReport "BRAVO" "ALFA" "good" noReports) /\
  forall t r,
    reportOf (reports (fileReport "ALFA" "BRAVO" "good" noReports)) t r
    = reportOf (reports (fileReport "BRAVO" "ALFA" "good" noReports)) r t.
Proof.
  exact (modes_are_transposes (Sample.settings true "ALL") (Sample.settings false "ALL")
           [["alfa"; "bravo"; "good"]] eq_refl eq_refl).
Defined.

(** ** More on the operators *)
















(** ** More on the call-sign filter *)

(** X8: The call-sign filter.  With [CallSigns] set to ALL every
    transmitter of the report file is kept.  With anything else the
    transmitters kept are the call signs of the list (put in upper case,
    spaces removed, split at the commas) that have reports: a call sign
    without reports is never selected. *)
Theorem filter_selects_listed_and_reported (cfg : config) (transmitters : gmap string bool) :
  (CallSigns cfg = "ALL" -> selectTransmitters cfg transmitters = transmitters) /\
  (CallSigns cfg <> "ALL" ->
   forall call,
     member (selectTransmitters cfg transmitters) call = true <->
     call ∈ Strings.Split (Strings.ReplaceAll (Strings.ToUpper (CallSigns cfg)) " " "") ","
     /\ member transmitters call = true).
Proof.
  split.
  - intros E. unfold selectTransmitters. rewrite E. reflexivity.
  - intros N call. apply selectTransmitters_list, N.
Qed.

Lemma notice_fold (transmitters : gmap string bool) (calls : list string)
    (acc : gmap string bool * list string) :
  foldl (fun (acc : gmap string bool * list string) call =>
           if member transmitters call
           then (<[call := true]> (fst acc), snd acc)
           else (fst acc, snd acc ++ ["Skipping " +:+ call +:+ ": no reports"]))
        acc calls
  = (foldl (fun newTransmitters call =>
              if member transmitters call then <[call := true]> newTransmitters else newTransmitters)
           (fst acc) calls,
     snd acc ++ ((fun call => "Skipping " +:+ call +:+ ": no reports")
                   <$> List.filter (fun call => negb (member transmitters call)) calls)).
Proof.
  revert acc. induction calls as [|call calls IH]; intros [new out]; simpl.
  - rewrite app_nil_r. reflexivity.
  - rewrite IH. destruct (member transmitters call); simpl; [reflexivity|].
    rewrite <- app_assoc. reflexivity.
Qed.

(** X9: The filter of the later draft selects the transmitters the filter
    of [reception.go] selects, and prints one notice, in the order asked,
    for each call sign of the list that has no reports (none with ALL). *)
Theorem notice_filter_agrees (cfg : config) (transmitters : gmap string bool) :
  fst (selectTransmittersNotice cfg transmitters) = selectTransmitters cfg transmitters /\
  snd (selectTransmittersNotice cfg transmitters)
  = if streq (CallSigns cfg) "ALL" then []
    else (fun call => "Skipping " +:+ call +:+ ": no reports")
           <$> List.filter (fun call => negb (member transmitters call))
                 (Strings.Split (Strings.ReplaceAll (Strings.ToUpper (CallSigns cfg)) " " "") ",").
Proof.
  unfold selectTransmittersNotice, selectTransmitters.
  destruct (streq (CallSigns cfg) "ALL"); simpl; [auto|].
  rewrite notice_fold. auto.
Qed.

(** ** The names of the files *)

Lemma append_length (a s : string) :
  Stdlib.Strings.String.length (a +:+ s)
  = Stdlib.Strings.String.length a + Stdlib.Strings.String.length s.
Proof. induction a as [|c a IH]; simpl; [reflexivity | rewrite IH; reflexivity]. Qed.

Lemma append_eq_length (a b s s' : string) :
  Stdlib.Strings.String.length s = Stdlib.Strings.String.length s' ->
  a +:+ s = b +:+ s' -> a = b /\ s = s'.
Proof.
  intros Hl. revert b. induction a as [|c a IH]; intros b H.
  - destruct b as [|d b]; [simpl in H; auto|].
    apply (f_equal Stdlib.Strings.String.length) in H. rewrite !append_length in H.
    simpl in H. lia.
  - destruct b as [|d b].
    + apply (f_equal Stdlib.Strings.String.length) in H. rewrite !append_length in H.
      simpl in H. lia.
    + simpl in H. injection H as -> H. destruct (IH b H) as [-> ->]. auto.
Qed.

(** X10: In one output directory two maps never share a file: the name
    tells the transmitter and the mode. *)
Theorem outputFile_tells_the_map (cfg1 cfg2 : config) (t1 t2 : string) :
  OutputDirectory cfg1 = OutputDirectory cfg2 ->
  outputFile cfg1 t1 = outputFile cfg2 t2 ->
  t1 = t2 /\ RcvMapFlag cfg1 = RcvMapFlag cfg2.
Proof.
  intros Hd H. unfold outputFile in H. rewrite Hd in H.
  destruct (RcvMapFlag cfg1), (RcvMapFlag cfg2);
    apply (inj (String.app _)) in H; apply (inj (String.app _)) in H;
    apply append_eq_length in H; try reflexivity;
    destruct H as [-> H]; try discriminate H; auto.
Qed.

Lemma outputFile_tells_the_map_witness :
  "BRAVO" = "BRAVO" /\
  RcvMapFlag (Sample.settings false "ALL") = RcvMapFlag (Sample.settings false "alfa").
Proof.
  apply (outputFile_tells_the_map (Sample.settings false "ALL") (Sample.settings false "alfa")
           "BRAVO" "BRAVO"); reflexivity.
Defined.

(** ** What the steps of a map keep *)

Section Steps.

Variable DrawGlyphs : RGBA -> string -> Point -> option RGBA.
Variable cfg : config.

(** A relation between the world before and after that every drawing
    step respects. *)
Variable R : world -> world -> Prop.
Hypothesis R_refl : forall w, R w w.
Hypothesis R_trans : forall w1 w2 w3, R w1 w2 -> R w2 w3 -> R w1 w3.
Hypothesis R_Println : forall line w, R w (Println line w).
Hypothesis R_setCursor : forall x y w, R w (setCursor x y w).
Hypothesis R_drawOutput :
  forall r src sp op w, R w (setOutputMap (Draw (outputMap w) r src sp op) w).
Hypothesis R_drawText :
  forall r src sp op w, R w (setTextMap (Draw (textMap w) r src sp op) w).
Hypothesis R_DrawString : forall s pt w v, DrawString DrawGlyphs s pt w = Some v -> R w v.

Lemma orFatal_Ok {A : Type} (msg : string) (o : option A) (a : A) :
  orFatal msg o = Ok a -> o = Some a.
Proof. destruct o; simpl; congruence. Qed.

Lemma bind_Ok_inv {A B : Type} (r : result A) (k : A -> result B) (b : B) :
  r ≫= k = Ok b -> exists a, r = Ok a /\ k a = Ok b.
Proof. destruct r as [a| |]; simpl; [eauto | discriminate | discriminate]. Qed.

Lemma forEach_steps {A : Type} (body : world -> A -> result world) (l : list A) :
  (forall w a v, body w a = Ok v -> R w v) ->
  forall w v, forEach body l w = Ok v -> R w v.
Proof.
  intros Hb. induction l as [|a l IH]; intros w v H.
  - injection H as <-. apply R_refl.
  - rewrite forEach_cons in H. apply bind_Ok_inv in H. destruct H as (w1 & H1 & H2).
    eapply R_trans; [eapply Hb, H1 | eapply IH, H2].
Qed.

Lemma plotIcon_steps (icon : option Image) (operator : operatorData) (w v : world) :
  plotIcon DrawGlyphs cfg icon operator w = Ok v -> R w v.
Proof.
  unfold plotIcon. destruct (streq (callsign operator) "").
  - intros [= <-]. apply R_Println.
  - destruct icon as [icon|]; [|discriminate].
    intros H. apply orFatal_Ok in H.
    eapply R_trans; [apply R_drawOutput | eapply R_DrawString, H].
Qed.

Lemma plotReceiver_steps (icons : gmap string Image) (operators : gmap string operatorData)
    (reports : gmap string (gmap string string)) (transmitter receiver : string) (w v : world) :
  plotReceiver DrawGlyphs cfg icons operators reports transmitter w receiver = Ok v -> R w v.
Proof.
  rewrite plotReceiver_plotted. destruct (plotted _ _ _ _).
  - apply plotIcon_steps.
  - intros [= <-]. apply R_refl.
Qed.

Lemma drawLegend_steps (items : list string) (w v : world) :
  drawLegend DrawGlyphs cfg items w = Ok v -> R w v.
Proof.
  unfold drawLegend. apply forEach_steps. clear w v. intros w item v H.
  unfold drawLegendItem in H. apply bind_Ok_inv in H. destruct H as (w1 & H1 & [= <-]).
  apply orFatal_Ok in H1.
  eapply R_trans; [eapply R_DrawString, H1 | apply R_setCursor].
Qed.

Lemma optional_steps (b : bool) (items : list string) (w v : world) :
  (if b then drawLegend DrawGlyphs cfg items w else Ok w) = Ok v -> R w v.
Proof.
  destruct b; [apply drawLegend_steps|]. intros [= <-]. apply R_refl.
Qed.

Lemma plotLegend_steps (transmitter : string) (opData : operatorData) (w v : world) :
  plotLegend DrawGlyphs cfg transmitter opData w = Ok v -> R w v.
Proof.
  unfold plotLegend. intros H.
  apply bind_Ok_inv in H. destruct H as (w1 & H1 & H).
  apply bind_Ok_inv in H. destruct H as (w2 & H2 & H).
  apply bind_Ok_inv in H. destruct H as (w3 & H3 & H).
  apply bind_Ok_inv in H. destruct H as (w4 & H4 & H).
  apply bind_Ok_inv in H. destruct H as (w5 & H5 & H).
  assert (R w w1) by (destruct (RcvMapFlag cfg); eapply drawLegend_steps, H1).
  apply drawLegend_steps in H2. apply optional_steps in H3, H4, H5, H.
  eauto 10.
Qed.

Lemma resetMaps_steps (baseMap : Image) (w : world) : R w (resetMaps cfg baseMap w).
Proof.
  unfold resetMaps, newDrawLegend.
  eapply R_trans; [apply R_drawOutput|].
  eapply R_trans; [apply R_drawText|]. apply R_setCursor.
Qed.

Lemma mergeText_steps (w : world) : R w (mergeText w).
Proof. unfold mergeText. apply R_drawOutput. Qed.

(** All of a map but the writing of its file. *)
Lemma drawing_steps (Create : string -> bool)
    (receiverOrder : string -> gmap string bool -> list string)
    (icons : gmap string Image) (baseMap : Image) (operators : gmap string operatorData)
    (rd : reportData) (transmitter : string) (w v : world) :
  generateMap DrawGlyphs Create receiverOrder cfg icons baseMap operators rd w transmitter = Ok v ->
  exists u, R w u /\ saveMap Create cfg transmitter u = Ok v.
Proof.
  unfold generateMap. intros H.
  apply bind_Ok_inv in H. destruct H as (w1 & H1 & H).
  apply bind_Ok_inv in H. destruct H as (w2 & H2 & H).
  apply bind_Ok_inv in H. destruct H as (w3 & H3 & H).
  exists (mergeText w3). split; [|exact H].
  eapply R_trans; [apply resetMaps_steps|].
  eapply R_trans; [eapply forEach_steps, H1; intros; eapply plotReceiver_steps; eassumption|].
  eapply R_trans; [eapply plotIcon_steps, H2|].
  eapply R_trans; [eapply plotLegend_steps, H3|]. apply mergeText_steps.
Qed.

End Steps.

(** ** The files of a run *)

Lemma outputFile_inj (cfg : config) (t1 t2 : string) :
  outputFile cfg t1 = outputFile cfg t2 -> t1 = t2.
Proof.
  unfold outputFile. intros H.
  destruct (RcvMapFlag cfg);
    apply (inj (String.app _)) in H; apply (inj (String.app _)) in H;
    apply append_eq_length in H; try reflexivity; apply H.
Qed.

Lemma DrawString_files (DrawGlyphs : RGBA -> string -> Point -> option RGBA)
    (s : string) (pt : Point) (w v : world) :
  DrawString DrawGlyphs s pt w = Some v -> files v = files w.
Proof.
  unfold DrawString. destruct (DrawGlyphs (textMap w) s pt); [|discriminate].
  intros [= <-]. reflexivity.
Qed.

Lemma saveMap_Ok (Create : string -> bool) (cfg : config) (transmitter : string) (u v : world) :
  saveMap Create cfg transmitter u = Ok v ->
  Create (outputFile cfg transmitter) = true /\
  v = writeFile (outputFile cfg transmitter) (outputMap u) u.
Proof.
  unfold saveMap. destruct (Create (outputFile cfg transmitter)); [|discriminate].
  intros [= <-]. auto.
Qed.

Section Files.

Variable DrawGlyphs : RGBA -> string -> Point -> option RGBA.
Variable Create : string -> bool.
Variable receiverOrder : string -> gmap string bool -> list string.
Variable cfg : config.
Variable icons : gmap string Image.
Variable baseMap : Image.
Variable operators : gmap string operatorData.
Variable rd : reportData.

(** A map that is generated adds its file, and no other. *)
Lemma generateMap_file (transmitter : string) (w v : world) :
  generateMap DrawGlyphs Create receiverOrder cfg icons baseMap operators rd w transmitter = Ok v ->
  Create (outputFile cfg transmitter) = true /\
  files v = files w ++ [(outputFile cfg transmitter, outputMap v)].
Proof.
  intros H.
  destruct (drawing_steps DrawGlyphs cfg (fun w v => files v = files w)
              (fun _ => eq_refl) (fun _ _ _ H1 H2 => eq_trans H2 H1)
              (fun _ _ => eq_refl) (fun _ _ _ => eq_refl)
              (fun _ _ _ _ _ => eq_refl) (fun _ _ _ _ _ => eq_refl)
              (DrawString_files DrawGlyphs)
              Create receiverOrder icons baseMap operators rd transmitter w v H)
    as (u & Hu & Hs).
  apply saveMap_Ok in Hs. destruct Hs as [Hc ->]. split; [exact Hc|].
  simpl. rewrite Hu. reflexivity.
Qed.

Lemma generateMaps_files (ts : list string) (w v : world) :
  forEach (generateMap DrawGlyphs Create receiverOrder cfg icons baseMap operators rd) ts w = Ok v ->
  (files v).*1 = (files w).*1 ++ (outputFile cfg <$> ts) /\
  Forall (fun t => Create (outputFile cfg t) = true) ts.
Proof.
  revert w. induction ts as [|t ts IH]; intros w H.
  - injection H as <-. rewrite app_nil_r. auto.
  - rewrite forEach_cons in H. apply bind_Ok_inv in H. destruct H as (w1 & H1 & H2).
    apply generateMap_file in H1. destruct H1 as [Hc Hf].
    destruct (IH _ H2) as [IH1 IH2]. split; [|constructor; assumption].
    rewrite IH1, Hf, fmap_app. simpl. rewrite <- app_assoc. reflexivity.
Qed.

End Files.

Lemma main_files (FromLatLon : Q -> Q -> bool -> option (Q * Q * Z * string))
    (ParseFloat : string -> option Q) (DrawGlyphs : RGBA -> string -> Point -> option RGBA)
    (Create : string -> bool) (transmitterOrder : gmap string bool -> list string)
    (receiverOrder : string -> gmap string bool -> list string) (cfg : config)
    (icons : gmap string Image) (baseMap : Image)
    (operatorRecords reportRecords : list (list string)) (w : world) :
  main FromLatLon ParseFloat DrawGlyphs Create transmitterOrder receiverOrder cfg
       icons baseMap operatorRecords reportRecords = Ok w ->
  exists rd,
    loadReports cfg reportRecords = Ok rd /\
    (files w).*1
    = outputFile cfg <$> transmitterOrder (selectTransmitters cfg (transmitters rd)).
Proof.
  unfold main. intros H.
  apply bind_Ok_inv in H. destruct H as (proj & _ & H).
  apply bind_Ok_inv in H. destruct H as (ops & _ & H).
  apply bind_Ok_inv in H. destruct H as (rd & Hrd & H).
  apply bind_Ok_inv in H. destruct H as (w1 & H1 & [= <-]).
  exists rd. split; [exact Hrd|].
  apply generateMaps_files in H1. destruct H1 as [H1 _]. exact H1.
Qed.

(** X11: A run that completes has written one file for each transmitter it
    selected and no other file: the names are those of the selected
    transmitters, each once.  (The [range] over the transmitters visits
    each key of the map once.) *)
Theorem main_writes_one_file_per_transmitter
    (FromLatLon : Q -> Q -> bool -> option (Q * Q * Z * string))
    (ParseFloat : string -> option Q) (DrawGlyphs : RGBA -> string -> Point -> option RGBA)
    (Create : string -> bool) (transmitterOrder : gmap string bool -> list string)
    (receiverOrder : string -> gmap string bool -> list string) (cfg : config)
    (icons : gmap string Image) (baseMap : Image)
    (operatorRecords reportRecords : list (list string)) (w : world) :
  (forall m, NoDup (transmitterOrder m)
             /\ forall k, k ∈ transmitterOrder m <-> is_Some (m !! k)) ->
  main FromLatLon ParseFloat DrawGlyphs Create transmitterOrder receiverOrder cfg
       icons baseMap operatorRecords reportRecords = Ok w ->
  exists rd,
    loadReports cfg reportRecords = Ok rd /\
    NoDup (files w).*1 /\
    forall name,
      name ∈ (files w).*1 <->
      exists t, name = outputFile cfg t /\ is_Some (selectTransmitters cfg (transmitters rd) !! t).
Proof.
  intros Hv H. destruct (main_files _ _ _ _ _ _ _ _ _ _ _ _ H) as (rd & Hrd & Hf).
  exists rd. split; [exact Hrd|]. rewrite Hf.
  destruct (Hv (selectTransmitters cfg (transmitters rd))) as [Hnd Hin]. split.
  - apply NoDup_fmap_2; [|exact Hnd]. intros t1 t2. apply outputFile_inj.
  - intros name. rewrite list_elem_of_fmap. split.
    + intros (t & -> & Ht). exists t. split; [reflexivity|]. apply Hin, Ht.
    + intros (t & -> & Ht). exists t. split; [reflexivity|]. apply Hin, Ht.
Qed.

Lemma keys_visitsKeys : visitsKeys Sample.keys.
Proof.
  intros m. unfold Sample.keys. split.
  - apply NoDup_fst_map_to_list.
  - intros k. rewrite list_elem_of_fmap. split.
    + intros ([k' v] & -> & H). apply elem_of_map_to_list in H. simpl. eauto.
    + intros [v H]. exists (k, v). split; [reflexivity|]. apply elem_of_map_to_list, H.
Qed.

Lemma main_writes_one_file_per_transmitter_witness :
  exists w,
    Sample.run (Sample.settings false "ALL") Sample.icons
      Sample.operatorRecords Sample.reportRecords = Ok w /\
    exists rd,
      loadReports (Sample.settings false "ALL") Sample.reportRecords = Ok rd /\
      NoDup (files w).*1 /\
      forall name,
        name ∈ (files w).*1 <->
        exists t, name = outputFile (Sample.settings false "ALL") t
                  /\ is_Some (selectTransmitters (Sample.settings false "ALL") (transmitters rd) !! t).
Proof.
  eexists. split; [vm_compute; reflexivity|].
  apply (main_writes_one_file_per_transmitter Sample.flatUTM Sample.parseWhole Sample.blankFont
           Sample.anyFile Sample.keys (fun _ => Sample.keys) (Sample.settings false "ALL")
           Sample.icons Sample.baseMap Sample.operatorRecords Sample.reportRecords).
  - exact keys_visitsKeys.
  - vm_compute. reflexivity.
Defined.

(** ** The text of a map *)

Section Text.

Variable DrawGlyphs : RGBA -> string -> Point -> option RGBA.
Variable Create : string -> bool.
Variable receiverOrder : string -> gmap string bool -> list string.
Variable cfg : config.
Variable icons : gmap string Image.
Variable baseMap : Image.
Variable operators : gmap string operatorData.
Variable rd : reportData.

Hypothesis glyphs_ok : forall dst s pt, is_Some (DrawGlyphs dst s pt).

Lemma plotReceivers_labels (transmitter : string) (keys : list string) (w : world) :
  exists v,
    forEach (plotReceiver DrawGlyphs cfg icons operators (reports rd) transmitter) keys w = Ok v /\
    (drawn v).*1 = (drawn w).*1 ++ receiverLabels icons operators (reports rd) transmitter keys.
Proof.
  unfold receiverLabels. revert w. induction keys as [|r keys IH]; intros w.
  - exists w. rewrite app_nil_r. auto.
  - rewrite forEach_cons, plotReceiver_plotted. cbn [List.filter].
    destruct (plotted icons (reports rd) transmitter r) eqn:Ep; cbn [andb].
    + assert (Hi : is_Some (icons !! lookup2 (reports rd) transmitter r)).
      { unfold plotted in Ep. apply andb_prop in Ep. destruct Ep as [_ Ep].
        apply bool_decide_eq_true in Ep. exact Ep. }
      destruct Hi as [icon Hi]. rewrite Hi.
      destruct (streq (callsign (operatorOf operators r)) "") eqn:Ec; cbn [negb].
      * rewrite plotIcon_missing_operator by (apply String.eqb_eq, Ec). rewrite bind_Ok.
        destruct (IH (Println "Skipping icon for missing operator" w)) as (v & Hv & Hd).
        exists v. auto.
      * assert (Hn : callsign (operatorOf operators r) <> "") by (apply String.eqb_neq, Ec).
        destruct (plotIcon_draws DrawGlyphs cfg glyphs_ok icon (operatorOf operators r) w Hn)
          as (w1 & -> & _ & Hd1 & _).
        rewrite bind_Ok. destruct (IH w1) as (v & Hv & Hd).
        exists v. split; [exact Hv|]. rewrite Hd, Hd1. cbn [List.map].
        rewrite <- app_assoc. reflexivity.
    + rewrite bind_Ok. apply IH.
Qed.

(** The text of the map of a transmitter that is a known operator. *)
Lemma generateMap_known_transmitter (transmitter : string) (icon : Image) (w : world) :
  Create (outputFile cfg transmitter) = true ->
  icons !! TransIcon cfg = Some icon ->
  callsign (operatorOf operators transmitter) <> "" ->
  exists v,
    generateMap DrawGlyphs Create receiverOrder cfg icons baseMap operators rd w transmitter = Ok v /\
    (drawn v).*1
    = (drawn w).*1
      ++ receiverLabels icons operators (reports rd) transmitter
           (receiverOrder transmitter (receivers rd))
      ++ [callsign (operatorOf operators transmitter)]
      ++ legendLines cfg transmitter (operatorOf operators transmitter).
Proof.
  intros Hc Hi Hn. unfold generateMap.
  destruct (plotReceivers_labels transmitter (receiverOrder transmitter (receivers rd))
              (resetMaps cfg baseMap w)) as (w1 & -> & Hd1).
  rewrite bind_Ok, Hi.
  destruct (plotIcon_draws DrawGlyphs cfg glyphs_ok icon (operatorOf operators transmitter) w1 Hn)
    as (w2 & -> & _ & Hd2 & _).
  rewrite bind_Ok.
  destruct (plotLegend_draws DrawGlyphs cfg glyphs_ok transmitter
              (operatorOf operators transmitter) w2) as (w3 & -> & Hd3 & _).
  rewrite bind_Ok. unfold saveMap. rewrite Hc.
  eexists. split; [reflexivity|].
  change (drawn (writeFile _ _ (mergeText w3))) with (drawn w3).
  rewrite Hd3, Hd2, Hd1. unfold legendLines.
  change (drawn (resetMaps cfg baseMap w)) with (drawn w).
  rewrite <- !app_assoc. reflexivity.
Qed.

(** With a font that renders, a map fails only on a file that cannot be
    created or on a transmitter icon that is missing. *)
Lemma generateMap_completes (transmitter : string) (w : world) :
  Create (outputFile cfg transmitter) = true ->
  is_Some (icons !! TransIcon cfg) ->
  exists v,
    generateMap DrawGlyphs Create receiverOrder cfg icons baseMap operators rd w transmitter = Ok v.
Proof.
  intros Hc [icon Hi].
  destruct (decide (callsign (operatorOf operators transmitter) = "")) as [E|N].
  - unfold generateMap.
    destruct (plotReceivers_labels transmitter (receiverOrder transmitter (receivers rd))
                (resetMaps cfg baseMap w)) as (w1 & -> & _).
    rewrite bind_Ok, plotIcon_missing_operator by exact E. rewrite bind_Ok.
    destruct (plotLegend_draws DrawGlyphs cfg glyphs_ok transmitter
                (operatorOf operators transmitter)
                (Println "Skipping icon for missing operator" w1)) as (w3 & -> & _).
    rewrite bind_Ok. unfold saveMap. rewrite Hc. eauto.
  - destruct (generateMap_known_transmitter transmitter icon w Hc Hi N) as (v & H & _). eauto.
Qed.

Lemma generateMaps_complete (ts : list string) (w : world) :
  (forall name, Create name = true) ->
  is_Some (icons !! TransIcon cfg) ->
  exists v,
    forEach (generateMap DrawGlyphs Create receiverOrder cfg icons baseMap operators rd) ts w = Ok v.
Proof.
  intros Hc Hi. revert w. induction ts as [|t ts IH]; intros w; [eexists; reflexivity|].
  rewrite forEach_cons.
  destruct (generateMap_completes t w (Hc _) Hi) as (w1 & ->). rewrite bind_Ok. apply IH.
Qed.

End Text.

(** X12: On the map of a transmitter that is a known operator, when the
    font renders, the file can be created and the transmitter icon is in
    the catalog, the strings are drawn in this order: the labels of the
    receivers that have a report with an icon and are known operators, in
    the order of the loop; the label of the transmitter; the legend. *)
Theorem map_text_in_order
    (DrawGlyphs : RGBA -> string -> Point -> option RGBA) (Create : string -> bool)
    (receiverOrder : string -> gmap string bool -> list string) (cfg : config)
    (icons : gmap string Image) (baseMap : Image) (operators : gmap string operatorData)
    (rd : reportData) (transmitter : string) (icon : Image) (w : world) :
  (forall dst s pt, is_Some (DrawGlyphs dst s pt)) ->
  Create (outputFile cfg transmitter) = true ->
  icons !! TransIcon cfg = Some icon ->
  callsign (operatorOf operators transmitter) <> "" ->
  exists v,
    generateMap DrawGlyphs Create receiverOrder cfg icons baseMap operators rd w transmitter = Ok v /\
    (drawn v).*1
    = (drawn w).*1
      ++ receiverLabels icons operators (reports rd) transmitter
           (receiverOrder transmitter (receivers rd))
      ++ [callsign (operatorOf operators transmitter)]
      ++ legendLines cfg transmitter (operatorOf operators transmitter).
Proof. intros Hg. apply generateMap_known_transmitter, Hg. Qed.

Lemma map_text_in_order_witness :
  exists v,
    generateMap Sample.blankFont Sample.anyFile (fun _ => Sample.keys) (Sample.settings false "ALL")
      Sample.icons Sample.baseMap (<["ALFA" := Sample.alfa]> ∅)
      {| reports := {["ALFA" := {["BRAVO" := "good"]}]};
         receivers := {["BRAVO" := true]}; transmitters := {["ALFA" := true]} |}
      Sample.blank "ALFA" = Ok v /\
    (drawn v).*1
    = ["ALFA"; "Transmission Map (who can hear me) for ALFA"; "Frequency: 146.535 MHz Simplex";
       "Transmitter Power: 5 Watts"; "Antenna Type: Yagi"; "Antenna Height: 30 feet"].
Proof.
  destruct (map_text_in_order Sample.blankFont Sample.anyFile (fun _ => Sample.keys)
           (Sample.settings false "ALL") Sample.icons Sample.baseMap (<["ALFA" := Sample.alfa]> ∅)
           {| reports := {["ALFA" := {["BRAVO" := "good"]}]};
              receivers := {["BRAVO" := true]}; transmitters := {["ALFA" := true]} |}
           "ALFA" (Sample.solid 1 1 Sample.red) Sample.blank) as (v & Hv & Hd).
  - intros dst s pt. exists dst. reflexivity.
  - reflexivity.
  - reflexivity.
  - discriminate.
  - exists v. split; [exact Hv|]. rewrite Hd. vm_compute. reflexivity.
Defined.

(** X13: Once the projector is built and the two files are loaded, a run
    completes whenever the font renders, the files can be created and the
    icon catalog has the transmitter icon: a pair without a report, a
    category without an icon and a call sign without an operator record
    never end it. *)
Theorem main_completes
    (FromLatLon : Q -> Q -> bool -> option (Q * Q * Z * string))
    (ParseFloat : string -> option Q) (DrawGlyphs : RGBA -> string -> Point -> option RGBA)
    (Create : string -> bool) (transmitterOrder : gmap string bool -> list string)
    (receiverOrder : string -> gmap string bool -> list string) (cfg : config)
    (icons : gmap string Image) (baseMap : Image)
    (operatorRecords reportRecords : list (list string))
    (gpsToPixel : gpsCoord -> result Point) (operators : gmap string operatorData)
    (rd : reportData) :
  newGpsToPixel FromLatLon cfg baseMap = Ok gpsToPixel ->
  loadOperators ParseFloat gpsToPixel operatorRecords = Ok operators ->
  loadReports cfg reportRecords = Ok rd ->
  (forall dst s pt, is_Some (DrawGlyphs dst s pt)) ->
  (forall name, Create name = true) ->
  is_Some (icons !! TransIcon cfg) ->
  exists w,
    main FromLatLon ParseFloat DrawGlyphs Create transmitterOrder receiverOrder cfg
         icons baseMap operatorRecords reportRecords = Ok w.
Proof.
  intros Hp Ho Hr Hg Hc Hi. unfold main.
  rewrite Hp, bind_Ok, Ho, bind_Ok, Hr, bind_Ok.
  match goal with
  | |- context [forEach ?body ?ts ?w0] =>
      destruct (generateMaps_complete DrawGlyphs Create receiverOrder cfg icons baseMap operators
                  {| reports := reports rd; receivers := receivers rd;
                     transmitters := selectTransmitters cfg (transmitters rd) |}
                  Hg ts w0 Hc Hi) as (v & ->)
  end.
  rewrite bind_Ok. eauto.
Qed.

Lemma main_completes_witness :
  exists w,
    main Sample.flatUTM Sample.parseWhole Sample.blankFont Sample.anyFile Sample.keys
         (fun _ => Sample.keys) (Sample.settings false "ALL")
         Sample.icons Sample.baseMap Sample.operatorRecords Sample.reportRecords = Ok w.
Proof.
  eapply (main_completes Sample.flatUTM Sample.parseWhole Sample.blankFont Sample.anyFile
            Sample.keys (fun _ => Sample.keys) (Sample.settings false "ALL")
            Sample.icons Sample.baseMap Sample.operatorRecords Sample.reportRecords).
  - apply (newGpsToPixel_closure Sample.flatUTM (Sample.settings false "ALL") Sample.baseMap
             2 0 0 2 [] []
             (F64.mul 0 88000) (F64.mul 2 111000) (F64.mul 2 88000) (F64.mul 0 111000)
             10 10 "S" "S"); reflexivity.
  - vm_compute. reflexivity.
  - vm_compute. reflexivity.
  - intros dst s pt. exists dst. reflexivity.
  - reflexivity.
  - vm_compute. eauto.
Defined.

(** ** When the projector and the operators load *)

(** X14: [newGpsToPixel] returns a projector exactly when each corner
    of the configuration has at least two numbers and the UTM conversion
    accepts both corners; the size of the image plays no part (an image
    without width gives a projector all the same). *)
Theorem newGpsToPixel_succeeds_iff
    (FromLatLon : Q -> Q -> bool -> option (Q * Q * Z * string)) (cfg : config) (mapImage : Image) :
  (exists proj, newGpsToPixel FromLatLon cfg mapImage = Ok proj)
  <-> exists latN longW restNW latS longE restSE,
        MapNWCorner cfg = latN :: longW :: restNW /\
        MapSECorner cfg = latS :: longE :: restSE /\
        is_Some (FromLatLon latN longW false) /\
        is_Some (FromLatLon latS longE false).
Proof.
  split.
  - intros [proj Hp]. unfold newGpsToPixel in Hp.
    destruct (MapNWCorner cfg) as [|latN [|longW restNW]] eqn:ENW; try discriminate.
    simpl in Hp.
    destruct (FromLatLon latN longW false) as [[[[e1 n1] z1] l1]|] eqn:U1; [|discriminate].
    simpl in Hp.
    destruct (MapSECorner cfg) as [|latS [|longE restSE]] eqn:ESE; try discriminate.
    simpl in Hp.
    destruct (FromLatLon latS longE false) as [[[[e2 n2] z2] l2]|] eqn:U2; [|discriminate].
    exists latN, longW, restNW, latS, longE, restSE.
    rewrite U1, U2. repeat split; eauto.
  - intros (latN & longW & restNW & latS & longE & restSE & ENW & ESE & [[[[e1 n1] z1] l1] U1]
            & [[[[e2 n2] z2] l2] U2]).
    eexists. apply (newGpsToPixel_closure FromLatLon cfg mapImage latN longW latS longE
                      restNW restSE e1 n1 e2 n2 z1 z2 l1 l2 ENW ESE U1 U2).
Qed.

(** X15: With corners that the projection places apart and a base image
    at most 2^31 pixels wide and high, a position whose UTM coordinates
    lie between those of the two corners lands on the image or on its
    right or bottom edge: its pixel has 0 <= X <= width and
    0 <= Y <= height. *)
Theorem inside_the_corners_lands_on_the_image
    (FromLatLon : Q -> Q -> bool -> option (Q * Q * Z * string)) (cfg : config) (baseMap : Image)
    (latN longW latS longE : Q) (restNW restSE : list Q)
    (eastingNW northingNW eastingSE northingSE : Q) (zoneNW zoneSE : Z)
    (letterNW letterSE : string)
    (gps : gpsCoord) (easting northing : Q) (zone : Z) (letter : string) :
  MapNWCorner cfg = latN :: longW :: restNW ->
  MapSECorner cfg = latS :: longE :: restSE ->
  FromLatLon latN longW false = Some (eastingNW, northingNW, zoneNW, letterNW) ->
  FromLatLon latS longE false = Some (eastingSE, northingSE, zoneSE, letterSE) ->
  (eastingNW < eastingSE)%Q -> (northingSE < northingNW)%Q ->
  (0 < Dx (Bounds baseMap) <= 2 ^ 31)%Z -> (0 < Dy (Bounds baseMap) <= 2 ^ 31)%Z ->
  FromLatLon (lat gps) (long gps) false = Some (easting, northing, zone, letter) ->
  (eastingNW <= easting <= eastingSE)%Q -> (northingSE <= northing <= northingNW)%Q ->
  exists proj p,
    newGpsToPixel FromLatLon cfg baseMap = Ok proj /\ proj gps = Ok p /\
    (0 <= X p <= Dx (Bounds baseMap))%Z /\ (0 <= Y p <= Dy (Bounds baseMap))%Z.
Proof.
  intros HcNW HcSE HuNW HuSE He Hn Hx Hy Hu [He1 He2] [Hn1 Hn2].
  destruct (corner_pixels FromLatLon cfg baseMap latN longW latS longE restNW restSE
              eastingNW northingNW eastingSE northingSE zoneNW zoneSE letterNW letterSE
              HcNW HcSE HuNW HuSE He Hn Hx Hy) as (proj & Hp & HNW & HSE).
  pose proof (gpsToPixel_at FromLatLon cfg baseMap latN longW latS longE restNW restSE
                eastingNW northingNW eastingSE northingSE zoneNW zoneSE letterNW letterSE
                HcNW HcSE HuNW HuSE proj) as Hat.
  rewrite (Hat {| lat := latN; long := longW |} _ _ _ _ Hp HuNW) in HNW.
  rewrite (Hat {| lat := latS; long := longE |} _ _ _ _ Hp HuSE) in HSE.
  injection HNW as X0 Y0. injection HSE as X1 Y1.
  assert (Hxm : (0 < F64.div (F64.sub eastingSE eastingNW) (F64.of_int (Dx (Bounds baseMap))))%Q)
    by (apply F64Facts.scale_pos; [assumption | lia]).
  assert (Hym : (0 < F64.div (F64.sub northingNW northingSE) (F64.of_int (Dy (Bounds baseMap))))%Q)
    by (apply F64Facts.scale_pos; [assumption | lia]).
  exists proj. eexists. split; [exact Hp|]. split; [apply (Hat gps _ _ _ _ Hp Hu)|].
  cbn [X Y]. repeat split.
  - rewrite <- X0 at 1. apply F64Facts.pixel_mono; assumption.
  - rewrite <- X1 at 2. apply F64Facts.pixel_mono; assumption.
  - rewrite <- Y0 at 1. apply F64Facts.pixel_antimono; assumption.
  - rewrite <- Y1 at 2. apply F64Facts.pixel_antimono; assumption.
Qed.

Lemma inside_the_corners_lands_on_the_image_witness :
  exists proj p,
    newGpsToPixel Sample.flatUTM (Sample.settings false "ALL") Sample.baseMap = Ok proj /\
    proj {| lat := 1; long := 1 |} = Ok p /\
    (0 <= X p <= Dx (Bounds Sample.baseMap))%Z /\ (0 <= Y p <= Dy (Bounds Sample.baseMap))%Z.
Proof.
  apply (inside_the_corners_lands_on_the_image Sample.flatUTM (Sample.settings false "ALL")
           Sample.baseMap 2 0 0 2 [] []
           (F64.mul 0 88000) (F64.mul 2 111000) (F64.mul 2 88000) (F64.mul 0 111000)
           10 10 "S" "S" {| lat := 1; long := 1 |} (F64.mul 1 88000) (F64.mul 1 111000) 10 "S").
  - reflexivity.
  - reflexivity.
  - reflexivity.
  - reflexivity.
  - vm_compute. reflexivity.
  - vm_compute. reflexivity.
  - vm_compute. split; [reflexivity | discriminate].
  - vm_compute. split; [reflexivity | discriminate].
  - reflexivity.
  - vm_compute. split; discriminate.
  - vm_compute. split; discriminate.
Defined.

Lemma loadOperator_unparsed (ParseFloat : string -> option Q) (gpsToPixel : gpsCoord -> result Point)
    (operators : gmap string operatorData) (record : list string) (i : nat) (field : string) :
  7 <= length record -> In i [1; 2; 3; 5; 6] ->
  record !! i = Some field -> ParseFloat field = None ->
  exists msg, loadOperator ParseFloat gpsToPixel operators record = Fatal msg.
Proof.
  intros Hl Hi Hf Hp.
  destruct record as [|c0 [|c1 [|c2 [|c3 [|c4 [|c5 [|c6 rest]]]]]]]; simpl in Hl; try lia.
  unfold loadOperator. cbn [index nth_error]. rewrite !bind_Ok.
  destruct (ParseFloat c1) as [q1|] eqn:E1; cbn [orFatal]; [rewrite !bind_Ok|eexists; reflexivity].
  destruct (ParseFloat c2) as [q2|] eqn:E2; cbn [orFatal]; [rewrite !bind_Ok|eexists; reflexivity].
  destruct (ParseFloat c3) as [q3|] eqn:E3; cbn [orFatal]; [rewrite !bind_Ok|eexists; reflexivity].
  destruct (ParseFloat c5) as [q5|] eqn:E5; cbn [orFatal]; [rewrite !bind_Ok|eexists; reflexivity].
  destruct (ParseFloat c6) as [q6|] eqn:E6; cbn [orFatal]; [rewrite !bind_Ok|eexists; reflexivity].
  exfalso. simpl in Hi.
  destruct Hi as [<-|[<-|[<-|[<-|[<-|[]]]]]]; cbn in Hf; injection Hf as <-; congruence.
Qed.

(** X16: A record of the operator file with seven fields whose latitude,
    longitude, power, gain or height does not parse as a number ends the
    load with a fatal error, once the records before it are loaded: an
    empty field is never read as the value for an unknown attribute,
    which has to be written out as -100. *)
Theorem loadOperators_wants_numbers (ParseFloat : string -> option Q)
    (gpsToPixel : gpsCoord -> result Point) (before after : list (list string))
    (record : list string) (operators : gmap string operatorData) (i : nat) (field : string) :
  loadOperators ParseFloat gpsToPixel before = Ok operators ->
  7 <= length record -> In i [1; 2; 3; 5; 6] ->
  record !! i = Some field -> ParseFloat field = None ->
  exists msg, loadOperators ParseFloat gpsToPixel (before ++ record :: after) = Fatal msg.
Proof.
  intros Hb Hl Hi Hf Hp. unfold loadOperators in *.
  rewrite forEach_app, Hb, bind_Ok, forEach_cons.
  destruct (loadOperator_unparsed ParseFloat gpsToPixel operators record i field Hl Hi Hf Hp)
    as [msg ->].
  exists msg. reflexivity.
Qed.

Lemma loadOperators_wants_numbers_witness :
  exists msg,
    loadOperators Sample.parseWhole (fun _ => Ok {| X := 0; Y := 0 |})
      ([] ++ ["alfa"; "1"; "1"; ""; "Yagi"; "-100"; "30"] :: []) = Fatal msg.
Proof.
  apply (loadOperators_wants_numbers Sample.parseWhole (fun _ => Ok {| X := 0; Y := 0 |})
           [] [] ["alfa"; "1"; "1"; ""; "Yagi"; "-100"; "30"] ∅ 3 "").
  - reflexivity.
  - simpl. lia.
  - simpl. auto.
  - reflexivity.
  - reflexivity.
Defined.

(** ** Each map starts afresh *)

Section Afresh.

Variable DrawGlyphs : RGBA -> string -> Point -> option RGBA.
Variable cfg : config.

Lemma sameCanvas_refl (w : world) : sameCanvas w w.
Proof. repeat split. Qed.

Lemma DrawString_same (s : string) (pt : Point) (w w' v : world) :
  sameCanvas w w' -> DrawString DrawGlyphs s pt w = Some v ->
  exists v', DrawString DrawGlyphs s pt w' = Some v' /\ sameCanvas v v'.
Proof.
  intros (Ho & Ht & Hx & Hy) H. unfold DrawString in *. rewrite <- Ht.
  destruct (DrawGlyphs (textMap w) s pt) as [img|]; [|discriminate].
  injection H as <-. eexists. split; [reflexivity|]. repeat split; assumption.
Qed.

Lemma forEach_same {A : Type} (body : world -> A -> result world) (l : list A) :
  (forall a w w' v, sameCanvas w w' -> body w a = Ok v ->
                    exists v', body w' a = Ok v' /\ sameCanvas v v') ->
  forall w w' v, sameCanvas w w' -> forEach body l w = Ok v ->
                 exists v', forEach body l w' = Ok v' /\ sameCanvas v v'.
Proof.
  intros Hb. induction l as [|a l IH]; intros w w' v Hs H.
  - injection H as <-. exists w'. split; [reflexivity | exact Hs].
  - rewrite forEach_cons in *. apply bind_Ok_inv in H. destruct H as (u & Hu & H).
    destruct (Hb a w w' u Hs Hu) as (u' & -> & Hs'). rewrite bind_Ok. eapply IH; eauto.
Qed.

Lemma plotIcon_same (icon : option Image) (operator : operatorData) (w w' v : world) :
  sameCanvas w w' -> plotIcon DrawGlyphs cfg icon operator w = Ok v ->
  exists v', plotIcon DrawGlyphs cfg icon operator w' = Ok v' /\ sameCanvas v v'.
Proof.
  intros Hs H. unfold plotIcon in *.
  destruct (streq (callsign operator) "").
  - injection H as <-. eexists. split; [reflexivity|]. exact Hs.
  - destruct icon as [icon|]; [|discriminate].
    apply orFatal_Ok in H.
    match type of H with
    | DrawString _ ?s ?pt (setOutputMap (Draw _ ?r ?src ?sp ?op) w) = _ =>
        destruct (DrawString_same s pt (setOutputMap (Draw (outputMap w) r src sp op) w)
                    (setOutputMap (Draw (outputMap w') r src sp op) w') v)
          as (v' & Hv' & Hs'); [|exact H|]
    end.
    + destruct Hs as (Ho & Ht & Hx & Hy). repeat split; simpl; congruence.
    + exists v'. cbn zeta. rewrite Hv'. split; [reflexivity | exact Hs'].
Qed.

Lemma plotReceiver_same (icons : gmap string Image) (operators : gmap string operatorData)
    (reports : gmap string (gmap string string)) (transmitter receiver : string) (w w' v : world) :
  sameCanvas w w' ->
  plotReceiver DrawGlyphs cfg icons operators reports transmitter w receiver = Ok v ->
  exists v', plotReceiver DrawGlyphs cfg icons operators reports transmitter w' receiver = Ok v'
             /\ sameCanvas v v'.
Proof.
  intros Hs H. unfold plotReceiver in *.
  repeat match type of H with
         | context [if ?c then _ else _] => destruct c
         | context [match ?c with _ => _ end] => destruct c
         end;
    try discriminate;
    try (injection H as <-; eexists; split; [reflexivity | exact Hs]);
    try (eapply plotIcon_same; eauto).
Qed.

Lemma drawLegend_same (items : list string) (w w' v : world) :
  sameCanvas w w' -> drawLegend DrawGlyphs cfg items w = Ok v ->
  exists v', drawLegend DrawGlyphs cfg items w' = Ok v' /\ sameCanvas v v'.
Proof.
  unfold drawLegend. apply forEach_same. clear. intros item w w' v Hs H.
  unfold drawLegendItem in *. apply bind_Ok_inv in H. destruct H as (u & Hu & H).
  apply orFatal_Ok in Hu. injection H as <-.
  assert (Hc : cursorX w = cursorX w' /\ cursorY w = cursorY w') by (split; apply Hs).
  destruct Hc as [Hx Hy]. rewrite <- Hx, <- Hy.
  destruct (DrawString_same _ _ w w' u Hs Hu) as (u' & -> & Hs').
  cbn [orFatal]. rewrite bind_Ok. eexists. split; [reflexivity|].
  destruct Hs' as (Ho & Ht & Hx' & Hy'). repeat split; simpl; congruence.
Qed.

Lemma optional_same (b : bool) (items : list string) (w w' v : world) :
  sameCanvas w w' ->
  (if b then drawLegend DrawGlyphs cfg items w else Ok w) = Ok v ->
  exists v', (if b then drawLegend DrawGlyphs cfg items w' else Ok w') = Ok v' /\ sameCanvas v v'.
Proof.
  intros Hs H. destruct b; [eapply drawLegend_same; eauto|].
  injection H as <-. eexists. split; [reflexivity | exact Hs].
Qed.

Lemma plotLegend_same (transmitter : string) (opData : operatorData) (w w' v : world) :
  sameCanvas w w' -> plotLegend DrawGlyphs cfg transmitter opData w = Ok v ->
  exists v', plotLegend DrawGlyphs cfg transmitter opData w' = Ok v' /\ sameCanvas v v'.
Proof.
  intros Hs H. unfold plotLegend in *.
  apply bind_Ok_inv in H. destruct H as (u1 & H1 & H).
  apply bind_Ok_inv in H. destruct H as (u2 & H2 & H). cbn zeta in H.
  apply bind_Ok_inv in H. destruct H as (u3 & H3 & H).
  apply bind_Ok_inv in H. destruct H as (u4 & H4 & H).
  apply bind_Ok_inv in H. destruct H as (u5 & H5 & H).
  assert (E1 : exists u1',
             (if RcvMapFlag cfg
              then drawLegend DrawGlyphs cfg ["Receive Map (who can I hear) for " +:+ transmitter] w'
              else drawLegend DrawGlyphs cfg ["Transmission Map (who can hear me) for " +:+ transmitter] w')
             = Ok u1' /\ sameCanvas u1 u1').
  { destruct (RcvMapFlag cfg); eapply drawLegend_same; eauto. }
  destruct E1 as (u1' & -> & Hs1). rewrite bind_Ok.
  destruct (drawLegend_same _ _ _ _ Hs1 H2) as (u2' & -> & Hs2). rewrite bind_Ok. cbn zeta.
  destruct (optional_same _ _ _ _ _ Hs2 H3) as (u3' & -> & Hs3). rewrite bind_Ok.
  destruct (optional_same _ _ _ _ _ Hs3 H4) as (u4' & -> & Hs4). rewrite bind_Ok.
  destruct (optional_same _ _ _ _ _ Hs4 H5) as (u5' & -> & Hs5). rewrite bind_Ok.
  eapply optional_same; eauto.
Qed.

Lemma mergeText_same (w w' : world) : sameCanvas w w' -> sameCanvas (mergeText w) (mergeText w').
Proof.
  intros (Ho & Ht & Hx & Hy). unfold mergeText. repeat split; simpl; congruence.
Qed.

End Afresh.

Section Reset.

Variable cfg : config.
Variable baseMap : Image.
Variables W H : Z.

Hypothesis bounds_baseMap :
  Bounds baseMap = {| Min := {| X := 0; Y := 0 |}; Max := {| X := W; Y := H |} |}.
Hypothesis width_range : (0 <= W <= 1000000000)%Z.
Hypothesis height_range : (0 <= H <= 1000000000)%Z.
Hypothesis colors_baseMap : forall x y, validColor (At baseMap x y).

Lemma Pix_determined (a a' : RGBA) (f : nat -> Z) :
  length (Pix a) = length (Pix a') ->
  (forall j d, Pix a !! j = Some d -> d = f j) ->
  (forall j d, Pix a' !! j = Some d -> d = f j) ->
  Pix a = Pix a'.
Proof.
  intros Hl Ha Ha'. apply list_eq. intros j.
  destruct (Pix a !! j) as [d|] eqn:E; destruct (Pix a' !! j) as [d'|] eqn:E'.
  - rewrite (Ha j d E), (Ha' j d' E'). reflexivity.
  - apply lookup_lt_Some in E. apply lookup_ge_None in E'. lia.
  - apply lookup_lt_Some in E'. apply lookup_ge_None in E. lia.
  - reflexivity.
Qed.

Lemma resetMaps_same (w w' : world) :
  shapedBy (Bounds baseMap) (outputMap w) -> shapedBy (Bounds baseMap) (textMap w) ->
  shapedBy (Bounds baseMap) (outputMap w') -> shapedBy (Bounds baseMap) (textMap w') ->
  sameCanvas (resetMaps cfg baseMap w) (resetMaps cfg baseMap w').
Proof.
  rewrite bounds_baseMap. intros Ho Ht Ho' Ht'.
  assert (Eo : outputMap (resetMaps cfg baseMap w) = outputMap (resetMaps cfg baseMap w')).
  { apply RGBA_eq.
    - apply (Pix_determined _ _
               (fun j => Z.shiftr (channel (At baseMap (Z.of_nat j mod (4 * W) / 4)
                                               (Z.of_nat j / (4 * W)))
                                           (Z.of_nat j mod 4)) 8)).
      + rewrite !resetMaps_outputMap, !Draw_length.
        destruct Ho as (_ & _ & ->), Ho' as (_ & _ & ->). reflexivity.
      + intros j d. apply (resetMaps_copies_baseMap cfg baseMap W H); assumption.
      + intros j d. apply (resetMaps_copies_baseMap cfg baseMap W H); assumption.
    - rewrite !resetMaps_outputMap, !Draw_Stride.
      destruct Ho as (_ & -> & _), Ho' as (_ & -> & _). reflexivity.
    - rewrite !resetMaps_outputMap, !Draw_Rect.
      destruct Ho as (-> & _), Ho' as (-> & _). reflexivity. }
  assert (Et : textMap (resetMaps cfg baseMap w) = textMap (resetMaps cfg baseMap w')).
  { apply RGBA_eq.
    - apply (Pix_determined _ _ (fun _ => 0%Z)).
      + rewrite !resetMaps_textMap, !Draw_length.
        destruct Ht as (_ & _ & ->), Ht' as (_ & _ & ->). reflexivity.
      + intros j d. apply (resetMaps_clears_text cfg baseMap W H); assumption.
      + intros j d. apply (resetMaps_clears_text cfg baseMap W H); assumption.
    - rewrite !resetMaps_textMap, !Draw_Stride.
      destruct Ht as (_ & -> & _), Ht' as (_ & -> & _). reflexivity.
    - rewrite !resetMaps_textMap, !Draw_Rect.
      destruct Ht as (-> & _), Ht' as (-> & _). reflexivity. }
  split; [exact Eo|]. split; [exact Et|].
  unfold resetMaps, newDrawLegend. simpl.
  destruct Ht as (-> & _), Ht' as (-> & _). split; reflexivity.
Qed.

End Reset.

Lemma NewRGBA_shapedBy (r : Rectangle) : shapedBy r (NewRGBA r).
Proof. unfold shapedBy, NewRGBA. simpl. rewrite repeat_length. auto. Qed.

Section Shape.

Variable DrawGlyphs : RGBA -> string -> Point -> option RGBA.
Variable Create : string -> bool.
Variable receiverOrder : string -> gmap string bool -> list string.
Variable cfg : config.
Variable icons : gmap string Image.
Variable baseMap : Image.
Variable operators : gmap string operatorData.
Variable rd : reportData.

(** The font draws into the image it is given. *)
Hypothesis glyphs_shape :
  forall dst s pt img,
    DrawGlyphs dst s pt = Some img -> shapedBy (Bounds baseMap) dst -> shapedBy (Bounds baseMap) img.

Local Abbreviation shaped w :=
  (shapedBy (Bounds baseMap) (outputMap w) /\ shapedBy (Bounds baseMap) (textMap w)) (only parsing).

Lemma generateMap_shape (transmitter : string) (w v : world) :
  generateMap DrawGlyphs Create receiverOrder cfg icons baseMap operators rd w transmitter = Ok v ->
  shaped w -> shaped v.
Proof.
  intros H.
  assert (Ro : forall r src sp op w0,
             shaped w0 -> shaped (setOutputMap (Draw (outputMap w0) r src sp op) w0)).
  { intros r src sp op w0 [Ho Ht]. split; [apply Draw_shapedBy, Ho | exact Ht]. }
  assert (Rt : forall r src sp op w0,
             shaped w0 -> shaped (setTextMap (Draw (textMap w0) r src sp op) w0)).
  { intros r src sp op w0 [Ho Ht]. split; [exact Ho | apply Draw_shapedBy, Ht]. }
  assert (Rd : forall s pt w0 v0, DrawString DrawGlyphs s pt w0 = Some v0 -> shaped w0 -> shaped v0).
  { intros s pt w0 v0 Hd [Ho Ht]. unfold DrawString in Hd.
    destruct (DrawGlyphs (textMap w0) s pt) as [img|] eqn:E; [|discriminate].
    injection Hd as <-. split; [exact Ho | exact (glyphs_shape _ _ _ _ E Ht)]. }
  destruct (drawing_steps DrawGlyphs cfg (fun w v => shaped w -> shaped v)
              (fun _ Hs => Hs) (fun _ _ _ H1 H2 Hs => H2 (H1 Hs))
              (fun _ _ Hs => Hs) (fun _ _ _ Hs => Hs) Ro Rt Rd
              Create receiverOrder icons baseMap operators rd transmitter w v H)
    as (u & Hu & Hs).
  apply saveMap_Ok in Hs. destruct Hs as [_ ->]. exact Hu.
Qed.

Lemma generateMaps_shape (ts : list string) (w v : world) :
  forEach (generateMap DrawGlyphs Create receiverOrder cfg icons baseMap operators rd) ts w = Ok v ->
  shaped w -> Forall (fun f => shapedBy (Bounds baseMap) f.2) (files w) ->
  Forall (fun f => shapedBy (Bounds baseMap) f.2) (files v).
Proof.
  revert w. induction ts as [|t ts IH]; intros w H Hs Hf.
  - injection H as <-. exact Hf.
  - rewrite forEach_cons in H. apply bind_Ok_inv in H. destruct H as (w1 & H1 & H2).
    pose proof (generateMap_shape t w w1 H1 Hs) as Hs1.
    apply (IH w1 H2 Hs1).
    destruct (generateMap_file _ _ _ _ _ _ _ _ _ _ _ H1) as [_ ->].
    apply Forall_app. split; [exact Hf|]. constructor; [apply Hs1 | constructor].
Qed.

End Shape.

(** X17: With a font that draws into the image it is given, every picture
    a run writes has the shape of the base map: its rectangle is the
    bounds of the base map, its stride four bytes for each pixel of a row
    and its buffer four bytes for each pixel. *)
Theorem pictures_have_the_shape_of_the_base_map
    (FromLatLon : Q -> Q -> bool -> option (Q * Q * Z * string))
    (ParseFloat : string -> option Q) (DrawGlyphs : RGBA -> string -> Point -> option RGBA)
    (Create : string -> bool) (transmitterOrder : gmap string bool -> list string)
    (receiverOrder : string -> gmap string bool -> list string) (cfg : config)
    (icons : gmap string Image) (baseMap : Image)
    (operatorRecords reportRecords : list (list string)) (w : world) :
  (forall dst s pt img,
     DrawGlyphs dst s pt = Some img ->
     shapedBy (Bounds baseMap) dst -> shapedBy (Bounds baseMap) img) ->
  main FromLatLon ParseFloat DrawGlyphs Create transmitterOrder receiverOrder cfg
       icons baseMap operatorRecords reportRecords = Ok w ->
  forall name picture,
    (name, picture) ∈ files w ->
    Rect picture = Bounds baseMap /\
    Stride picture = (4 * Dx (Bounds baseMap))%Z /\
    length (Pix picture) = Z.to_nat (4 * Dx (Bounds baseMap) * Dy (Bounds baseMap)).
Proof.
  intros Hg H name picture Hin. unfold main in H.
  apply bind_Ok_inv in H. destruct H as (proj & _ & H).
  apply bind_Ok_inv in H. destruct H as (ops & _ & H).
  apply bind_Ok_inv in H. destruct H as (rd & Hrd & H).
  apply bind_Ok_inv in H. destruct H as (w1 & H1 & [= <-]).
  apply (generateMaps_shape DrawGlyphs Create receiverOrder cfg icons baseMap ops _ Hg) in H1.
  - rewrite Forall_forall in H1. apply (H1 (name, picture)). exact Hin.
  - split; [apply NewRGBA_shapedBy | apply Draw_shapedBy, NewRGBA_shapedBy].
  - constructor.
Qed.

Lemma pictures_have_the_shape_of_the_base_map_witness :
  exists w,
    Sample.run (Sample.settings false "ALL") Sample.icons
      Sample.operatorRecords Sample.reportRecords = Ok w /\
    files w <> [] /\
    forall name picture,
      (name, picture) ∈ files w ->
      Rect picture = Bounds Sample.baseMap /\
      Stride picture = (4 * Dx (Bounds Sample.baseMap))%Z /\
      length (Pix picture) = Z.to_nat (4 * Dx (Bounds Sample.baseMap) * Dy (Bounds Sample.baseMap)).
Proof.
  destruct (Sample.run (Sample.settings false "ALL") Sample.icons
              Sample.operatorRecords Sample.reportRecords) as [w| |] eqn:E;
    [|vm_compute in E; discriminate|vm_compute in E; discriminate].
  exists w. split; [reflexivity|]. split.
  - vm_compute in E. injection E as <-. discriminate.
  - apply (pictures_have_the_shape_of_the_base_map Sample.flatUTM Sample.parseWhole
             Sample.blankFont Sample.anyFile Sample.keys (fun _ => Sample.keys)
             (Sample.settings false "ALL") Sample.icons Sample.baseMap
             Sample.operatorRecords Sample.reportRecords).
    + intros dst s pt img [= <-] Hs. exact Hs.
    + exact E.
Defined.

Lemma generateMap_same
    (DrawGlyphs : RGBA -> string -> Point -> option RGBA) (Create : string -> bool)
    (receiverOrder : string -> gmap string bool -> list string) (cfg : config)
    (icons : gmap string Image) (baseMap : Image) (operators : gmap string operatorData)
    (rd : reportData) (transmitter : string) (w w' v : world) :
  sameCanvas (resetMaps cfg baseMap w) (resetMaps cfg baseMap w') ->
  generateMap DrawGlyphs Create receiverOrder cfg icons baseMap operators rd w transmitter = Ok v ->
  exists v',
    generateMap DrawGlyphs Create receiverOrder cfg icons baseMap operators rd w' transmitter = Ok v' /\
    outputMap v' = outputMap v.
Proof.
  intros S0 Hg. unfold generateMap in *.
  apply bind_Ok_inv in Hg. destruct Hg as (w1 & H1 & Hg).
  apply bind_Ok_inv in Hg. destruct Hg as (w2 & H2 & Hg).
  apply bind_Ok_inv in Hg. destruct Hg as (w3 & H3 & Hg).
  apply saveMap_Ok in Hg. destruct Hg as [HC ->].
  destruct (forEach_same _ _
              (fun r u u' x Hs Hx =>
                 plotReceiver_same DrawGlyphs cfg icons operators (reports rd) transmitter r u u' x Hs Hx)
              _ _ _ S0 H1) as (w1' & -> & S1).
  rewrite bind_Ok.
  destruct (plotIcon_same DrawGlyphs cfg _ _ _ _ _ S1 H2) as (w2' & -> & S2). rewrite bind_Ok.
  destruct (plotLegend_same DrawGlyphs cfg _ _ _ _ _ S2 H3) as (w3' & -> & S3). rewrite bind_Ok.
  unfold saveMap. rewrite HC.
  eexists. split; [reflexivity|].
  pose proof (mergeText_same w3 w3' S3) as (Eo & _). symmetry. exact Eo.
Qed.

(** X18: Each map starts afresh.  For a decoded base map (bounds at the
    origin, colors 16 bits wide) and two states whose layers have its
    shape, whatever they hold and whatever was printed and written
    before, a map that is generated from the one is generated from the
    other, and the two runs write the same picture under the same name. *)
Theorem map_is_drawn_afresh
    (DrawGlyphs : RGBA -> string -> Point -> option RGBA) (Create : string -> bool)
    (receiverOrder : string -> gmap string bool -> list string) (cfg : config)
    (icons : gmap string Image) (baseMap : Image) (operators : gmap string operatorData)
    (rd : reportData) (transmitter : string) (W H : Z) (w w' v : world) :
  Bounds baseMap = {| Min := {| X := 0; Y := 0 |}; Max := {| X := W; Y := H |} |} ->
  (0 <= W <= 1000000000)%Z -> (0 <= H <= 1000000000)%Z ->
  (forall x y, validColor (At baseMap x y)) ->
  shapedBy (Bounds baseMap) (outputMap w) -> shapedBy (Bounds baseMap) (textMap w) ->
  shapedBy (Bounds baseMap) (outputMap w') -> shapedBy (Bounds baseMap) (textMap w') ->
  generateMap DrawGlyphs Create receiverOrder cfg icons baseMap operators rd w transmitter = Ok v ->
  exists v' picture,
    generateMap DrawGlyphs Create receiverOrder cfg icons baseMap operators rd w' transmitter = Ok v' /\
    files v = files w ++ [(outputFile cfg transmitter, picture)] /\
    files v' = files w' ++ [(outputFile cfg transmitter, picture)].
Proof.
  intros Hb HW HH Hc Ho Ht Ho' Ht' Hg.
  pose proof (resetMaps_same cfg baseMap W H Hb HW HH Hc w w' Ho Ht Ho' Ht') as S0.
  destruct (generateMap_same _ _ _ _ _ _ _ _ _ _ _ _ S0 Hg) as (v' & Hg' & Eo).
  exists v', (outputMap v). split; [exact Hg'|].
  apply generateMap_file in Hg. apply generateMap_file in Hg'.
  destruct Hg as [_ Hf], Hg' as [_ Hf']. rewrite Eo in Hf'. auto.
Qed.

Lemma map_is_drawn_afresh_witness :
  exists v v' picture,
    generateMap Sample.blankFont Sample.anyFile (fun _ => Sample.keys) (Sample.settings false "ALL")
      Sample.icons Sample.baseMap (<["ALFA" := Sample.alfa]> ∅)
      {| reports := {["ALFA" := {["BRAVO" := "good"]}]};
         receivers := {["BRAVO" := true]}; transmitters := {["ALFA" := true]} |}
      Sample.blank "ALFA" = Ok v /\
    generateMap Sample.blankFont Sample.anyFile (fun _ => Sample.keys) (Sample.settings false "ALL")
      Sample.icons Sample.baseMap (<["ALFA" := Sample.alfa]> ∅)
      {| reports := {["ALFA" := {["BRAVO" := "good"]}]};
         receivers := {["BRAVO" := true]}; transmitters := {["ALFA" := true]} |}
      v "ALFA" = Ok v' /\
    files v = files Sample.blank ++ [("output/ALFA-xmit-map.png", picture)] /\
    files v' = files v ++ [("output/ALFA-xmit-map.png", picture)].
Proof.
  destruct (generateMap Sample.blankFont Sample.anyFile (fun _ => Sample.keys)
              (Sample.settings false "ALL") Sample.icons Sample.baseMap
              (<["ALFA" := Sample.alfa]> ∅)
              {| reports := {["ALFA" := {["BRAVO" := "good"]}]};
                 receivers := {["BRAVO" := true]}; transmitters := {["ALFA" := true]} |}
              Sample.blank "ALFA") as [v| |] eqn:E;
    [|vm_compute in E; discriminate|vm_compute in E; discriminate].
  destruct (map_is_drawn_afresh Sample.blankFont Sample.anyFile (fun _ => Sample.keys)
              (Sample.settings false "ALL") Sample.icons Sample.baseMap
              (<["ALFA" := Sample.alfa]> ∅)
              {| reports := {["ALFA" := {["BRAVO" := "good"]}]};
                 receivers := {["BRAVO" := true]}; transmitters := {["ALFA" := true]} |}
              "ALFA" 4 4 Sample.blank v v) as (v' & picture & Hv' & Hf & Hf').
  - reflexivity.
  - lia.
  - lia.
  - intros x y. vm_compute. intuition discriminate.
  - vm_compute. auto.
  - vm_compute. auto.
  - vm_compute in E. injection E as <-. vm_compute. auto.
  - vm_compute in E. injection E as <-. vm_compute. auto.
  - exact E.
  - exists v, v', picture. auto.
Defined.

(** ** Where an icon goes *)

Lemma blend_Over_opaque (d s : Z) : (0 <= s <= 65535)%Z -> blend Over d s 65535 = Z.shiftr s 8.
Proof.
  intros Hs. unfold blend.
  change ((65535 - 65535) * 257)%Z with 0%Z.
  change (uint32 0) with 0%Z. rewrite Z.mul_0_r. change (uint32 0) with 0%Z.
  rewrite Z.add_0_l. unfold uint8, uint32.
  rewrite Z.mod_mod by lia.
  rewrite (Z.mod_small (s * 65535)) by lia.
  rewrite Z.div_mul by lia.
  rewrite Z.shiftr_div_pow2 by lia.
  apply Z.mod_small. change (2 ^ 8)%Z with 256%Z.
  split; [apply Z.div_pos; lia | apply Z.div_lt_upper_bound; lia].
Qed.

Lemma Draw_byte (dst : RGBA) (r : Rectangle) (src : Image) (sp : Point) (op : Op) (j : nat) (d : Z) :
  Pix dst !! j = Some d ->
  Pix (Draw dst r src sp op) !! j
  = Some (let x := (X (Min (Rect dst)) + Z.of_nat j mod Stride dst / 4)%Z in
          let y := (Y (Min (Rect dst)) + Z.of_nat j / Stride dst)%Z in
          let sx := (X sp + (x - X (Min r)))%Z in
          let sy := (Y sp + (y - Y (Min r)))%Z in
          if inRect x y r && inRect x y (Rect dst) && inRect sx sy (Bounds src)
          then blend op d (channel (At src sx sy) (Z.of_nat j mod 4)) (cA (At src sx sy))
          else d).
Proof. intros Hj. unfold Draw. cbn [Pix]. rewrite list_lookup_imap, Hj. reflexivity. Qed.

Lemma plotIcon_outputMap (DrawGlyphs : RGBA -> string -> Point -> option RGBA) (cfg : config)
    (icon : Image) (operator : operatorData) (w v : world) :
  callsign operator <> "" ->
  plotIcon DrawGlyphs cfg (Some icon) operator w = Ok v ->
  outputMap v
  = Draw (outputMap w)
         (RectAdd (Bounds icon)
            {| X := int (X (pixel operator) - Z.quot (X (Max (Bounds icon))) 2);
               Y := int (Y (pixel operator) - Z.quot (Y (Max (Bounds icon))) 2) |})
         icon {| X := 0; Y := 0 |} Over.
Proof.
  intros Hn H. unfold plotIcon in H. rewrite (streq_neq _ _ Hn) in H.
  apply orFatal_Ok in H. unfold DrawString in H.
  match type of H with
  | match ?g with _ => _ end = _ => destruct g; [|discriminate]
  end.
  injection H as <-. reflexivity.
Qed.

(** The byte [j] of the output map after an icon was plotted. *)
Lemma plotIcon_byte (DrawGlyphs : RGBA -> string -> Point -> option RGBA) (cfg : config)
    (icon : Image) (operator : operatorData) (W H iw ih : Z) (w v : world) (j : nat) (d : Z) :
  callsign operator <> "" ->
  Bounds icon = {| Min := {| X := 0; Y := 0 |}; Max := {| X := iw; Y := ih |} |} ->
  (0 <= iw <= 1000000000)%Z -> (0 <= ih <= 1000000000)%Z ->
  (-1000000000 <= X (pixel operator) <= 1000000000)%Z ->
  (-1000000000 <= Y (pixel operator) <= 1000000000)%Z ->
  (0 <= W <= 1000000000)%Z -> (0 <= H <= 1000000000)%Z ->
  shapedBy {| Min := {| X := 0; Y := 0 |}; Max := {| X := W; Y := H |} |} (outputMap w) ->
  plotIcon DrawGlyphs cfg (Some icon) operator w = Ok v ->
  Pix (outputMap w) !! j = Some d ->
  let sx := (Z.of_nat j mod (4 * W) / 4 - (X (pixel operator) - Z.quot iw 2))%Z in
  let sy := (Z.of_nat j / (4 * W) - (Y (pixel operator) - Z.quot ih 2))%Z in
  Pix (outputMap v) !! j
  = Some (if inRect sx sy (Bounds icon)
          then blend Over d (channel (At icon sx sy) (Z.of_nat j mod 4)) (cA (At icon sx sy))
          else d).
Proof.
  intros Hn Hb Hiw Hih Hpx Hpy HW HH Hs Hplot Hj sx sy.
  rewrite (plotIcon_outputMap DrawGlyphs cfg icon operator w v Hn Hplot).
  rewrite (Draw_byte _ _ _ _ _ j d Hj). f_equal. cbv zeta.
  destruct (shaped_index W H HW HH _ j d Hs Hj) as [HW0 Hrange].
  destruct (byte_coordinates W H (Z.of_nat j) HW0 Hrange) as (Bx & By & Bc & _).
  destruct Hs as (HR & HS & _). rewrite (Dx_b W H HW) in HS. rewrite HR, HS, Hb.
  unfold RectAdd. cbn [X Y Min Max]. rewrite !Z.add_0_l.
  assert (Qx : (0 <= Z.quot iw 2 <= iw)%Z) by (Z.quot_rem_to_equations; lia).
  assert (Qy : (0 <= Z.quot ih 2 <= ih)%Z) by (Z.quot_rem_to_equations; lia).
  rewrite (int_small (X (pixel operator) - Z.quot iw 2)) by lia.
  rewrite (int_small (Y (pixel operator) - Z.quot ih 2)) by lia.
  rewrite !int_small by lia.
  fold sx sy.
  set (x := (Z.of_nat j mod (4 * W) / 4)%Z) in *. set (y := (Z.of_nat j / (4 * W))%Z) in *.
  assert (E1 : inRect x y {| Min := {| X := 0; Y := 0 |}; Max := {| X := W; Y := H |} |} = true).
  { unfold inRect. cbn [X Y Min Max]. repeat (apply andb_true_intro; split); lia. }
  assert (E2 : inRect x y {| Min := {| X := X (pixel operator) - Z.quot iw 2;
                                       Y := Y (pixel operator) - Z.quot ih 2 |};
                             Max := {| X := iw + (X (pixel operator) - Z.quot iw 2);
                                       Y := ih + (Y (pixel operator) - Z.quot ih 2) |} |}
               = inRect sx sy {| Min := {| X := 0; Y := 0 |}; Max := {| X := iw; Y := ih |} |}).
  { unfold inRect. cbn [X Y Min Max]. subst sx sy.
    apply eq_true_iff_eq. rewrite !andb_true_iff, !Z.leb_le, !Z.ltb_lt. lia. }
  rewrite E1, E2, andb_true_r, andb_diag. reflexivity.
Qed.

(** X19: The icon of a known operator is stamped with its top left corner
    half its size up and left of the operator's pixel (the icon has its
    bounds at the origin, the map too; sizes and coordinates are within
    10^9).  No byte of the map outside that rectangle changes; where the
    icon is opaque the map takes the high byte of the icon's color; where
    it is fully transparent the map stays. *)
Theorem icon_is_stamped_around_the_operator
    (DrawGlyphs : RGBA -> string -> Point -> option RGBA) (cfg : config)
    (icon : Image) (operator : operatorData) (W H iw ih : Z) (w v : world) (j : nat) (d : Z) :
  callsign operator <> "" ->
  Bounds icon = {| Min := {| X := 0; Y := 0 |}; Max := {| X := iw; Y := ih |} |} ->
  (0 <= iw <= 1000000000)%Z -> (0 <= ih <= 1000000000)%Z ->
  (-1000000000 <= X (pixel operator) <= 1000000000)%Z ->
  (-1000000000 <= Y (pixel operator) <= 1000000000)%Z ->
  (0 <= W <= 1000000000)%Z -> (0 <= H <= 1000000000)%Z ->
  shapedBy {| Min := {| X := 0; Y := 0 |}; Max := {| X := W; Y := H |} |} (outputMap w) ->
  plotIcon DrawGlyphs cfg (Some icon) operator w = Ok v ->
  Pix (outputMap w) !! j = Some d ->
  let sx := (Z.of_nat j mod (4 * W) / 4 - (X (pixel operator) - Z.quot iw 2))%Z in
  let sy := (Z.of_nat j / (4 * W) - (Y (pixel operator) - Z.quot ih 2))%Z in
  (~ (0 <= sx < iw /\ 0 <= sy < ih)%Z -> Pix (outputMap v) !! j = Some d) /\
  ((0 <= sx < iw /\ 0 <= sy < ih)%Z ->
   validColor (At icon sx sy) -> cA (At icon sx sy) = 65535%Z ->
   Pix (outputMap v) !! j = Some (Z.shiftr (channel (At icon sx sy) (Z.of_nat j mod 4)) 8)) /\
  ((0 <= sx < iw /\ 0 <= sy < ih)%Z ->
   At icon sx sy = {| cR := 0; cG := 0; cB := 0; cA := 0 |} -> (0 <= d < 256)%Z ->
   Pix (outputMap v) !! j = Some d).
Proof.
  intros Hn Hb Hiw Hih Hpx Hpy HW HH Hs Hplot Hj sx sy.
  pose proof (plotIcon_byte DrawGlyphs cfg icon operator W H iw ih w v j d
                Hn Hb Hiw Hih Hpx Hpy HW HH Hs Hplot Hj) as E.
  cbv zeta in E. fold sx sy in E. rewrite E, Hb. clear E.
  assert (Hin : inRect sx sy {| Min := {| X := 0; Y := 0 |}; Max := {| X := iw; Y := ih |} |} = true
                <-> (0 <= sx < iw /\ 0 <= sy < ih)%Z).
  { unfold inRect. cbn [X Y Min Max]. rewrite !andb_true_iff, !Z.leb_le, !Z.ltb_lt. lia. }
  repeat split.
  - intros Hout.
    destruct (inRect sx sy _) eqn:Ei; [|reflexivity]. exfalso. apply Hout, Hin. reflexivity.
  - intros Hi Hv Ha. rewrite (proj2 Hin Hi), Ha. f_equal.
    apply blend_Over_opaque, channel_valid, Hv.
  - intros Hi Hz Hd. rewrite (proj2 Hin Hi), Hz. f_equal.
    rewrite channel_zero. apply blend_Over_transparent, Hd.
Qed.

Lemma icon_is_stamped_around_the_operator_witness :
  exists v,
    plotIcon Sample.blankFont (Sample.settings false "ALL") (Some (Sample.solid 1 1 Sample.red))
      Sample.alfa Sample.blank = Ok v /\
    Pix (outputMap v) !! 40%nat = Some 255%Z /\ Pix (outputMap v) !! 36%nat = Some 0%Z.
Proof.
  destruct (plotIcon Sample.blankFont (Sample.settings false "ALL")
              (Some (Sample.solid 1 1 Sample.red)) Sample.alfa Sample.blank) as [v| |] eqn:E;
    [|vm_compute in E; discriminate|vm_compute in E; discriminate].
  exists v. split; [reflexivity|].
  assert (Hv : forall j,
             Pix (outputMap Sample.blank) !! j = Some 0%Z ->
             let sx := (Z.of_nat j mod (4 * 4) / 4 - (X (pixel Sample.alfa) - Z.quot 1 2))%Z in
             let sy := (Z.of_nat j / (4 * 4) - (Y (pixel Sample.alfa) - Z.quot 1 2))%Z in
             (~ (0 <= sx < 1 /\ 0 <= sy < 1)%Z -> Pix (outputMap v) !! j = Some 0%Z) /\
             ((0 <= sx < 1 /\ 0 <= sy < 1)%Z ->
              validColor (At (Sample.solid 1 1 Sample.red) sx sy) ->
              cA (At (Sample.solid 1 1 Sample.red) sx sy) = 65535%Z ->
              Pix (outputMap v) !! j
              = Some (Z.shiftr (channel (At (Sample.solid 1 1 Sample.red) sx sy)
                                        (Z.of_nat j mod 4)) 8)) /\
             ((0 <= sx < 1 /\ 0 <= sy < 1)%Z ->
              At (Sample.solid 1 1 Sample.red) sx sy = {| cR := 0; cG := 0; cB := 0; cA := 0 |} ->
              (0 <= 0 < 256)%Z ->
              Pix (outputMap v) !! j = Some 0%Z)).
  { intros j Hj.
    apply (icon_is_stamped_around_the_operator Sample.blankFont (Sample.settings false "ALL")
             (Sample.solid 1 1 Sample.red) Sample.alfa 4 4 1 1 Sample.blank v j 0).
    - discriminate.
    - reflexivity.
    - lia.
    - lia.
    - simpl. lia.
    - simpl. lia.
    - lia.
    - lia.
    - vm_compute. auto.
    - exact E.
    - exact Hj. }
  split.
  - destruct (Hv 40%nat eq_refl) as (_ & Hop & _). apply Hop.
    + vm_compute. repeat split; discriminate.
    + vm_compute. repeat split; discriminate.
    + reflexivity.
  - destruct (Hv 36%nat eq_refl) as (Hout & _). apply Hout.
    vm_compute. intros [[H1 _] _]. apply H1. reflexivity.
Defined.

(** ** Where the legend goes *)

Lemma forEach_then {A S : Type} (body : S -> A -> result S) (l1 l2 : list A) (s : S)
    (k : S -> result S) :
  (forall s', k s' = forEach body l2 s') ->
  forEach body l1 s ≫= k = forEach body (l1 ++ l2) s.
Proof.
  intros Hk. rewrite forEach_app.
  destruct (forEach body l1 s) as [s'| |]; [|reflexivity|reflexivity].
  rewrite !bind_Ok. apply Hk.
Qed.

Lemma optional_line (DrawGlyphs : RGBA -> string -> Point -> option RGBA) (cfg : config)
    (b : bool) (s : string) (w : world) :
  (if b then drawLegend DrawGlyphs cfg [s] w else Ok w)
  = drawLegend DrawGlyphs cfg (if b then [s] else []) w.
Proof. destruct b; reflexivity. Qed.

(** [plotLegend] is one call of the closure on the lines of the legend. *)
Lemma plotLegend_drawLegend (DrawGlyphs : RGBA -> string -> Point -> option RGBA) (cfg : config)
    (transmitter : string) (opData : operatorData) (w : world) :
  plotLegend DrawGlyphs cfg transmitter opData w
  = drawLegend DrawGlyphs cfg (legendLines cfg transmitter opData) w.
Proof.
  unfold plotLegend, legendLines. cbv zeta.
  rewrite !neq_sentinel.
  replace (negb (streq (antType opData) ""))
    with (if decide (antType opData = "") then false else true).
  2:{ destruct (decide (antType opData = "")) as [E|N].
      - rewrite E. reflexivity.
      - rewrite (streq_neq _ _ N). reflexivity. }
  transitivity
    (drawLegend DrawGlyphs cfg
       [(if RcvMapFlag cfg then "Receive Map (who can I hear) for "
         else "Transmission Map (who can hear me) for ") +:+ transmitter] w
     ≫= fun w =>
     drawLegend DrawGlyphs cfg ["Frequency: 146.535 MHz Simplex"] w
     ≫= fun w =>
     drawLegend DrawGlyphs cfg
       (if Qeq_dec (xmitPwr opData) (-100) then []
        else ["Transmitter Power: " +:+ Sprintf_f 0 (xmitPwr opData) +:+ " Watts"]) w
     ≫= fun w =>
     drawLegend DrawGlyphs cfg
       (if decide (antType opData = "") then [] else ["Antenna Type: " +:+ antType opData]) w
     ≫= fun w =>
     drawLegend DrawGlyphs cfg
       (if Qeq_dec (antHeight opData) (-100) then []
        else ["Antenna Height: " +:+ Sprintf_f 0 (antHeight opData) +:+ " feet"]) w
     ≫= fun w =>
     drawLegend DrawGlyphs cfg
       (if Qeq_dec (antGain opData) (-100) then []
        else ["Antenna Est. Gain: " +:+ Sprintf_f 1 (antGain opData) +:+ " dBi"]) w).
  - destruct (RcvMapFlag cfg), (Qeq_dec (xmitPwr opData) (-100)), (decide (antType opData = "")),
      (Qeq_dec (antHeight opData) (-100)), (Qeq_dec (antGain opData) (-100)); reflexivity.
  - unfold drawLegend.
    change ([?a; ?b] ++ ?r) with ([a] ++ ([b] ++ r)).
    apply forEach_then. intros w1.
    apply forEach_then. intros w2.
    apply forEach_then. intros w3.
    apply forEach_then. intros w4.
    apply forEach_then. intros w5. reflexivity.
Qed.

Lemma int_int_add (a b : Z) : int (int a + b) = int (a + b).
Proof.
  unfold int, wrap. change (64 - 1)%Z with 63%Z.
  set (h := (2 ^ 63)%Z). set (m := (2 ^ 64)%Z).
  assert (Hm : m <> 0%Z) by (subst m; lia).
  f_equal.
  replace ((a + h) mod m - h + b + h)%Z with ((a + h) mod m + b)%Z by lia.
  rewrite Z.add_mod_idemp_l by exact Hm.
  f_equal. lia.
Qed.

Lemma int_int (a : Z) : int (int a) = int a.
Proof. pose proof (int_int_add a 0) as E. rewrite !Z.add_0_r in E. exact E. Qed.

(** The closure on a list of lines: where each goes and where the cursor
    is left. *)
Lemma drawLegend_points (DrawGlyphs : RGBA -> string -> Point -> option RGBA) (cfg : config)
    (items : list string) (w v : world) :
  int (cursorY w) = cursorY w ->
  drawLegend DrawGlyphs cfg items w = Ok v ->
  drawn v
  = drawn w ++ imap (fun k line =>
                       (line, Pt (cursorX w) (int (cursorY w + Z.of_nat k * lineHeight cfg)))) items /\
  cursorX v = cursorX w /\
  cursorY v = int (cursorY w + Z.of_nat (length items) * lineHeight cfg).
Proof.
  unfold drawLegend. revert w. induction items as [|line items IH]; intros w Hy H.
  - injection H as <-. cbn [imap length]. rewrite app_nil_r, Z.mul_0_l, Z.add_0_r. auto.
  - rewrite forEach_cons in H. apply bind_Ok_inv in H. destruct H as (w1 & H1 & H).
    unfold drawLegendItem in H1. apply bind_Ok_inv in H1. destruct H1 as (u & Hu & H1).
    apply orFatal_Ok in Hu. injection H1 as <-.
    assert (Eu : drawn u = drawn w ++ [(line, Pt (cursorX w) (cursorY w))]
                 /\ cursorX u = cursorX w /\ cursorY u = cursorY w).
    { unfold DrawString in Hu. destruct (DrawGlyphs _ _ _); [|discriminate].
      injection Hu as <-. auto. }
    destruct Eu as (Ed & Ex & Ey).
    apply IH in H.
    2:{ cbn [cursorY setCursor]. apply int_int. }
    destruct H as (Hd & Hx & Hyv).
    cbn [cursorX cursorY drawn setCursor] in Hd, Hx, Hyv. fold (lineHeight cfg) in Hd, Hyv.
    rewrite Ex, Ey, Ed in *. split; [|split].
    + rewrite Hd, <- app_assoc. f_equal. cbn [imap app]. f_equal.
      * rewrite Z.mul_0_l, Z.add_0_r, Hy. reflexivity.
      * apply imap_ext. intros k l _. cbn. f_equal. f_equal.
        rewrite int_int_add. f_equal. lia.
    + exact Hx.
    + rewrite Hyv, int_int_add. f_equal. cbn [length]. lia.
Qed.

(** X20: The legend is set in one column and its lines are evenly
    spaced: with the cursor an [int], line [k] of the lines [plotLegend]
    draws goes to the cursor moved down by [k] line heights (in [int]
    arithmetic), so a line that is left out leaves no gap. *)
Theorem legend_lines_are_evenly_spaced
    (DrawGlyphs : RGBA -> string -> Point -> option RGBA) (cfg : config)
    (transmitter : string) (opData : operatorData) (w v : world) :
  (- 2 ^ 63 <= cursorY w < 2 ^ 63)%Z ->
  plotLegend DrawGlyphs cfg transmitter opData w = Ok v ->
  drawn v
  = drawn w ++ imap (fun k line =>
                       (line, Pt (cursorX w) (int (cursorY w + Z.of_nat k * lineHeight cfg))))
                    (legendLines cfg transmitter opData).
Proof.
  intros Hy H. rewrite plotLegend_drawLegend in H.
  apply drawLegend_points in H; [apply H | apply int_small, Hy].
Qed.

Lemma legend_lines_are_evenly_spaced_witness :
  exists v,
    plotLegend Sample.blankFont (Sample.settings false "ALL") "ALFA" Sample.alfa
      (setCursor 40 100 Sample.blank) = Ok v /\
    drawn v
    = [("Transmission Map (who can hear me) for ALFA", Pt 40 100);
       ("Frequency: 146.535 MHz Simplex", Pt 40 128);
       ("Transmitter Power: 5 Watts", Pt 40 156);
       ("Antenna Type: Yagi", Pt 40 184);
       ("Antenna Height: 30 feet", Pt 40 212)].
Proof.
  eexists. split; [vm_compute; reflexivity|].
  rewrite (legend_lines_are_evenly_spaced Sample.blankFont (Sample.settings false "ALL")
             "ALFA" Sample.alfa (setCursor 40 100 Sample.blank) _).
  - vm_compute. reflexivity.
  - simpl. lia.
  - vm_compute. reflexivity.
Defined.

Section Cursor.

Variable DrawGlyphs : RGBA -> string -> Point -> option RGBA.
Variable cfg : config.

(** Steps that draw more and leave the cursor of the legend alone. *)
Local Abbreviation labelling :=
  (fun w v : world =>
     cursorX v = cursorX w /\ cursorY v = cursorY w /\ exists l, drawn v = drawn w ++ l)
  (only parsing).

Lemma labelling_refl (w : world) : labelling w w.
Proof. split; [reflexivity|]. split; [reflexivity|]. exists []. rewrite app_nil_r. reflexivity. Qed.

Lemma labelling_trans (w1 w2 w3 : world) : labelling w1 w2 -> labelling w2 w3 -> labelling w1 w3.
Proof.
  intros (X1 & Y1 & l1 & D1) (X2 & Y2 & l2 & D2).
  split; [congruence|]. split; [congruence|].
  exists (l1 ++ l2). rewrite D2, D1, app_assoc. reflexivity.
Qed.

Lemma labelling_DrawString (s : string) (pt : Point) (w v : world) :
  DrawString DrawGlyphs s pt w = Some v -> labelling w v.
Proof.
  unfold DrawString. destruct (DrawGlyphs _ _ _); [|discriminate].
  intros [= <-]. cbn. eauto.
Qed.

Lemma plotIcon_labelling (icon : option Image) (operator : operatorData) (w v : world) :
  plotIcon DrawGlyphs cfg icon operator w = Ok v -> labelling w v.
Proof.
  apply (plotIcon_steps DrawGlyphs cfg (fun w v => labelling w v)).
  - exact labelling_trans.
  - intros line u. apply (labelling_refl u).
  - intros r src sp op u. apply (labelling_refl u).
  - exact labelling_DrawString.
Qed.

Lemma plotReceivers_labelling (icons : gmap string Image) (operators : gmap string operatorData)
    (reports : gmap string (gmap string string)) (transmitter : string)
    (keys : list string) (w v : world) :
  forEach (plotReceiver DrawGlyphs cfg icons operators reports transmitter) keys w = Ok v ->
  labelling w v.
Proof.
  apply (forEach_steps (fun w v => labelling w v) labelling_refl labelling_trans).
  intros w1 r w2.
  apply (plotReceiver_steps DrawGlyphs cfg (fun w v => labelling w v)).
  - exact labelling_refl.
  - exact labelling_trans.
  - intros line u. apply (labelling_refl u).
  - intros r0 src sp op u. apply (labelling_refl u).
  - exact labelling_DrawString.
Qed.

End Cursor.

(** X21: On every map the legend starts at the same place: five font
    sizes from the left edge and, from the bottom of the text layer, up by
    eight line spacings; the labels of the receivers and of the
    transmitter, which are drawn before it, do not move it, and nothing
    is drawn after it. *)
Theorem legend_starts_at_the_same_place
    (DrawGlyphs : RGBA -> string -> Point -> option RGBA) (Create : string -> bool)
    (receiverOrder : string -> gmap string bool -> list string) (cfg : config)
    (icons : gmap string Image) (baseMap : Image) (operators : gmap string operatorData)
    (rd : reportData) (transmitter : string) (w v : world) :
  generateMap DrawGlyphs Create receiverOrder cfg icons baseMap operators rd w transmitter = Ok v ->
  let x0 := F64.to_int (F64.add (F64.mul (FontSize cfg) 5) (1 # 2)) in
  let y0 :=
    int (Y (Max (Rect (textMap w)))
         - F64.to_int
             (F64.add
                (F64.mul (F64.div (F64.mul (F64.mul (FontSize cfg) (FontLineSpacing cfg)) (FontDPI cfg)) 72) 8)
                (1 # 2))) in
  exists labels,
    drawn v
    = drawn w ++ labels
      ++ imap (fun k line => (line, Pt x0 (int (y0 + Z.of_nat k * lineHeight cfg))))
              (legendLines cfg transmitter (operatorOf operators transmitter)).
Proof.
  intros Hg x0 y0. unfold generateMap in Hg.
  apply bind_Ok_inv in Hg. destruct Hg as (w1 & H1 & Hg).
  apply bind_Ok_inv in Hg. destruct Hg as (w2 & H2 & Hg).
  apply bind_Ok_inv in Hg. destruct Hg as (w3 & H3 & Hg).
  apply saveMap_Ok in Hg. destruct Hg as [_ ->].
  apply plotReceivers_labelling in H1. destruct H1 as (X1 & Y1 & l1 & D1).
  apply plotIcon_labelling in H2. destruct H2 as (X2 & Y2 & l2 & D2).
  rewrite plotLegend_drawLegend in H3. apply drawLegend_points in H3.
  - destruct H3 as (D3 & _). exists (l1 ++ l2).
    change (drawn (writeFile _ _ (mergeText w3))) with (drawn w3).
    rewrite D3, D2, D1, X2, X1, Y2, Y1, <- !app_assoc. reflexivity.
  - rewrite Y2, Y1. apply int_int.
Qed.

Lemma legend_starts_at_the_same_place_witness :
  exists v labels,
    generateMap Sample.blankFont Sample.anyFile (fun _ => Sample.keys) (Sample.settings false "ALL")
      Sample.icons Sample.baseMap (<["ALFA" := Sample.alfa]> ∅)
      {| reports := {["ALFA" := {["BRAVO" := "good"]}]};
         receivers := {["BRAVO" := true]}; transmitters := {["ALFA" := true]} |}
      Sample.blank "ALFA" = Ok v /\
    drawn v
    = drawn Sample.blank ++ labels
      ++ [("Transmission Map (who can hear me) for ALFA", Pt 40 (-220));
          ("Frequency: 146.535 MHz Simplex", Pt 40 (-192));
          ("Transmitter Power: 5 Watts", Pt 40 (-164));
          ("Antenna Type: Yagi", Pt 40 (-136));
          ("Antenna Height: 30 feet", Pt 40 (-108))].
Proof.
  destruct (generateMap Sample.blankFont Sample.anyFile (fun _ => Sample.keys)
              (Sample.settings false "ALL") Sample.icons Sample.baseMap
              (<["ALFA" := Sample.alfa]> ∅)
              {| reports := {["ALFA" := {["BRAVO" := "good"]}]};
                 receivers := {["BRAVO" := true]}; transmitters := {["ALFA" := true]} |}
              Sample.blank "ALFA") as [v| |] eqn:E;
    [|vm_compute in E; discriminate|vm_compute in E; discriminate].
  destruct (legend_starts_at_the_same_place _ _ _ _ _ _ _ _ _ _ _ E) as (labels & Hd).
  exists v, labels. split; [reflexivity|]. rewrite Hd. reflexivity.
Defined.

(** ** The icon catalog *)

Lemma substring_all (s : string) : substring 0 (Stdlib.Strings.String.length s) s = s.
Proof. induction s as [|c s IH]; [reflexivity|]. simpl. rewrite IH. reflexivity. Qed.

Lemma substring_prefix (k s : string) :
  substring 0 (Stdlib.Strings.String.length k) (k +:+ s) = k.
Proof.
  induction k as [|c k IH]; simpl.
  - destruct s; reflexivity.
  - f_equal. exact IH.
Qed.

Lemma substring_suffix (k s : string) :
  substring (Stdlib.Strings.String.length k) (Stdlib.Strings.String.length s) (k +:+ s) = s.
Proof. induction k as [|c k IH]; simpl; [apply substring_all | exact IH]. Qed.

Lemma substring_split (s : string) (n : nat) :
  n <= Stdlib.Strings.String.length s ->
  s = substring 0 n s +:+ substring n (Stdlib.Strings.String.length s - n) s.
Proof.
  revert n. induction s as [|c s IH]; intros n Hn.
  - destruct n; reflexivity.
  - destruct n as [|n].
    + simpl. rewrite substring_all. reflexivity.
    + cbn in *.
      change (String c s
              = String c (substring 0 n s +:+ substring n (Stdlib.Strings.String.length s - n) s)).
      f_equal. apply IH. lia.
Qed.

Lemma HasSuffix_append (k suffix : string) : HasSuffix (k +:+ suffix) suffix = true.
Proof.
  unfold HasSuffix. rewrite append_length.
  replace (Stdlib.Strings.String.length k + Stdlib.Strings.String.length suffix
           - Stdlib.Strings.String.length suffix) with (Stdlib.Strings.String.length k) by lia.
  rewrite substring_suffix, streq_refl, andb_true_r. apply Nat.leb_le. lia.
Qed.

Lemma HasSuffix_inv (s suffix : string) :
  HasSuffix s suffix = true ->
  s = substring 0 (Stdlib.Strings.String.length s - Stdlib.Strings.String.length suffix) s +:+ suffix.
Proof.
  unfold HasSuffix. intros H. apply andb_prop in H. destruct H as [Hl He].
  apply Nat.leb_le in Hl. apply String.eqb_eq in He.
  rewrite (substring_split s (Stdlib.Strings.String.length s - Stdlib.Strings.String.length suffix))
    at 1 by lia.
  f_equal. rewrite <- He at 3. f_equal. lia.
Qed.

(** What [strings.TrimSuffix] returns a given string for. *)
Lemma TrimSuffix_eq (s suffix k : string) :
  TrimSuffix s suffix = k <-> s = k +:+ suffix \/ (s = k /\ HasSuffix k suffix = false).
Proof.
  unfold TrimSuffix. destruct (HasSuffix s suffix) eqn:E.
  - split.
    + intros <-. left. apply HasSuffix_inv, E.
    + intros [->|[-> E']]; [|congruence].
      rewrite append_length.
      replace (Stdlib.Strings.String.length k + Stdlib.Strings.String.length suffix
               - Stdlib.Strings.String.length suffix) with (Stdlib.Strings.String.length k) by lia.
      apply substring_prefix.
  - split.
    + intros <-. right. auto.
    + intros [->|[-> _]]; [|reflexivity]. rewrite HasSuffix_append in E. discriminate.
Qed.

Section Catalog.

Variable File : Type.
Variable ReadDir : string -> option (list string).
Variable Open : string -> option File.
Variable Decode : File -> option Image.
Variable Resize : Z -> Z -> Image -> Image.
Variable IconSize : Z.

(** An entry of the directory that opens and decodes. *)
Local Abbreviation picture dir name icon :=
  (exists f, Open (dir +:+ "/" +:+ name) = Some f /\ Decode f = Some icon) (only parsing).

Lemma loadIcon_Ok (dir : string) (icons icons' : gmap string Image) (name : string) :
  loadIcon File Open Decode Resize IconSize dir icons name = Ok icons' <->
  exists icon, picture dir name icon /\
               icons' = <[TrimSuffix name ".png" := Resize IconSize 0 icon]> icons.
Proof.
  unfold loadIcon. split.
  - intros H. apply bind_Ok_inv in H. destruct H as (f & Hf & H).
    apply bind_Ok_inv in H. destruct H as (icon & Hi & H).
    apply orFatal_Ok in Hf, Hi. injection H as <-. eauto.
  - intros (icon & (f & Hf & Hi) & ->). rewrite Hf. cbn [orFatal]. rewrite bind_Ok, Hi. reflexivity.
Qed.

Lemma loadIcon_never_panics (dir : string) (icons : gmap string Image) (name msg : string) :
  loadIcon File Open Decode Resize IconSize dir icons name <> Panic msg.
Proof.
  unfold loadIcon. destruct (Open _) as [f|]; [|discriminate]. cbn [orFatal]. rewrite bind_Ok.
  destruct (Decode f); discriminate.
Qed.

Lemma loadIcons_loop (dir : string) (names : list string) (acc : gmap string Image) :
  ((exists icons, forEach (loadIcon File Open Decode Resize IconSize dir) names acc = Ok icons)
   <-> Forall (fun name => exists icon, picture dir name icon) names) /\
  (forall msg, forEach (loadIcon File Open Decode Resize IconSize dir) names acc <> Panic msg).
Proof.
  revert acc. induction names as [|name names IH]; intros acc.
  - split; [|discriminate]. split; [constructor | eauto].
  - rewrite forEach_cons.
    destruct (loadIcon File Open Decode Resize IconSize dir acc name) as [acc'|msg|msg] eqn:E.
    + rewrite bind_Ok. apply loadIcon_Ok in E. destruct E as (icon & Hp & _).
      destruct (IH acc') as [IH1 IH2]. split; [|exact IH2].
      rewrite IH1. split.
      * intros HF. constructor; eauto.
      * intros HF. inversion HF; assumption.
    + split; [|discriminate]. split; [intros [icons Hx]; discriminate|].
      intros HF. inversion HF as [|? ? (icon & Hp) _]; subst.
      assert (Hx : exists icons', loadIcon File Open Decode Resize IconSize dir acc name = Ok icons')
        by (eexists; apply loadIcon_Ok; eauto).
      destruct Hx as [icons' Hx]. congruence.
    + exfalso. exact (loadIcon_never_panics _ _ _ _ E).
Qed.

Lemma loadIcons_catalog (dir : string) (names : list string) (acc icons : gmap string Image) :
  forEach (loadIcon File Open Decode Resize IconSize dir) names acc = Ok icons ->
  forall k,
    (is_Some (icons !! k)
     <-> is_Some (acc !! k) \/ exists name, name ∈ names /\ TrimSuffix name ".png" = k) /\
    (forall img, icons !! k = Some img ->
       acc !! k = Some img \/
       exists name icon, name ∈ names /\ TrimSuffix name ".png" = k /\
                         picture dir name icon /\ img = Resize IconSize 0 icon).
Proof.
  revert acc. induction names as [|name names IH]; intros acc H k.
  - injection H as <-. split.
    + split; [auto|]. intros [Hk|(name & Hin & _)]; [exact Hk|]. inversion Hin.
    + auto.
  - rewrite forEach_cons in H. apply bind_Ok_inv in H. destruct H as (acc' & H1 & H).
    apply loadIcon_Ok in H1. destruct H1 as (icon & Hp & ->).
    destruct (IH _ H k) as [IH1 IH2]. split.
    + rewrite IH1. split.
      * intros [Hk|(n & Hin & Hn)].
        -- destruct (decide (TrimSuffix name ".png" = k)) as [E|N].
           ++ right. exists name. split; [left|exact E].
           ++ rewrite lookup_insert_ne in Hk by exact N. auto.
        -- right. exists n. split; [right; exact Hin | exact Hn].
      * intros [Hk|(n & Hin & Hn)].
        -- left. destruct (decide (TrimSuffix name ".png" = k)) as [E|N].
           ++ rewrite E, lookup_insert_eq. eauto.
           ++ rewrite lookup_insert_ne by exact N. exact Hk.
        -- apply elem_of_cons in Hin. destruct Hin as [->|Hin].
           ++ left. rewrite Hn, lookup_insert_eq. eauto.
           ++ right. eauto.
    + intros img Hi. destruct (IH2 img Hi) as [Hk|(n & ic & Hin & Hn & Hpn & ->)].
      * destruct (decide (TrimSuffix name ".png" = k)) as [E|N].
        -- rewrite E, lookup_insert_eq in Hk. injection Hk as <-.
           right. exists name, icon. split; [left|]. auto.
        -- rewrite lookup_insert_ne in Hk by exact N. auto.
      * right. exists n, ic. split; [right; exact Hin|]. auto.
Qed.

End Catalog.

(** X22: [loadIcons] returns a catalog exactly when the directory can be
    read and every entry of it opens and decodes as a PNG picture;
    otherwise the run ends with a fatal error, never with a panic.  One
    entry that is not a picture (a stray file, a subdirectory) is enough
    to end the run. *)
Theorem loadIcons_wants_pictures (File : Type) (ReadDir : string -> option (list string))
    (Open : string -> option File) (Decode : File -> option Image)
    (Resize : Z -> Z -> Image -> Image) (IconSize : Z) (dir : string) :
  ((exists icons, loadIcons File ReadDir Open Decode Resize IconSize dir = Ok icons)
   <-> exists names,
         ReadDir dir = Some names /\
         Forall (fun name => exists icon f,
                   Open (dir +:+ "/" +:+ name) = Some f /\ Decode f = Some icon) names) /\
  (forall msg, loadIcons File ReadDir Open Decode Resize IconSize dir <> Panic msg).
Proof.
  unfold loadIcons. destruct (ReadDir dir) as [names|]; cbn [orFatal].
  - rewrite bind_Ok.
    destruct (loadIcons_loop File Open Decode Resize IconSize dir names ∅) as [H1 H2].
    split; [|exact H2]. rewrite H1. split.
    + intros HF. exists names. split; [reflexivity | exact HF].
    + intros (names' & [= <-] & HF). exact HF.
  - split; [|discriminate]. split.
    + intros [icons H]. discriminate.
    + intros (names & H & _). discriminate.
Qed.

(** X23: The catalog has an icon for a category exactly when the
    directory has the file of that name with the suffix .png, or the file
    of that very name and the name does not end in .png; and every icon
    of the catalog is a decoded picture of such a file, resized to the
    width [IconSize]. *)
Theorem icon_of_a_category_comes_from_its_png (File : Type)
    (ReadDir : string -> option (list string))
    (Open : string -> option File) (Decode : File -> option Image)
    (Resize : Z -> Z -> Image -> Image) (IconSize : Z) (dir : string)
    (icons : gmap string Image) :
  loadIcons File ReadDir Open Decode Resize IconSize dir = Ok icons ->
  exists names,
    ReadDir dir = Some names /\
    forall category,
      (is_Some (icons !! category)
       <-> category +:+ ".png" ∈ names
           \/ (category ∈ names /\ HasSuffix category ".png" = false)) /\
      (forall img, icons !! category = Some img ->
         exists name icon f,
           name ∈ names /\ TrimSuffix name ".png" = category /\
           Open (dir +:+ "/" +:+ name) = Some f /\ Decode f = Some icon /\
           img = Resize IconSize 0%Z icon).
Proof.
  unfold loadIcons. intros H. apply bind_Ok_inv in H. destruct H as (names & Hn & H).
  apply orFatal_Ok in Hn. exists names. split; [exact Hn|]. intros category.
  destruct (loadIcons_catalog File Open Decode Resize IconSize dir names ∅ icons H category)
    as [H1 H2].
  split.
  - rewrite H1. split.
    + intros [Hk|(name & Hin & Ht)].
      * rewrite lookup_empty in Hk. destruct Hk as [? Hk]. discriminate.
      * apply TrimSuffix_eq in Ht. destruct Ht as [->|[-> Hs]]; auto.
    + intros [Hin|[Hin Hs]]; right.
      * exists (category +:+ ".png"). split; [exact Hin|]. apply TrimSuffix_eq. auto.
      * exists category. split; [exact Hin|]. apply TrimSuffix_eq. auto.
  - intros img Hi. destruct (H2 img Hi) as [Hk|(name & icon & Hin & Ht & (f & Hf & Hd) & ->)].
    + rewrite lookup_empty in Hk. discriminate.
    + exists name, icon, f. auto.
Qed.

Lemma icon_of_a_category_comes_from_its_png_witness :
  exists names,
    (fun _ : string => Some ["Trans"; "good.png"]) "icons" = Some names /\
    forall category,
      (is_Some ((<["good" := Sample.solid 1 1 Sample.red]>
                   (<["Trans" := Sample.solid 1 1 Sample.red]> ∅) : gmap string Image) !! category)
       <-> category +:+ ".png" ∈ names
           \/ (category ∈ names /\ HasSuffix category ".png" = false)) /\
      (forall img,
         (<["good" := Sample.solid 1 1 Sample.red]>
            (<["Trans" := Sample.solid 1 1 Sample.red]> ∅) : gmap string Image) !! category
         = Some img ->
         exists name icon f,
           name ∈ names /\ TrimSuffix name ".png" = category /\
           (fun _ : string => Some tt) ("icons" +:+ "/" +:+ name) = Some f /\
           (fun _ : unit => Some (Sample.solid 8 8 Sample.red)) f = Some icon /\
           img = (fun (w h : Z) (_ : Image) => Sample.solid 1 1 Sample.red) 1%Z 0%Z icon).
Proof.
  apply (icon_of_a_category_comes_from_its_png unit (fun _ => Some ["Trans"; "good.png"])
           (fun _ => Some tt) (fun _ => Some (Sample.solid 8 8 Sample.red))
           (fun w h _ => Sample.solid 1 1 Sample.red) 1%Z "icons").
  vm_compute. reflexivity.
Defined.

(** ** The text over the map *)

(** A channel of a pixel of an [*image.RGBA] read through [image.Image]
    is the byte of the buffer, widened to 16 bits. *)
Lemma asImage_channel (W H : Z) (img : RGBA) (x y c : Z) :
  (0 <= W <= 1000000000)%Z -> (0 <= H <= 1000000000)%Z ->
  shapedBy {| Min := {| X := 0; Y := 0 |}; Max := {| X := W; Y := H |} |} img ->
  (0 <= x < W)%Z -> (0 <= y < H)%Z -> (0 <= c < 4)%Z ->
  channel (At (asImage img) x y) c
  = (default 0%Z (Pix img !! Z.to_nat (y * (4 * W) + x * 4 + c)) * 257)%Z.
Proof.
  intros HW HH (HR & HS & _) Hx Hy Hc. rewrite (Dx_b W H HW) in HS.
  unfold asImage. cbn [At]. unfold RGBAAt. rewrite HR.
  assert (Hin : inRect x y {| Min := {| X := 0; Y := 0 |}; Max := {| X := W; Y := H |} |} = true).
  { unfold inRect. cbn [X Y Min Max]. repeat (apply andb_true_intro; split); lia. }
  rewrite Hin. unfold byteAt, PixOffset. rewrite HR, HS. cbn [X Y Min Max].
  rewrite !Z.sub_0_r. unfold channel.
  destruct (Z.eqb_spec c 0) as [->|N0]; [reflexivity|].
  destruct (Z.eqb_spec c 1) as [->|N1]; [reflexivity|].
  destruct (Z.eqb_spec c 2) as [->|N2]; [reflexivity|].
  replace c with 3%Z by lia. reflexivity.
Qed.

Lemma widen_narrow (t : Z) : (0 <= t <= 255)%Z -> Z.shiftr (t * 257) 8 = t.
Proof.
  intros Ht. rewrite Z.shiftr_div_pow2 by lia. change (2 ^ 8)%Z with 256%Z.
  symmetry. apply (Z.div_unique _ _ _ t); lia.
Qed.

(** The byte [j] of the output map after the text layer was merged into
    it: the blend of the byte of the map with the byte of the text, by
    the alpha of the pixel of the text. *)
Lemma mergeText_byte (W H : Z) (w : world) (j : nat) (d : Z) :
  (0 <= W <= 1000000000)%Z -> (0 <= H <= 1000000000)%Z ->
  shapedBy {| Min := {| X := 0; Y := 0 |}; Max := {| X := W; Y := H |} |} (outputMap w) ->
  shapedBy {| Min := {| X := 0; Y := 0 |}; Max := {| X := W; Y := H |} |} (textMap w) ->
  Pix (outputMap w) !! j = Some d ->
  Pix (outputMap (mergeText w)) !! j
  = Some (blend Over d
            (default 0%Z (Pix (textMap w) !! j) * 257)
            (default 0%Z (Pix (textMap w) !! (j - j mod 4 + 3)%nat) * 257)).
Proof.
  intros HW HH Ho Ht Hj.
  destruct (shaped_index W H HW HH _ j d Ho Hj) as [HW0 Hrange].
  destruct (byte_coordinates W H (Z.of_nat j) HW0 Hrange) as (Bx & By & Bc & Bj).
  assert (HR : Rect (textMap w) = {| Min := {| X := 0; Y := 0 |}; Max := {| X := W; Y := H |} |})
    by apply Ht.
  change (outputMap (mergeText w))
    with (Draw (outputMap w) (Rect (textMap w)) (asImage (textMap w)) {| X := 0; Y := 0 |} Over).
  rewrite (Draw_inside W H HW HH (outputMap w) (Rect (textMap w)) (asImage (textMap w)) Over j d
             (Z.of_nat j mod (4 * W) / 4) (Z.of_nat j / (4 * W)) Ho Hj).
  - f_equal.
    change (cA (At (asImage (textMap w)) ?x ?y)) with (channel (At (asImage (textMap w)) x y) 3).
    rewrite !(asImage_channel W H (textMap w)) by (assumption || lia).
    rewrite <- Bj.
    replace (Z.to_nat (Z.of_nat j)) with j by lia.
    replace (Z.to_nat (Z.of_nat j / (4 * W) * (4 * W) + Z.of_nat j mod (4 * W) / 4 * 4 + 3))
      with (j - j mod 4 + 3)%nat.
    + reflexivity.
    + apply Nat2Z.inj. rewrite Z2Nat.id by lia.
      rewrite Nat2Z.inj_add, Nat2Z.inj_sub by (apply Nat.Div0.mod_le).
      rewrite Nat2Z.inj_mod. change (Z.of_nat 4) with 4%Z. change (Z.of_nat 3) with 3%Z. lia.
  - rewrite HR. cbn [X Min]. lia.
  - rewrite HR. cbn [Y Min]. lia.
  - rewrite HR. unfold inRect. cbn [X Y Min Max]. repeat (apply andb_true_intro; split); lia.
  - unfold asImage. cbn [Bounds]. rewrite HR. unfold inRect. cbn [X Y Min Max].
    repeat (apply andb_true_intro; split); lia.
Qed.

(** X24: The merge lays the text layer over the map (two layers of one
    shape, bounds at the origin).  Where a pixel of the text layer is
    opaque the map takes its bytes; where it is clear the map keeps its
    own; and the text layer itself is left as it is. *)
Theorem text_is_laid_over_the_map (W H : Z) (w : world) (j : nat) (d t a : Z) :
  (0 <= W <= 1000000000)%Z -> (0 <= H <= 1000000000)%Z ->
  shapedBy {| Min := {| X := 0; Y := 0 |}; Max := {| X := W; Y := H |} |} (outputMap w) ->
  shapedBy {| Min := {| X := 0; Y := 0 |}; Max := {| X := W; Y := H |} |} (textMap w) ->
  Pix (outputMap w) !! j = Some d ->
  Pix (textMap w) !! j = Some t ->
  Pix (textMap w) !! (j - j mod 4 + 3)%nat = Some a ->
  (a = 255%Z -> (0 <= t <= 255)%Z -> Pix (outputMap (mergeText w)) !! j = Some t) /\
  (a = 0%Z -> t = 0%Z -> (0 <= d < 256)%Z -> Pix (outputMap (mergeText w)) !! j = Some d) /\
  textMap (mergeText w) = textMap w.
Proof.
  intros HW HH Ho Ht Hj Htj Ha.
  rewrite (mergeText_byte W H w j d HW HH Ho Ht Hj), Htj, Ha. cbn [default]. unfold id.
  split; [|split].
  - intros -> Hr. f_equal. change (255 * 257)%Z with 65535%Z.
    rewrite blend_Over_opaque by lia. apply widen_narrow, Hr.
  - intros -> -> Hd. f_equal. apply blend_Over_transparent, Hd.
  - reflexivity.
Qed.

Lemma text_is_laid_over_the_map_witness :
  Pix (outputMap (mergeText
         (setTextMap {| Pix := [7; 8; 9; 255; 0; 0; 0; 0]%Z; Stride := 8;
                        Rect := {| Min := {| X := 0; Y := 0 |}; Max := {| X := 2; Y := 1 |} |} |}
            (setOutputMap {| Pix := [1; 2; 3; 255; 4; 5; 6; 255]%Z; Stride := 8;
                             Rect := {| Min := {| X := 0; Y := 0 |}; Max := {| X := 2; Y := 1 |} |} |}
               Sample.blank)))) !! 1%nat = Some 8%Z.
Proof.
  apply (text_is_laid_over_the_map 2 1 _ 1 2 8 255).
  - lia.
  - lia.
  - vm_compute. auto.
  - vm_compute. auto.
  - reflexivity.
  - reflexivity.
  - reflexivity.
  - reflexivity.
  - lia.
Defined.
